(** * Geomag: a shallow embedding of the World Magnetic Model evaluator

    The development follows [src/geomag.c] and [include/geomag.h], and
    two of their callers, [benchmark/benchmark.c] and
    [test/test_geomag.c].

    Conventions of the embedding:
    - a C [int] is a [Z] (every index the program forms stays far below
      the 32-bit range: degrees and orders are bounded by 133);
    - a C [double] is a real number of [R]: the arithmetic is exact, so
      rounding, infinities, NaN and the sign of a zero are outside the
      model, and the libm functions [sin], [cos], [sqrt], [fabs], [atan2]
      are the mathematical functions they approximate; a quotient whose
      divisor is 0 is an infinity or a NaN in C and has no counterpart
      here, so what is proved of a quotient is proved for a divisor that
      is not 0;
    - a C array is a total map from its index to its element, one- or
      two-dimensional; the program only forms indices inside the declared
      bounds;
    - a pointer argument that may be NULL is an [option];
    - a function that writes through its pointer arguments returns the
      return code together with the new contents of what it may write;
    - memory that C leaves uninitialised (a fresh local array) is an
      explicit argument holding its indeterminate contents;
    - messages printed on [stderr] are not modelled, nor are, in the
      callers, the clock and what is printed on [stdout]. *)

From Stdlib Require Import ZArith Reals Lra Lia Bool List String.
Import ListNotations.

Open Scope Z_scope.
Open Scope R_scope.

(** ** Arrays *)

Definition array1 := Z -> R.
Definition array2 := Z -> Z -> R.

Definition upd (a : array1) (i : Z) (v : R) : array1 :=
  fun j => if Z.eqb j i then v else a j.

Definition upd2 (a : array2) (i j : Z) (v : R) : array2 :=
  fun i' j' => if (Z.eqb i' i && Z.eqb j' j)%bool then v else a i' j'.

(** [memset (a, 0, sizeof a)] *)
Definition zeros2 : array2 := fun _ _ => 0.

(** ** Counted loops

    [for (i = i0; ...; i++) body] when the number of turns is known on
    entry, and [while (D > 0) { body; D -= 1; i += 1; }]: the body runs
    at [i0], [i0 + 1], ... for [turns] turns. *)
Fixpoint iter_from {S : Type} (turns : nat) (i : Z) (body : Z -> S -> S)
    (s : S) : S :=
  match turns with
  | O => s
  | Datatypes.S turns' => iter_from turns' (i + 1)%Z body (body i s)
  end.

(** ** Comparisons of doubles, as the booleans C computes *)

Definition Rltb (x y : R) : bool := if Rlt_dec x y then true else false.
Definition Rleb (x y : R) : bool := if Rle_dec x y then true else false.
Definition Rgtb (x y : R) : bool := Rltb y x.
Definition Rgeb (x y : R) : bool := Rleb y x.
Definition Reqb (x y : R) : bool := if Req_EM_T x y then true else false.

(** ** Constants and macros of [geomag.h] and [geomag.c] *)

Definition WMM_SIZE_STANDARD : Z := 12.
Definition WMM_SIZE_HIGH_RESOLUTION : Z := 133.
Definition WMM_MAX_SIZE : Z := 134.

Definition BLACKOUT_ZONE : R := 2000.
Definition CAUTION_ZONE : R := 6000.

Definition WGS84_A : R := 6378137 / 1000.
Definition WGS84_B : R := 63567523142 / 10000000.
Definition WGS84_RE : R := 63712 / 10.

Definition WMM_MODEL_2015_LOWER : R := 2015.
Definition WMM_MODEL_2015_UPPER : R := 2020.
Definition WMM_MODEL_2020_LOWER : R := 2020.
Definition WMM_MODEL_2020_UPPER : R := 2025.
Definition WMM_MODEL_2025_LOWER : R := 2025.
Definition WMM_MODEL_2025_UPPER : R := 2030.

Definition DEG2RAD (deg : R) : R := deg * PI / 180.
Definition RAD2DEG (rad : R) : R := rad * 180 / PI.

(** The two-argument arctangent of libm: the angle of the point [(x, y)],
    in (-PI, PI], with [atan2 0 0 = 0].  On the negative half of the
    x axis, and at the origin, libm follows the signs of the zeros: it
    returns -pi for [y = -0.0] and [x < 0], and pi or -pi at the
    origin for [x = -0.0].  The properties of an angle are therefore
    stated on the closed interval from -PI to PI, which holds of both. *)
Definition atan2 (y x : R) : R :=
  if Rlt_dec 0 x then atan (y / x)
  else if Rlt_dec x 0 then
    if Rle_dec 0 y then atan (y / x) + PI else atan (y / x) - PI
  else if Rlt_dec 0 y then PI / 2
  else if Rlt_dec y 0 then - (PI / 2)
  else 0.

(** ** The three structures of [geomag.h] *)

Module GeoMagResult.
Record t := mk {
  time : R; alt : R; glat : R; glon : R;
  x : R; y : R; z : R; h : R; f : R; i : R; d : R; gv : R;
  in_blackout_zone : bool;
  in_caution_zone : bool;
  is_high_resolution : bool
}.
End GeoMagResult.

Module GeoMagUncertainty.
Record t := mk { x : R; y : R; z : R; h : R; f : R; i : R; d : R }.
End GeoMagUncertainty.

Module GeoMag.
Record t := mk {
  maxord : Z;
  size : Z;
  epoch : R;
  model : string;
  release_date : string;
  c : array2;
  cd : array2;
  k : array2;
  fn : array1;
  fm : array1;
  p : array1
}.

Definition set_maxord (g : t) (v : Z) : t :=
  mk v (size g) (epoch g) (model g) (release_date g)
     (c g) (cd g) (k g) (fn g) (fm g) (p g).
Definition set_size (g : t) (v : Z) : t :=
  mk (maxord g) v (epoch g) (model g) (release_date g)
     (c g) (cd g) (k g) (fn g) (fm g) (p g).
Definition set_header (g : t) (e : R) (name date : string) : t :=
  mk (maxord g) (size g) e name date
     (c g) (cd g) (k g) (fn g) (fm g) (p g).
Definition set_c (g : t) (v : array2) : t :=
  mk (maxord g) (size g) (epoch g) (model g) (release_date g)
     v (cd g) (k g) (fn g) (fm g) (p g).
Definition set_cd (g : t) (v : array2) : t :=
  mk (maxord g) (size g) (epoch g) (model g) (release_date g)
     (c g) v (k g) (fn g) (fm g) (p g).
Definition set_k (g : t) (v : array2) : t :=
  mk (maxord g) (size g) (epoch g) (model g) (release_date g)
     (c g) (cd g) v (fn g) (fm g) (p g).
Definition set_fn (g : t) (v : array1) : t :=
  mk (maxord g) (size g) (epoch g) (model g) (release_date g)
     (c g) (cd g) (k g) v (fm g) (p g).
Definition set_fm (g : t) (v : array1) : t :=
  mk (maxord g) (size g) (epoch g) (model g) (release_date g)
     (c g) (cd g) (k g) (fn g) v (p g).
Definition set_p (g : t) (v : array1) : t :=
  mk (maxord g) (size g) (epoch g) (model g) (release_date g)
     (c g) (cd g) (k g) (fn g) (fm g) v.
End GeoMag.

(** ** The coefficient file

    [fopen] either fails or gives a stream.  The header is what
    [fscanf (fp, "%lf %s %s", ...)] converts, [None] when it converts fewer
    than three items (what that scan stores before it gives up is not
    modelled).  [records] is the sequence of coefficient lines on
    which [fscanf (fp, "%d %d %lf %lf %lf %lf", ...)] converts all six
    items, in file order; the scan that follows the last of them returns
    something else than 6 (end of file, or text that does not convert). *)

Record cof_record := mk_record {
  rec_n : Z; rec_m : Z;
  rec_gnm : R; rec_hnm : R; rec_dgnm : R; rec_dhnm : R
}.

Record cof_file := mk_file {
  header : option (R * string * string);
  records : list cof_record
}.

(** ** [load_coefficients] *)

(** How the reading loop of lines 54-86 ends. *)
Inductive read_outcome :=
| ReadDone (g : GeoMag.t)      (* one of the three [break]s *)
| ReadCorrupt (g : GeoMag.t).  (* the [return -1] of line 74 *)

(** Lines 77-85: store one record. *)
Definition store_record (g : GeoMag.t) (r : cof_record) : GeoMag.t :=
  let n := rec_n r in
  let m := rec_m r in
  if (m <=? n)%Z then
    let g := GeoMag.set_c g (upd2 (GeoMag.c g) m n (rec_gnm r)) in
    let g := GeoMag.set_cd g (upd2 (GeoMag.cd g) m n (rec_dgnm r)) in
    if negb (m =? 0)%Z then
      let g := GeoMag.set_c g (upd2 (GeoMag.c g) n (m - 1) (rec_hnm r)) in
      GeoMag.set_cd g (upd2 (GeoMag.cd g) n (m - 1) (rec_dhnm r))
    else g
  else g.

(** Line 71: the index validation. *)
Definition corrupt_record (g : GeoMag.t) (r : cof_record) : bool :=
  let n := rec_n r in
  let m := rec_m r in
  ((n <? m)%Z || (m <? 0)%Z || (GeoMag.size g <=? n)%Z
   || (GeoMag.size g <=? m)%Z)%bool.

(** Lines 54-86: [while (1)] over the scanned records. *)
Fixpoint read_records (g : GeoMag.t) (rs : list cof_record) : read_outcome :=
  match rs with
  | [] => ReadDone g                                   (* fscanf != 6 *)
  | r :: rest =>
      if (rec_n r =? 9999)%Z then ReadDone g           (* end marker *)
      else if (GeoMag.maxord g <? rec_m r)%Z then ReadDone g
      else if corrupt_record g r then ReadCorrupt g
      else read_records (store_record g r) rest
  end.

(** The state of the normalisation loops of lines 95-122: the model, the
    local [snorm] and the local [j]. *)
Record norm_state := mk_norm {
  ns_gm : GeoMag.t;
  ns_snorm : array1;
  ns_j : Z
}.

(** Lines 103-117: one turn of [while (D2 > 0)], at degree [n], order [m]. *)
Definition norm_body (n m : Z) (s : norm_state) : norm_state :=
  let g := ns_gm s in
  let snorm := ns_snorm s in
  let j := ns_j s in
  let size := GeoMag.size g in
  let g := GeoMag.set_k g
             (upd2 (GeoMag.k g) m n
                (IZR ((n - 1) * (n - 1) - m * m)
                 / IZR ((2 * n - 1) * (2 * n - 3)))) in
  let '(g, snorm, j) :=
    if (0 <? m)%Z then
      let flnmj := IZR ((n - m + 1) * j) / IZR (n + m) in
      let snorm := upd snorm (n + m * size)
                     (snorm (n + (m - 1) * size)%Z * sqrt flnmj) in
      let g := GeoMag.set_c g
                 (upd2 (GeoMag.c g) n (m - 1)
                    (snorm (n + m * size)%Z * GeoMag.c g n (m - 1)%Z)) in
      let g := GeoMag.set_cd g
                 (upd2 (GeoMag.cd g) n (m - 1)
                    (snorm (n + m * size)%Z * GeoMag.cd g n (m - 1)%Z)) in
      (g, snorm, 1%Z)
    else (g, snorm, j) in
  let g := GeoMag.set_c g
             (upd2 (GeoMag.c g) m n
                (snorm (n + m * size)%Z * GeoMag.c g m n)) in
  let g := GeoMag.set_cd g
             (upd2 (GeoMag.cd g) m n
                (snorm (n + m * size)%Z * GeoMag.cd g m n)) in
  mk_norm g snorm j.

(** Lines 96-121: the body of [for (n = 1; n <= maxord; n++)]; the inner
    [while (D2 > 0) { ...; D2 -= 1; m += D1; }] has [D1 = 1]. *)
Definition norm_degree (n : Z) (s : norm_state) : norm_state :=
  let snorm := upd (ns_snorm s) n
                 (ns_snorm s (n - 1)%Z * IZR (2 * n - 1) / IZR n) in
  let m := 0%Z in
  let D1 := 1%Z in
  let D2 := Z.quot (n - m + D1) D1 in
  let s := iter_from (Z.to_nat D2) m (norm_body n)
             (mk_norm (ns_gm s) snorm 2) in
  let g := ns_gm s in
  let g := GeoMag.set_fn g (upd (GeoMag.fn g) n (IZR (n + 1))) in
  let g := GeoMag.set_fm g (upd (GeoMag.fm g) n (IZR n)) in
  mk_norm g (ns_snorm s) (ns_j s).

(** Lines 90-129, after the file is closed.  [snorm0] is the
    indeterminate content of the local array [snorm]. *)
Definition normalize (snorm0 : array1) (g : GeoMag.t) : GeoMag.t :=
  let snorm := upd snorm0 0 1 in
  let g := GeoMag.set_fm g (upd (GeoMag.fm g) 0 0) in
  let s := iter_from (Z.to_nat (GeoMag.maxord g)) 1 norm_degree
             (mk_norm g snorm 2) in
  let g := ns_gm s in
  let g := GeoMag.set_k g (upd2 (GeoMag.k g) 1 1 0) in
  GeoMag.set_p g (ns_snorm s).

(** Lines 42-48: the coefficient arrays are initialised. *)
Definition clear_tables (g : GeoMag.t) : GeoMag.t :=
  let g := GeoMag.set_c g zeros2 in
  let g := GeoMag.set_cd g zeros2 in
  let g := GeoMag.set_k g zeros2 in
  let g := GeoMag.set_c g (upd2 (GeoMag.c g) 0 0 0) in
  GeoMag.set_cd g (upd2 (GeoMag.cd g) 0 0 0).

Definition load_coefficients (snorm0 : array1) (geo_mag : GeoMag.t)
    (coefficients_file : option cof_file) : Z * GeoMag.t :=
  match coefficients_file with
  | None => ((-1)%Z, geo_mag)                           (* fopen fails *)
  | Some file =>
      match header file with
      | None =>
          (* fewer than three items converted: [epoch] and [model] hold
             what the scan stored before it gave up, which is not
             modelled; nothing is stated of the structure in this case *)
          ((-1)%Z, geo_mag)
      | Some (e, name, date) =>
          let g := GeoMag.set_header geo_mag e name date in
          let g := clear_tables g in
          match read_records g (records file) with
          | ReadCorrupt g => ((-1)%Z, g)
          | ReadDone g => (0%Z, normalize snorm0 g)
          end
      end
  end.

(** ** [geomag_init]

    [geo_mag] is the caller's structure, with whatever it held before;
    the path is modelled by what [fopen] finds there (the outer [option]
    is the pointer, the inner one the file). *)
Definition geomag_init (snorm0 : array1) (geo_mag : option GeoMag.t)
    (coefficients_file : option (option cof_file)) (high_resolution : bool)
    : Z * option GeoMag.t :=
  match geo_mag, coefficients_file with
  | Some g, Some file =>
      let g := if high_resolution
               then GeoMag.set_maxord g WMM_SIZE_HIGH_RESOLUTION
               else GeoMag.set_maxord g WMM_SIZE_STANDARD in
      let g := GeoMag.set_size g (GeoMag.maxord g + 1) in
      let '(rc, g) := load_coefficients snorm0 g file in
      (rc, Some g)
  | _, _ => ((-1)%Z, geo_mag)
  end.

(** ** [geomag_calculate] *)

Module ResultUpdate.
Import GeoMagResult.
Definition set_time (r : t) (v : R) : t :=
  mk v (alt r) (glat r) (glon r) (x r) (y r) (z r) (h r) (f r) (i r)
     (d r) (gv r) (in_blackout_zone r) (in_caution_zone r)
     (is_high_resolution r).
Definition set_alt (r : t) (v : R) : t :=
  mk (time r) v (glat r) (glon r) (x r) (y r) (z r) (h r) (f r) (i r)
     (d r) (gv r) (in_blackout_zone r) (in_caution_zone r)
     (is_high_resolution r).
Definition set_glat (r : t) (v : R) : t :=
  mk (time r) (alt r) v (glon r) (x r) (y r) (z r) (h r) (f r) (i r)
     (d r) (gv r) (in_blackout_zone r) (in_caution_zone r)
     (is_high_resolution r).
Definition set_glon (r : t) (v : R) : t :=
  mk (time r) (alt r) (glat r) v (x r) (y r) (z r) (h r) (f r) (i r)
     (d r) (gv r) (in_blackout_zone r) (in_caution_zone r)
     (is_high_resolution r).
Definition set_x (r : t) (v : R) : t :=
  mk (time r) (alt r) (glat r) (glon r) v (y r) (z r) (h r) (f r) (i r)
     (d r) (gv r) (in_blackout_zone r) (in_caution_zone r)
     (is_high_resolution r).
Definition set_y (r : t) (v : R) : t :=
  mk (time r) (alt r) (glat r) (glon r) (x r) v (z r) (h r) (f r) (i r)
     (d r) (gv r) (in_blackout_zone r) (in_caution_zone r)
     (is_high_resolution r).
Definition set_z (r : t) (v : R) : t :=
  mk (time r) (alt r) (glat r) (glon r) (x r) (y r) v (h r) (f r) (i r)
     (d r) (gv r) (in_blackout_zone r) (in_caution_zone r)
     (is_high_resolution r).
Definition set_h (r : t) (v : R) : t :=
  mk (time r) (alt r) (glat r) (glon r) (x r) (y r) (z r) v (f r) (i r)
     (d r) (gv r) (in_blackout_zone r) (in_caution_zone r)
     (is_high_resolution r).
Definition set_f (r : t) (v : R) : t :=
  mk (time r) (alt r) (glat r) (glon r) (x r) (y r) (z r) (h r) v (i r)
     (d r) (gv r) (in_blackout_zone r) (in_caution_zone r)
     (is_high_resolution r).
Definition set_i (r : t) (v : R) : t :=
  mk (time r) (alt r) (glat r) (glon r) (x r) (y r) (z r) (h r) (f r) v
     (d r) (gv r) (in_blackout_zone r) (in_caution_zone r)
     (is_high_resolution r).
Definition set_d (r : t) (v : R) : t :=
  mk (time r) (alt r) (glat r) (glon r) (x r) (y r) (z r) (h r) (f r)
     (i r) v (gv r) (in_blackout_zone r) (in_caution_zone r)
     (is_high_resolution r).
Definition set_gv (r : t) (v : R) : t :=
  mk (time r) (alt r) (glat r) (glon r) (x r) (y r) (z r) (h r) (f r)
     (i r) (d r) v (in_blackout_zone r) (in_caution_zone r)
     (is_high_resolution r).
Definition set_in_blackout_zone (r : t) (v : bool) : t :=
  mk (time r) (alt r) (glat r) (glon r) (x r) (y r) (z r) (h r) (f r)
     (i r) (d r) (gv r) v (in_caution_zone r) (is_high_resolution r).
Definition set_in_caution_zone (r : t) (v : bool) : t :=
  mk (time r) (alt r) (glat r) (glon r) (x r) (y r) (z r) (h r) (f r)
     (i r) (d r) (gv r) (in_blackout_zone r) v (is_high_resolution r).
Definition set_is_high_resolution (r : t) (v : bool) : t :=
  mk (time r) (alt r) (glat r) (glon r) (x r) (y r) (z r) (h r) (f r)
     (i r) (d r) (gv r) (in_blackout_zone r) (in_caution_zone r) v.
End ResultUpdate.
Import ResultUpdate.

(** The working arrays of lines 166-170; on entry they hold what the
    stack held. *)
Record working_arrays := mk_working {
  tc : array2; dp : array2; sp : array1; cp : array1; pp : array1
}.

(** Lines 156-163: the result is initialised before anything is checked. *)
Definition init_result (g : GeoMag.t) (glat glon alt time : R)
    (result : GeoMagResult.t) : GeoMagResult.t :=
  let result := set_time result time in
  let result := set_alt result alt in
  let result := set_glat result glat in
  let result := set_glon result glon in
  let result := set_in_blackout_zone result false in
  let result := set_in_caution_zone result false in
  set_is_high_resolution result
    (GeoMag.maxord g =? WMM_SIZE_HIGH_RESOLUTION)%Z.

(** Lines 173-176: [sp[0] = 0.0; cp[0] = 1.0; pp[0] = 1.0;
    dp[0][0] = 0.0]. *)
Definition init_working (stack : working_arrays) : working_arrays :=
  mk_working (tc stack) (upd2 (dp stack) 0 0 0)
    (upd (sp stack) 0 0) (upd (cp stack) 0 1) (upd (pp stack) 0 1).

(** Line 191: [dt < 0.0 || dt > 5.0]. *)
Definition outside_lifespan (dt : R) : bool := (Rltb dt 0 || Rgtb dt 5)%bool.

(** Lines 196-219: geodetic to spherical coordinates. *)
Record spherical := mk_spherical {
  sph_ct : R; sph_st : R; sph_r : R; sph_ca : R; sph_sa : R
}.

Definition geodetic_to_spherical (glat alt : R) : spherical :=
  let a := WGS84_A in
  let b := WGS84_B in
  let a2 := a * a in
  let b2 := b * b in
  let c2 := a2 - b2 in
  let a4 := a2 * a2 in
  let b4 := b2 * b2 in
  let c4 := a4 - b4 in
  let rlat := DEG2RAD glat in
  let srlat := sin rlat in
  let crlat := cos rlat in
  let srlat2 := srlat * srlat in
  let crlat2 := crlat * crlat in
  let q := sqrt (a2 - c2 * srlat2) in
  let q1 := alt * q in
  let q2 := ((q1 + a2) / (q1 + b2)) * ((q1 + a2) / (q1 + b2)) in
  let ct := srlat / sqrt (q2 * crlat2 + srlat2) in
  let st := sqrt (1 - (ct * ct)) in
  let r2 := (alt * alt) + 2 * q1 + (a4 - c4 * srlat2) / (q * q) in
  let r := sqrt r2 in
  let d := sqrt (a2 * crlat2 + b2 * srlat2) in
  let ca := (alt + d) / r in
  let sa := c2 * crlat * srlat / (r * d) in
  mk_spherical ct st r ca sa.

(** Lines 222-225: sines and cosines of the multiples of the longitude. *)
Definition lon_body (m : Z) (w : working_arrays) : working_arrays :=
  let sp' := upd (sp w) m (sp w 1%Z * cp w (m - 1)%Z
                           + cp w 1%Z * sp w (m - 1)%Z) in
  let cp' := upd (cp w) m (cp w 1%Z * cp w (m - 1)%Z
                           - sp' 1%Z * sp' (m - 1)%Z) in
  mk_working (tc w) (dp w) sp' cp' (pp w).

(** The state of the main loop: the model (whose [p] the loop writes),
    the working arrays and the running sums. *)
Record synth_state := mk_synth {
  ss_gm : GeoMag.t;
  ss_w : working_arrays;
  ss_ar : R;
  ss_br : R; ss_bt : R; ss_bp : R; ss_bpp : R
}.

(** Lines 240-257: the Legendre functions and their derivatives. *)
Definition legendre_step (st ct : R) (n m : Z) (g : GeoMag.t) (dp : array2)
    : GeoMag.t * array2 :=
  let size := GeoMag.size g in
  if (n =? m)%Z then
    let g := GeoMag.set_p g
               (upd (GeoMag.p g) (n + m * size)
                  (st * GeoMag.p g (n - 1 + (m - 1) * size)%Z)) in
    let dp := upd2 dp m n
                (st * dp (m - 1)%Z (n - 1)%Z
                 + ct * GeoMag.p g (n - 1 + (m - 1) * size)%Z) in
    (g, dp)
  else if ((n =? 1)%Z && (m =? 0)%Z)%bool then
    let g := GeoMag.set_p g
               (upd (GeoMag.p g) (n + m * size)
                  (ct * GeoMag.p g (n - 1 + m * size)%Z)) in
    let dp := upd2 dp m n
                (ct * dp m (n - 1)%Z
                 - st * GeoMag.p g (n - 1 + m * size)%Z) in
    (g, dp)
  else if ((1 <? n)%Z && negb (n =? m)%Z)%bool then
    let g := if (n - 2 <? m)%Z
             then GeoMag.set_p g (upd (GeoMag.p g) (n - 2 + m * size) 0)
             else g in
    let dp := if (n - 2 <? m)%Z then upd2 dp m (n - 2) 0 else dp in
    let g := GeoMag.set_p g
               (upd (GeoMag.p g) (n + m * size)
                  (ct * GeoMag.p g (n - 1 + m * size)%Z
                   - GeoMag.k g m n * GeoMag.p g (n - 2 + m * size)%Z)) in
    let dp := upd2 dp m n
                (ct * dp m (n - 1)%Z
                 - st * GeoMag.p g (n - 1 + m * size)%Z
                 - GeoMag.k g m n * dp m (n - 2)%Z) in
    (g, dp)
  else (g, dp).

(** Lines 239-293: one turn of [while (D4 > 0)], at degree [n], order [m]. *)
Definition synth_body (st ct dt : R) (n m : Z) (s : synth_state)
    : synth_state :=
  let w := ss_w s in
  let ar := ss_ar s in
  let '(g, dp) := legendre_step st ct n m (ss_gm s) (dp w) in
  let size := GeoMag.size g in
  (* time adjust the Gauss coefficients *)
  let tc := upd2 (tc w) m n (GeoMag.c g m n + dt * GeoMag.cd g m n) in
  let tc := if negb (m =? 0)%Z
            then upd2 tc n (m - 1)
                   (GeoMag.c g n (m - 1)%Z + dt * GeoMag.cd g n (m - 1)%Z)
            else tc in
  (* accumulate terms of the spherical harmonic expansions *)
  let par := ar * GeoMag.p g (n + m * size)%Z in
  let '(temp1, temp2) :=
    if (m =? 0)%Z then (tc m n * cp w m, tc m n * sp w m)
    else (tc m n * cp w m + tc n (m - 1)%Z * sp w m,
          tc m n * sp w m - tc n (m - 1)%Z * cp w m) in
  let bt := ss_bt s - ar * temp1 * dp m n in
  let bp := ss_bp s + GeoMag.fm g m * temp2 * par in
  let br := ss_br s + GeoMag.fn g n * temp1 * par in
  (* special case: North/South geographic poles *)
  let at_pole := (Reqb st 0 && (m =? 1)%Z)%bool in
  let pp :=
    if at_pole then
      if (n =? 1)%Z then upd (pp w) n (pp w (n - 1)%Z)
      else upd (pp w) n
             (ct * pp w (n - 1)%Z - GeoMag.k g m n * pp w (n - 2)%Z)
    else pp w in
  let bpp :=
    if at_pole then
      let parp := ar * pp n in
      ss_bpp s + GeoMag.fm g m * temp2 * parp
    else ss_bpp s in
  mk_synth g (mk_working tc dp (sp w) (cp w) pp) ar br bt bp bpp.

(** Lines 232-295: the body of [for (n = 1; n <= maxord; n++)]; the inner
    loop has [D3 = 1] and starts with [D4 = n + 1]. *)
Definition synth_degree (st ct dt aor : R) (n : Z) (s : synth_state)
    : synth_state :=
  let s := mk_synth (ss_gm s) (ss_w s) (ss_ar s * aor)
             (ss_br s) (ss_bt s) (ss_bp s) (ss_bpp s) in
  let m := 0%Z in
  let D3 := 1%Z in
  let D4 := Z.quot (n + m + D3) D3 in
  iter_from (Z.to_nat D4) m (synth_body st ct dt n) s.

(** Lines 314-332: the grid variation. *)
Definition grid_variation (glat glon d : R) : R :=
  let gv := -999 in
  if Rgeb (Rabs glat) 55 then
    let gv :=
      if (Rgtb glat 0 && Rgeb glon 0)%bool then d - glon
      else if (Rgtb glat 0 && Rltb glon 0)%bool then d + Rabs glon
      else if (Rltb glat 0 && Rgeb glon 0)%bool then d + glon
      else if (Rltb glat 0 && Rltb glon 0)%bool then d - Rabs glon
      else gv in
    if Rgtb gv 180 then gv - 360
    else if Rltb gv (-180) then gv + 360
    else gv
  else gv.

(** Lines 340-355: blackout and caution zones, and the return code. *)
Definition check_zones (raise_in_warning_zone : bool)
    (result : GeoMagResult.t) : Z * GeoMagResult.t :=
  if Rltb (GeoMagResult.h result) BLACKOUT_ZONE then
    let result := set_in_blackout_zone result true in
    if raise_in_warning_zone then ((-2)%Z, result) else (0%Z, result)
  else if Rltb (GeoMagResult.h result) CAUTION_ZONE then
    let result := set_in_caution_zone result true in
    if raise_in_warning_zone then ((-3)%Z, result) else (0%Z, result)
  else (0%Z, result).

(** Lines 196-306: the field vector in geodetic coordinates, and the
    model as the main loop leaves it. *)
Definition field_vector (stack : working_arrays) (g : GeoMag.t)
    (glat glon alt dt : R) : GeoMag.t * (R * R * R) :=
  let re := WGS84_RE in
  let rlon := DEG2RAD glon in
  let srlon := sin rlon in
  let crlon := cos rlon in
  let w := mk_working (tc stack) (dp stack)
             (upd (sp stack) 1 srlon) (upd (cp stack) 1 crlon)
             (pp stack) in
  let sph := geodetic_to_spherical glat alt in
  let ct := sph_ct sph in
  let st := sph_st sph in
  let r := sph_r sph in
  let ca := sph_ca sph in
  let sa := sph_sa sph in
  let w := iter_from (Z.to_nat (GeoMag.maxord g - 1)) 2 lon_body w in
  let aor := re / r in
  let ar := aor * aor in
  let s := iter_from (Z.to_nat (GeoMag.maxord g)) 1
             (synth_degree st ct dt aor)
             (mk_synth g w ar 0 0 0 0) in
  let br := ss_br s in
  let bt := ss_bt s in
  let bp := if Reqb st 0 then ss_bpp s else ss_bp s / st in
  (* rotate from spherical to geodetic coordinates *)
  let bx := - bt * ca - br * sa in
  let by_ := bp in
  let bz := bt * sa - br * ca in
  (ss_gm s, (bx, by_, bz)).

(** Lines 308-338: declination, inclination, total intensity, grid
    variation, then X, Y, Z and H from these. *)
Definition derive_result (glat glon bx by_ bz : R)
    (result : GeoMagResult.t) : GeoMagResult.t :=
  let bh := sqrt (bx * bx + by_ * by_) in
  let result := set_f result (sqrt (bh * bh + bz * bz)) in
  let result := set_d result (RAD2DEG (atan2 by_ bx)) in
  let result := set_i result (RAD2DEG (atan2 bz bh)) in
  let result :=
    set_gv result (grid_variation glat glon (GeoMagResult.d result)) in
  let result :=
    set_x result (GeoMagResult.f result
                  * cos (DEG2RAD (GeoMagResult.d result))
                  * cos (DEG2RAD (GeoMagResult.i result))) in
  let result :=
    set_y result (GeoMagResult.f result
                  * cos (DEG2RAD (GeoMagResult.i result))
                  * sin (DEG2RAD (GeoMagResult.d result))) in
  let result :=
    set_z result (GeoMagResult.f result
                  * sin (DEG2RAD (GeoMagResult.i result))) in
  set_h result (GeoMagResult.f result
                * cos (DEG2RAD (GeoMagResult.i result))).

(** Lines 196-355: what the function does once the date is accepted. *)
Definition synthesize (stack : working_arrays) (g : GeoMag.t)
    (glat glon alt dt : R) (raise_in_warning_zone : bool)
    (result : GeoMagResult.t) : Z * GeoMag.t * GeoMagResult.t :=
  let '(g, (bx, by_, bz)) := field_vector stack g glat glon alt dt in
  let result := derive_result glat glon bx by_ bz result in
  let '(rc, result) := check_zones raise_in_warning_zone result in
  (rc, g, result).

(** [stack] is what the working arrays hold on entry. *)
Definition geomag_calculate (stack : working_arrays)
    (geo_mag : option GeoMag.t) (glat glon alt time : R)
    (allow_date_outside_lifespan raise_in_warning_zone : bool)
    (result : option GeoMagResult.t)
    : Z * option GeoMag.t * option GeoMagResult.t :=
  match geo_mag, result with
  | Some g, Some res =>
      let res := init_result g glat glon alt time res in
      let stack := init_working stack in
      (* check date range *)
      let dt := time - GeoMag.epoch g in
      if (negb allow_date_outside_lifespan && outside_lifespan dt)%bool
      then ((-1)%Z, Some g, Some res)
      else
        let '(rc, g, res) :=
          synthesize stack g glat glon alt dt raise_in_warning_zone res in
        (rc, Some g, Some res)
  | _, _ => ((-1)%Z, geo_mag, result)
  end.

(** ** [geomag_calculate_uncertainty]

    For [h = 0] the quotients of lines 373, 382, 392 and 401 are
    infinite in C and so is the uncertainty of the declination; the
    member [d] below is that of the code for [h <> 0] only. *)

Definition geomag_calculate_uncertainty (result : option GeoMagResult.t)
    (uncertainty : option GeoMagUncertainty.t)
    : Z * option GeoMagUncertainty.t :=
  match result, uncertainty with
  | Some res, Some _ =>
      let time := GeoMagResult.time res in
      let h := GeoMagResult.h res in
      if (Rgeb time WMM_MODEL_2025_LOWER
          && Rleb time WMM_MODEL_2025_UPPER)%bool then
        if GeoMagResult.is_high_resolution res then
          (0%Z, Some (GeoMagUncertainty.mk 135 85 134 130 134 (19 / 100)
                        (sqrt (25 / 100 * (25 / 100)
                               + (5205 / h) * (5205 / h)))))
        else
          (0%Z, Some (GeoMagUncertainty.mk 137 89 141 133 138 (20 / 100)
                        (sqrt (26 / 100 * (26 / 100)
                               + (5417 / h) * (5417 / h)))))
      else if (Rgeb time WMM_MODEL_2020_LOWER
               && Rleb time WMM_MODEL_2020_UPPER)%bool then
        (0%Z, Some (GeoMagUncertainty.mk 131 94 157 128 148 (21 / 100)
                      (sqrt (26 / 100 * (26 / 100)
                             + (5625 / h) * (5625 / h)))))
      else if (Rgeb time WMM_MODEL_2015_LOWER
               && Rltb time WMM_MODEL_2015_UPPER)%bool then
        (0%Z, Some (GeoMagUncertainty.mk 138 89 165 133 152 (22 / 100)
                      (sqrt (23 / 100 * (23 / 100)
                             + (5430 / h) * (5430 / h)))))
      else ((-1)%Z, uncertainty)
  | _, _ => ((-1)%Z, uncertainty)
  end.

(** ** The vocabulary of the properties *)

(** The three epoch windows of lines 364, 384 and 393. *)
Definition in_epoch_window (time : R) : Prop :=
  (WMM_MODEL_2025_LOWER <= time <= WMM_MODEL_2025_UPPER)
  \/ (WMM_MODEL_2020_LOWER <= time <= WMM_MODEL_2020_UPPER)
  \/ (WMM_MODEL_2015_LOWER <= time < WMM_MODEL_2015_UPPER).

(** The date check of line 191 lets the call through. *)
Definition date_accepted (g : GeoMag.t) (time : R) (allow : bool) : Prop :=
  allow = true \/ 0 <= time - GeoMag.epoch g <= 5.

(** Everything in the model but the table [p]. *)
Definition same_but_p (g g' : GeoMag.t) : Prop :=
  GeoMag.maxord g' = GeoMag.maxord g
  /\ GeoMag.size g' = GeoMag.size g
  /\ GeoMag.epoch g' = GeoMag.epoch g
  /\ GeoMag.model g' = GeoMag.model g
  /\ GeoMag.release_date g' = GeoMag.release_date g
  /\ GeoMag.c g' = GeoMag.c g
  /\ GeoMag.cd g' = GeoMag.cd g
  /\ GeoMag.k g' = GeoMag.k g
  /\ GeoMag.fn g' = GeoMag.fn g
  /\ GeoMag.fm g' = GeoMag.fm g.

(** A record the reading loop stores before it scans the next one: it is
    not the end marker, its order does not exceed [maxord], and its
    indices pass the validation of line 71. *)
Definition ingested (g : GeoMag.t) (r : cof_record) : Prop :=
  rec_n r <> 9999%Z
  /\ (rec_m r <= GeoMag.maxord g)%Z
  /\ (0 <= rec_m r <= rec_n r)%Z
  /\ (rec_n r < GeoMag.size g)%Z
  /\ (rec_m r < GeoMag.size g)%Z.

(** The return code of the load is decided by the reading loop. *)
Definition read_code (o : read_outcome) : Z :=
  match o with ReadDone _ => 0%Z | ReadCorrupt _ => (-1)%Z end.

(** Two records that agree except, when their order is 0, in the two
    columns [h] and [hDot]. *)
Definition same_but_h_at_order_0 (r r' : cof_record) : Prop :=
  rec_n r' = rec_n r
  /\ rec_m r' = rec_m r
  /\ rec_gnm r' = rec_gnm r
  /\ rec_dgnm r' = rec_dgnm r
  /\ (rec_m r <> 0%Z ->
      rec_hnm r' = rec_hnm r /\ rec_dhnm r' = rec_dhnm r).

(** The coefficient stored at [i][j] and its secular variation are
    both zero. *)
Definition zero_at (i j : Z) (g : GeoMag.t) : Prop :=
  GeoMag.c g i j = 0 /\ GeoMag.cd g i j = 0.

(** A model whose only coefficient is that of degree 1 and order 0. *)
Definition axial (g : GeoMag.t) : Prop :=
  forall i j : Z, i <> 0%Z \/ j <> 1%Z -> zero_at i j g.

(** The state of the main loop over an axial model [g] once the turn of
    degree 1 and order 0 is done: the model is [g] up to [p], and the
    sums hold the term of that turn. *)
Definition axial_sums (g : GeoMag.t) (st ct dt ar : R) (s : synth_state)
    : Prop :=
  same_but_p g (ss_gm s)
  /\ ss_br s
     = GeoMag.fn g 1%Z
       * (GeoMag.c g 0%Z 1%Z + dt * GeoMag.cd g 0%Z 1%Z)
       * (ar * (ct * GeoMag.p g 0%Z))
  /\ ss_bt s
     = ar * (GeoMag.c g 0%Z 1%Z + dt * GeoMag.cd g 0%Z 1%Z)
       * (st * GeoMag.p g 0%Z)
  /\ ss_bp s = 0
  /\ ss_bpp s = 0.

(** ** Concrete inputs *)

Definition result_at (time h : R) (high_resolution : bool)
    : GeoMagResult.t :=
  GeoMagResult.mk time 0 0 0 0 0 0 h 0 0 0 0 false false high_resolution.

Definition no_uncertainty : GeoMagUncertainty.t :=
  GeoMagUncertainty.mk 0 0 0 0 0 0 0.

(** A caller's structure before [geomag_init]. *)
Definition no_model : GeoMag.t :=
  GeoMag.mk 0 0 0 "" "" zeros2 zeros2 zeros2
    (fun _ => 0) (fun _ => 0) (fun _ => 0).

(** The same with the order and size [geomag_init] sets for the
    standard model. *)
Definition standard_blank : GeoMag.t :=
  GeoMag.set_size (GeoMag.set_maxord no_model WMM_SIZE_STANDARD)
    (WMM_SIZE_STANDARD + 1).

Definition wmm_header : option (R * string * string) :=
  Some (2025, "WMM-2025"%string, "11/13/2024"%string).

(** The first line of coefficients of WMM-2025, degree 1 and order 0. *)
Definition record_1_0 : cof_record :=
  mk_record 1 0 (-293518 / 10) 0 12 0.

(** The same line with something in the two columns of [h]. *)
Definition record_1_0_h : cof_record :=
  mk_record 1 0 (-293518 / 10) 7 12 9.

Definition end_marker : cof_record := mk_record 9999 0 0 0 0 0.

(** Order 20 in degree 5: the order exceeds the degree, and also the
    order 12 of the standard model. *)
Definition record_5_20 : cof_record := mk_record 5 20 1 1 0 0.

(** Order 5 in degree 3. *)
Definition record_3_5 : cof_record := mk_record 3 5 1 1 0 0.

(** A coefficient file with the header of WMM-2025, its first line of
    coefficients and the end marker: an axial dipole. *)
Definition dipole_file : cof_file :=
  mk_file wmm_header [record_1_0; end_marker].

(** The model when the reading loop has stored the one record. *)
Definition dipole_read : GeoMag.t :=
  store_record
    (clear_tables
       (GeoMag.set_header standard_blank 2025 "WMM-2025" "11/13/2024"))
    record_1_0.

(** The model a standard load of that file leaves in the structure. *)
Definition dipole_model : GeoMag.t :=
  snd (load_coefficients (fun _ => 0) standard_blank (Some dipole_file)).

(** What the stack holds where the working arrays are placed, and a
    result structure that holds something from an earlier use. *)
Definition no_working : working_arrays :=
  mk_working zeros2 zeros2 (fun _ => 0) (fun _ => 0) (fun _ => 0).

Definition no_result : GeoMagResult.t :=
  GeoMagResult.mk 0 0 0 0 0 0 0 0 0 0 0 0 true true true.

(** ** The factors of the normalisation, in closed form

    What lines 95-122 compute, written as functions of the degree and
    the order; the properties of the load refer to them. *)

(** The recursion factor stored in [k[m][n]] (line 104). *)
Definition recursion_factor (n m : Z) : R :=
  IZR ((n - 1) * (n - 1) - m * m) / IZR ((2 * n - 1) * (2 * n - 3)).

(** The factor of degree [n] and order 0: the product of
    [(2 i - 1) / i] for [i] from 1 to [n] (line 96). *)
Fixpoint schmidt_zonal (n : nat) : R :=
  match n with
  | O => 1
  | S n' =>
      schmidt_zonal n' * IZR (2 * Z.of_nat n - 1) / IZR (Z.of_nat n)
  end.

(** The factor of degree [n] and order [m]: that of order [m - 1] times
    [sqrt ((n - m + 1) * j / (n + m))], with [j = 2] at order 1 and
    [j = 1] above (lines 107-109). *)
Fixpoint schmidt (n m : nat) : R :=
  match m with
  | O => schmidt_zonal n
  | S m' =>
      schmidt n m'
      * sqrt (IZR ((Z.of_nat n - Z.of_nat m + 1)
                   * (if Nat.eqb m 1 then 2 else 1))
              / IZR (Z.of_nat n + Z.of_nat m))
  end.

(** The same on the integers of the program. *)
Definition schmidtZ (n m : Z) : R := schmidt (Z.to_nat n) (Z.to_nat m).

(** The degree and the order of the coefficient stored at [i][j] of [c]
    and [cd]: a cosine coefficient of order [m] and degree [n] sits at
    [m][n], on or above the diagonal, a sine coefficient at [n][m - 1],
    below it. *)
Definition entry_degree (i j : Z) : Z := Z.max i j.
Definition entry_order (i j : Z) : Z := if (i <=? j)%Z then i else (j + 1)%Z.

(** The turn of degree [d] and order [o] comes before the turn of degree
    [n0] and order [m0]. *)
Definition turn_before (n0 m0 d o : Z) : bool :=
  ((d <? n0)%Z || ((d =? n0)%Z && (o <? m0)%Z))%bool.

(** The table [c0] with the entries of the turns before [n0], [m0]
    multiplied by their factor. *)
Definition scaled_before (n0 m0 : Z) (c0 : array2) : array2 :=
  fun i j =>
    if ((0 <=? i)%Z && (0 <=? j)%Z && (1 <=? entry_degree i j)%Z
        && turn_before n0 m0 (entry_degree i j) (entry_order i j))%bool
    then schmidtZ (entry_degree i j) (entry_order i j) * c0 i j
    else c0 i j.

(** The table [k0] with the entries of the turns before [n0], [m0]
    holding their recursion factor. *)
Definition factors_before (n0 m0 : Z) (k0 : array2) : array2 :=
  fun i j =>
    if ((0 <=? i)%Z && (i <=? j)%Z && (1 <=? j)%Z
        && turn_before n0 m0 j i)%bool
    then recursion_factor j i
    else k0 i j.

(** The tables [fn] and [fm] with the entries of the degrees from 1 to
    [n0 - 1] written. *)
Definition counted_before (n0 : Z) (shift : Z) (f0 : array1) : array1 :=
  fun i =>
    if ((1 <=? i)%Z && (i <? n0)%Z)%bool then IZR (i + shift) else f0 i.

(** The scalar members of two models agree. *)
Definition same_scalars (g g' : GeoMag.t) : Prop :=
  GeoMag.maxord g' = GeoMag.maxord g
  /\ GeoMag.size g' = GeoMag.size g
  /\ GeoMag.epoch g' = GeoMag.epoch g
  /\ GeoMag.model g' = GeoMag.model g
  /\ GeoMag.release_date g' = GeoMag.release_date g.

(** The state of the normalisation before the turn of degree [n0] and
    order [m0], for the model [g0] the loops started from. *)
Definition norm_tables (g0 : GeoMag.t) (n0 m0 : Z) (s : norm_state)
    : Prop :=
  same_scalars g0 (ns_gm s)
  /\ (forall i, GeoMag.fn (ns_gm s) i
                = counted_before n0 1 (GeoMag.fn g0) i)
  /\ (forall i, GeoMag.fm (ns_gm s) i
                = counted_before n0 0 (GeoMag.fm g0) i)
  /\ (forall i j, GeoMag.k (ns_gm s) i j
                  = factors_before n0 m0 (GeoMag.k g0) i j)
  /\ (forall i j, GeoMag.c (ns_gm s) i j
                  = scaled_before n0 m0 (GeoMag.c g0) i j)
  /\ (forall i j, GeoMag.cd (ns_gm s) i j
                  = scaled_before n0 m0 (GeoMag.cd g0) i j)
  /\ (forall d o, (0 <= o <= d)%Z ->
                  (d < n0 \/ (d = n0 /\ o < m0))%Z ->
                  ns_snorm s (d + o * GeoMag.size g0)%Z = schmidtZ d o).

(** The same inside the loop over the orders of degree [n0]: the factor
    of order 0 is in [snorm[n0]], and [j] is 2 until the turn of order 1
    is done. *)
Definition norm_orders_tables (g0 : GeoMag.t) (n0 m0 : Z) (s : norm_state)
    : Prop :=
  norm_tables g0 n0 m0 s
  /\ ns_snorm s n0 = schmidtZ n0 0
  /\ ns_j s = (if (m0 <=? 1)%Z then 2 else 1)%Z.

(** ** The vocabulary of the load *)

(** The order [geomag_init] gives the model (lines 138-142). *)
Definition init_order (high_resolution : bool) : Z :=
  if high_resolution then WMM_SIZE_HIGH_RESOLUTION else WMM_SIZE_STANDARD.

(** The caller's structure when [load_coefficients] is entered, and when
    the reading loop is entered after the header [(e, name, date)]. *)
Definition sized (g : GeoMag.t) (high_resolution : bool) : GeoMag.t :=
  GeoMag.set_size (GeoMag.set_maxord g (init_order high_resolution))
    (init_order high_resolution + 1).

Definition before_reading (g : GeoMag.t) (high_resolution : bool)
    (e : R) (name date : string) : GeoMag.t :=
  clear_tables (GeoMag.set_header (sized g high_resolution) e name date).

(** Degree and order of a record. *)
Definition record_key (r : cof_record) : Z * Z := (rec_n r, rec_m r).

(** What follows the stored records: the end of the stream, or a record
    on which the reading loop takes one of its [break]s. *)
Definition stops_reading (g : GeoMag.t) (tail : list cof_record) : Prop :=
  match tail with
  | [] => True
  | r :: _ => rec_n r = 9999%Z \/ (GeoMag.maxord g < rec_m r)%Z
  end.

(** ** The vocabulary of two runs of the main loop *)

(** The turn of degree [d] and order [o] is done when the turn of degree
    [n0] and order [m0] starts; degree 0 stands for the entries the loop
    starts from, [p[0]] and [dp[0][0]]. *)
Definition done_before (n0 m0 d o : Z) : Prop :=
  (0 <= o <= d)%Z /\ (d < n0 \/ (d = n0 /\ o < m0))%Z.

(** Two runs hold the same Legendre functions and derivatives for the
    turns that are done. *)
Definition legendre_agree (sz n0 m0 : Z) (pA pB : array1)
    (dpA dpB : array2) : Prop :=
  forall d o : Z,
    done_before n0 m0 d o ->
    pA (d + o * sz)%Z = pB (d + o * sz)%Z /\ dpA o d = dpB o d.

(** Two models that the main loop cannot tell apart at the time offsets
    [dtA] and [dtB]: the same order and size, the same tables [k], [fn]
    and [fm], the same [p[0]], and the same time-adjusted
    coefficients. *)
Definition same_field_model (gA gB : GeoMag.t) (dtA dtB : R) : Prop :=
  GeoMag.maxord gB = GeoMag.maxord gA
  /\ GeoMag.size gB = GeoMag.size gA
  /\ (forall i j, GeoMag.k gB i j = GeoMag.k gA i j)
  /\ (forall i, GeoMag.fn gB i = GeoMag.fn gA i)
  /\ (forall i, GeoMag.fm gB i = GeoMag.fm gA i)
  /\ GeoMag.p gB 0%Z = GeoMag.p gA 0%Z
  /\ (forall i j,
        GeoMag.c gB i j + dtB * GeoMag.cd gB i j
        = GeoMag.c gA i j + dtA * GeoMag.cd gA i j).

(** Two states of the main loop, over such models, that agree on what
    the turns to come read. *)
Definition synth_agree (gA gB : GeoMag.t) (st : R) (n0 m0 : Z)
    (sA sB : synth_state) : Prop :=
  same_but_p gA (ss_gm sA)
  /\ same_but_p gB (ss_gm sB)
  /\ ss_ar sB = ss_ar sA
  /\ ss_br sB = ss_br sA
  /\ ss_bt sB = ss_bt sA
  /\ ss_bp sB = ss_bp sA
  /\ ss_bpp sB = ss_bpp sA
  /\ (forall i, (0 <= i <= GeoMag.maxord gA)%Z ->
                sp (ss_w sB) i = sp (ss_w sA) i
                /\ cp (ss_w sB) i = cp (ss_w sA) i)
  /\ legendre_agree (GeoMag.size gA) n0 m0
       (GeoMag.p (ss_gm sA)) (GeoMag.p (ss_gm sB))
       (dp (ss_w sA)) (dp (ss_w sB))
  /\ (Reqb st 0 = true ->
      forall a, (0 <= a)%Z -> (a < n0 \/ (a = n0 /\ 1 < m0))%Z ->
                pp (ss_w sB) a = pp (ss_w sA) a).

(** Working arrays that hold something else than zeros on entry. *)
Definition stale_working : working_arrays :=
  mk_working (fun _ _ => 7) (fun _ _ => -3) (fun _ => 5) (fun _ => 2)
    (fun _ => 11).

(** The model [g] moved to the epoch [e]: the coefficients are advanced
    by [e - epoch] years of their secular variation. *)
Definition moved_to_epoch (g : GeoMag.t) (e : R) : GeoMag.t :=
  GeoMag.set_c
    (GeoMag.set_header g e (GeoMag.model g) (GeoMag.release_date g))
    (fun i j => GeoMag.c g i j + (e - GeoMag.epoch g) * GeoMag.cd g i j).

(** ** [geomag_free]

    Lines 410-414 of [geomag.c]: nothing is allocated, the structure is
    left as it is. *)
Definition geomag_free (geo_mag : option GeoMag.t) : option GeoMag.t :=
  geo_mag.

(** ** The benchmark ([benchmark/benchmark.c])

    [run_benchmark], lines 27-91, without the clock and the printing.
    The rows of [test_data] are latitude, longitude, altitude and
    time. *)
Definition test_data : list (R * R * R * R) :=
  [ (476205 / 10000, -1223493 / 10000, 0, 202525 / 100);
    (407128 / 10000, -740060 / 10000, 1 / 10, 20255 / 10);
    (340522 / 10000, -1182437 / 10000, 5 / 100, 202575 / 100);
    (257617 / 10000, -801918 / 10000, 0, 2026);
    (418781 / 10000, -876298 / 10000, 2 / 10, 20253 / 10);
    (515074 / 10000, -1278 / 10000, 0, 20254 / 10);
    (356762 / 10000, 1396503 / 10000, 0, 20256 / 10);
    (-338688 / 10000, 1512093 / 10000, 0, 20258 / 10);
    (0, 0, 0, 20255 / 10);
    (90, 0, 0, 20255 / 10) ].

Definition num_test_locations : Z := Z.of_nat (List.length test_data).

(** How [run_benchmark] ends: after the last record, or on the error
    message of line 73 with the record and the return code. *)
Inductive bench_outcome :=
| BenchDone
| BenchError (i ret : Z).

(** Lines 59-76; [stacks i] is what the stack holds where the working
    arrays of call [i] are placed. *)
Fixpoint benchmark_loop (turns : nat) (i : Z)
    (stacks : Z -> working_arrays) (geo_mag : option GeoMag.t)
    (result : option GeoMagResult.t)
    : bench_outcome * option GeoMag.t :=
  match turns with
  | O => (BenchDone, geo_mag)
  | Datatypes.S turns' =>
      let idx := Z.rem i num_test_locations in
      let '(lat, lon, alt, time) :=
        nth (Z.to_nat idx) test_data (0, 0, 0, 0) in
      let '(ret, geo_mag, result) :=
        geomag_calculate (stacks i) geo_mag lat lon alt time true false
          result in
      if (negb (ret =? 0)%Z && negb (ret =? -2)%Z
          && negb (ret =? -3)%Z)%bool
      then (BenchError i ret, geo_mag)
      else benchmark_loop turns' (i + 1)%Z stacks geo_mag result
  end.

Definition run_benchmark (stacks : Z -> working_arrays)
    (result : GeoMagResult.t) (geo_mag : option GeoMag.t)
    (num_records : Z) : bench_outcome * option GeoMag.t :=
  benchmark_loop (Z.to_nat num_records) 0 stacks geo_mag (Some result).

(** ** The test suite ([test/test_geomag.c])

    The three counters of lines 16-18; the printing is left out, and
    the counters stay far from the range of [int]. *)
Record counters := mk_counters {
  test_count : Z; test_passed : Z; test_failed : Z
}.

Definition count_test (t : counters) : counters :=
  mk_counters (test_count t + 1) (test_passed t) (test_failed t).
Definition count_passed (t : counters) : counters :=
  mk_counters (test_count t) (test_passed t + 1) (test_failed t).
Definition count_failed (t : counters) : counters :=
  mk_counters (test_count t) (test_passed t) (test_failed t + 1).

(** Lines 21-31. *)
Definition assert_near (expected actual tolerance : R) (t : counters)
    : counters :=
  let t := count_test t in
  if Rleb (Rabs (expected - actual)) tolerance
  then count_passed t else count_failed t.

(** Test 7, lines 240-275.  [geo_mag] and [result] are what the two
    local structures hold on entry, [wmm_cof] what [fopen] finds at
    [data/WMM.COF]. *)
Definition test_boundary_conditions (snorm0 : array1)
    (stack1 stack2 : working_arrays) (geo_mag : GeoMag.t)
    (result : GeoMagResult.t) (wmm_cof : option cof_file) (t : counters)
    : counters :=
  let '(rc, geo_mag) :=
    geomag_init snorm0 (Some geo_mag) (Some wmm_cof) false in
  if negb (rc =? 0)%Z then count_failed t
  else
    (* date outside lifespan (should fail) *)
    let '(ret, geo_mag, result) :=
      geomag_calculate stack1 geo_mag 0 0 0 2031 false false
        (Some result) in
    let t := if negb (ret =? 0)%Z then count_passed t
             else count_failed t in
    let t := count_test t in
    (* date outside lifespan with override (should succeed) *)
    let '(ret, geo_mag, result) :=
      geomag_calculate stack2 geo_mag 0 0 0 2031 true false result in
    let t := if (ret =? 0)%Z then count_passed t else count_failed t in
    let t := count_test t in
    let _ := geomag_free geo_mag in
    t.

(** Test 5, lines 154-200: the check of lines 188-197 on the
    uncertainty of the Space Needle in 2025.25. *)
Definition test_uncertainty (snorm0 : array1) (stack : working_arrays)
    (geo_mag : GeoMag.t) (result : GeoMagResult.t)
    (uncertainty : GeoMagUncertainty.t) (wmm_cof : option cof_file)
    (t : counters) : counters :=
  let '(rc, geo_mag) :=
    geomag_init snorm0 (Some geo_mag) (Some wmm_cof) false in
  if negb (rc =? 0)%Z then count_failed t
  else
    let '(ret, geo_mag, result) :=
      geomag_calculate stack geo_mag (476205 / 10000) (-1223493 / 10000)
        0 (202525 / 100) false false (Some result) in
    if negb (ret =? 0)%Z then
      let _ := geomag_free geo_mag in count_failed t
    else
      let '(ret, uncertainty) :=
        geomag_calculate_uncertainty result (Some uncertainty) in
      if negb (ret =? 0)%Z then
        let _ := geomag_free geo_mag in count_failed t
      else
        match uncertainty with
        | Some u =>
            let t :=
              if (Rgtb (GeoMagUncertainty.x u) 0
                  && Rltb (GeoMagUncertainty.x u) 200
                  && Rgtb (GeoMagUncertainty.y u) 0
                  && Rltb (GeoMagUncertainty.y u) 200
                  && Rgtb (GeoMagUncertainty.d u) 0
                  && Rltb (GeoMagUncertainty.d u) 1)%bool
              then count_passed t else count_failed t in
            let t := count_test t in
            let _ := geomag_free geo_mag in
            t
        | None => t
        end.

(** A coefficient file with the header of WMM-2025 and the end marker
    alone, and the model loaded from it. *)
Definition header_only_file : cof_file :=
  mk_file wmm_header [end_marker].

Definition blank_model : GeoMag.t :=
  snd (load_coefficients (fun _ => 0) standard_blank
         (Some header_only_file)).

(** Test 6, lines 203-237; [wmmhr_cof] is what [fopen] finds at
    [data/WMMHR.COF]. *)
Definition test_high_resolution (snorm0 : array1) (stack : working_arrays)
    (geo_mag : GeoMag.t) (result : GeoMagResult.t)
    (wmmhr_cof : option cof_file) (t : counters) : counters :=
  let '(rc, geo_mag) :=
    geomag_init snorm0 (Some geo_mag) (Some wmmhr_cof) true in
  if negb (rc =? 0)%Z then t
  else
    let '(ret, geo_mag, result) :=
      geomag_calculate stack geo_mag (476205 / 10000) (-1223493 / 10000)
        0 2025 false false (Some result) in
    if negb (ret =? 0)%Z then
      let _ := geomag_free geo_mag in count_failed t
    else
      match result with
      | Some r =>
          let t := assert_near (15017316 / 1000000) (GeoMagResult.d r)
                     (1 / 100) t in
          let t := if GeoMagResult.is_high_resolution r
                   then count_passed t else count_failed t in
          let t := count_test t in
          let _ := geomag_free geo_mag in
          t
      | None => t
      end.

(** * Properties *)

(** ** Comparisons *)

Lemma Rltb_true (x y : R) : Rltb x y = true <-> x < y.
Proof. unfold Rltb; destruct (Rlt_dec x y); split; congruence || tauto. Qed.

Lemma Rltb_false (x y : R) : Rltb x y = false <-> y <= x.
Proof.
  unfold Rltb; destruct (Rlt_dec x y); split; intros; try congruence; lra.
Qed.

Lemma Rleb_true (x y : R) : Rleb x y = true <-> x <= y.
Proof. unfold Rleb; destruct (Rle_dec x y); split; congruence || tauto. Qed.

Lemma Rleb_false (x y : R) : Rleb x y = false <-> y < x.
Proof.
  unfold Rleb; destruct (Rle_dec x y); split; intros; try congruence; lra.
Qed.

(** Decide every comparison of doubles in sight, keeping the facts. *)
Ltac decide_comparisons :=
  unfold Rgtb, Rgeb in *;
  repeat match goal with
  | |- context [Rltb ?a ?b] =>
      let E := fresh "E" in
      destruct (Rltb a b) eqn:E;
      [apply Rltb_true in E | apply Rltb_false in E]
  | |- context [Rleb ?a ?b] =>
      let E := fresh "E" in
      destruct (Rleb a b) eqn:E;
      [apply Rleb_true in E | apply Rleb_false in E]
  end.

(** Turn the recorded outcomes of comparisons into inequalities. *)
Ltac comparison_facts :=
  repeat match goal with
  | H : Rltb _ _ = true |- _ => apply Rltb_true in H
  | H : Rltb _ _ = false |- _ => apply Rltb_false in H
  | H : Rleb _ _ = true |- _ => apply Rleb_true in H
  | H : Rleb _ _ = false |- _ => apply Rleb_false in H
  end.

Lemma outside_lifespan_true (dt : R) :
  outside_lifespan dt = true <-> dt < 0 \/ dt > 5.
Proof.
  unfold outside_lifespan; decide_comparisons; simpl;
    split; intros; try congruence; lra.
Qed.

Lemma outside_lifespan_false (dt : R) :
  outside_lifespan dt = false <-> 0 <= dt <= 5.
Proof.
  unfold outside_lifespan; decide_comparisons; simpl;
    split; intros; try congruence; lra.
Qed.

(** ** Array lookups *)

Lemma upd2_same (a : array2) (i j : Z) (v : R) : upd2 a i j v i j = v.
Proof. unfold upd2; rewrite !Z.eqb_refl; reflexivity. Qed.

Lemma upd2_other (a : array2) (i j : Z) (v : R) (i' j' : Z) :
  i' <> i \/ j' <> j -> upd2 a i j v i' j' = a i' j'.
Proof.
  intros H; unfold upd2.
  destruct (Z.eqb_spec i' i); destruct (Z.eqb_spec j' j);
    cbn [andb]; try reflexivity.
  exfalso; destruct H; congruence.
Qed.

(** Scaling an entry keeps the entries that are zero at zero. *)
Lemma upd2_scale_zero (a : array2) (i0 j0 : Z) (x : R) (i j : Z) :
  a i j = 0 -> upd2 a i0 j0 (x * a i0 j0) i j = 0.
Proof.
  intros H; unfold upd2.
  destruct (Z.eqb_spec i i0); destruct (Z.eqb_spec j j0);
    cbn [andb]; try exact H.
  subst; rewrite H; ring.
Qed.

(** ** Loops *)

Lemma iter_from_S {S : Type} (body : Z -> S -> S) (turns : nat) (i : Z)
    (s : S) :
  iter_from (Datatypes.S turns) i body s
  = iter_from turns (i + 1) body (body i s).
Proof. reflexivity. Qed.

(** An invariant of the body is an invariant of the loop. *)
Lemma iter_from_inv {S : Type} (P : S -> Prop) (body : Z -> S -> S) :
  (forall i s, P s -> P (body i s)) ->
  forall turns i s, P s -> P (iter_from turns i body s).
Proof.
  intros Hbody turns; induction turns as [|turns IH]; intros i s Hs.
  - exact Hs.
  - simpl; apply IH, Hbody, Hs.
Qed.

(** The same when the invariant only holds for the indices the loop
    visits, [lo], [lo + 1], ... *)
Lemma iter_from_inv_above {S : Type} (lo : Z) (P : S -> Prop)
    (body : Z -> S -> S) :
  (forall i s, (lo <= i)%Z -> P s -> P (body i s)) ->
  forall turns i s, (lo <= i)%Z -> P s -> P (iter_from turns i body s).
Proof.
  intros Hbody turns; induction turns as [|turns IH]; intros i s Hi Hs.
  - exact Hs.
  - simpl; apply IH; [lia | apply Hbody; assumption].
Qed.

(** ** Angles *)

Lemma DEG2RAD_RAD2DEG (a : R) : DEG2RAD (RAD2DEG a) = a.
Proof.
  unfold DEG2RAD, RAD2DEG; field; apply PI_neq0.
Qed.

Lemma atan2_range (y x : R) : - PI < atan2 y x <= PI.
Proof.
  pose proof PI_RGT_0 as Hpi.
  pose proof (atan_bound (y / x)) as [Hlo Hhi].
  unfold atan2.
  destruct (Rlt_dec 0 x) as [Hx|Hx]; [lra|].
  destruct (Rlt_dec x 0) as [Hx'|Hx'].
  - destruct (Rle_dec 0 y) as [Hy|Hy].
    + assert (y / x <= 0).
      { unfold Rdiv.
        assert (/ x < 0) by (apply Rinv_lt_0_compat; exact Hx').
        nra. }
      assert (atan (y / x) <= 0).
      { destruct (Req_dec (y / x) 0) as [E|E].
        - rewrite E, atan_0; lra.
        - left; rewrite <- atan_0; apply atan_increasing; lra. }
      lra.
    + assert (0 < y / x).
      { unfold Rdiv.
        assert (/ x < 0) by (apply Rinv_lt_0_compat; exact Hx').
        nra. }
      assert (0 < atan (y / x))
        by (rewrite <- atan_0; apply atan_increasing; assumption).
      lra.
  - destruct (Rlt_dec 0 y); [lra|].
    destruct (Rlt_dec y 0); lra.
Qed.

(** Towards a point of the right half-plane the angle has a cosine that
    is not negative. *)
Lemma cos_atan2_nonneg (y x : R) : 0 <= x -> 0 <= cos (atan2 y x).
Proof.
  intros Hx; unfold atan2.
  destruct (Rlt_dec 0 x) as [Hx'|Hx'].
  - left; apply cos_gt_0; pose proof (atan_bound (y / x)); lra.
  - destruct (Rlt_dec x 0); [lra|].
    destruct (Rlt_dec 0 y); [rewrite cos_PI2; lra|].
    destruct (Rlt_dec y 0); [rewrite cos_neg, cos_PI2; lra|].
    rewrite cos_0; lra.
Qed.

Lemma RAD2DEG_atan2_range (y x : R) :
  -180 < RAD2DEG (atan2 y x) <= 180.
Proof.
  pose proof PI_RGT_0 as Hpi.
  pose proof (atan2_range y x) as [Hlo Hhi].
  set (q := atan2 y x / PI).
  assert (Ha : atan2 y x = q * PI) by (unfold q; field; lra).
  assert (Hd : RAD2DEG (atan2 y x) = q * 180)
    by (unfold RAD2DEG, q; field; lra).
  rewrite Hd; rewrite Ha in Hlo, Hhi.
  split; nra.
Qed.

Lemma atan2_east (x : R) : 0 < x -> atan2 0 x = 0.
Proof.
  intros Hx; unfold atan2.
  destruct (Rlt_dec 0 x) as [_|H]; [|contradiction].
  unfold Rdiv; rewrite Rmult_0_l; apply atan_0.
Qed.

(** ** Reading the coefficient records *)

Lemma store_record_bounds (g : GeoMag.t) (r : cof_record) :
  GeoMag.maxord (store_record g r) = GeoMag.maxord g
  /\ GeoMag.size (store_record g r) = GeoMag.size g.
Proof.
  unfold store_record.
  destruct (rec_m r <=? rec_n r)%Z; [|split; reflexivity].
  destruct (negb (rec_m r =? 0)%Z); split; reflexivity.
Qed.

Lemma ingested_store (g : GeoMag.t) (r r' : cof_record) :
  ingested (store_record g r) r' <-> ingested g r'.
Proof.
  unfold ingested.
  destruct (store_record_bounds g r) as [-> ->]; tauto.
Qed.

Lemma corrupt_record_true (g : GeoMag.t) (r : cof_record) :
  corrupt_record g r = true <->
  (rec_n r < rec_m r \/ rec_m r < 0 \/ GeoMag.size g <= rec_n r
   \/ GeoMag.size g <= rec_m r)%Z.
Proof.
  unfold corrupt_record.
  rewrite !orb_true_iff, !Z.ltb_lt, !Z.leb_le; tauto.
Qed.

Lemma read_records_ingested (g : GeoMag.t) (r : cof_record)
    (rest : list cof_record) :
  ingested g r ->
  read_records g (r :: rest) = read_records (store_record g r) rest.
Proof.
  intros (Hn & Hm & Hmn & Hns & Hms); cbn [read_records].
  destruct (rec_n r =? 9999)%Z eqn:E1; [apply Z.eqb_eq in E1; lia|].
  destruct (GeoMag.maxord g <? rec_m r)%Z eqn:E2;
    [apply Z.ltb_lt in E2; lia|].
  destruct (corrupt_record g r) eqn:E3;
    [apply corrupt_record_true in E3; lia | reflexivity].
Qed.

(** A record on which the loop takes one of its [break]s is where the
    reading ends, as if the stream ended before it. *)
Lemma read_records_break (r : cof_record) (rest pre : list cof_record) :
  forall g : GeoMag.t,
    rec_n r = 9999%Z \/ (GeoMag.maxord g < rec_m r)%Z ->
    read_records g (pre ++ r :: rest) = read_records g pre.
Proof.
  induction pre as [|r0 pre IH]; intros g Hr.
  - cbn [app read_records].
    destruct (rec_n r =? 9999)%Z eqn:E1; [reflexivity|].
    destruct (GeoMag.maxord g <? rec_m r)%Z eqn:E2; [reflexivity|].
    apply Z.eqb_neq in E1; apply Z.ltb_ge in E2; lia.
  - cbn [app read_records].
    destruct (rec_n r0 =? 9999)%Z; [reflexivity|].
    destruct (GeoMag.maxord g <? rec_m r0)%Z; [reflexivity|].
    destruct (corrupt_record g r0); [reflexivity|].
    apply IH.
    destruct (store_record_bounds g r0) as [-> _]; exact Hr.
Qed.

(** After records that are all stored the reading is at the end of the
    stream without an error. *)
Lemma read_records_all_ingested (pre : list cof_record) :
  forall g : GeoMag.t,
    Forall (ingested g) pre ->
    exists g', read_records g pre = ReadDone g'.
Proof.
  induction pre as [|r0 pre IH]; intros g Hall.
  - exists g; reflexivity.
  - inversion Hall as [|? ? H0 Hpre]; subst.
    rewrite (read_records_ingested g r0 pre H0).
    apply IH.
    eapply Forall_impl; [|exact Hpre].
    intros r'; apply ingested_store.
Qed.

(** A record that is reached, takes none of the [break]s and fails the
    validation aborts the reading. *)
Lemma read_records_corrupt (r : cof_record) (rest pre : list cof_record) :
  forall g : GeoMag.t,
    Forall (ingested g) pre ->
    rec_n r <> 9999%Z ->
    (rec_m r <= GeoMag.maxord g)%Z ->
    (rec_n r < rec_m r \/ rec_m r < 0 \/ GeoMag.size g <= rec_n r)%Z ->
    exists g', read_records g (pre ++ r :: rest) = ReadCorrupt g'.
Proof.
  induction pre as [|r0 pre IH]; intros g Hall Hn Hm Hbad.
  - exists g; cbn [app read_records].
    destruct (rec_n r =? 9999)%Z eqn:E1; [apply Z.eqb_eq in E1; lia|].
    destruct (GeoMag.maxord g <? rec_m r)%Z eqn:E2;
      [apply Z.ltb_lt in E2; lia|].
    destruct (corrupt_record g r) eqn:E3; [reflexivity|].
    assert (Hc : corrupt_record g r = true)
      by (apply corrupt_record_true; lia).
    congruence.
  - inversion Hall as [|? ? H0 Hpre]; subst.
    cbn [app]; rewrite (read_records_ingested g r0 _ H0).
    destruct (store_record_bounds g r0) as [Emax Esize].
    apply IH; rewrite ?Emax, ?Esize; try assumption.
    eapply Forall_impl; [|exact Hpre].
    intros r'; apply ingested_store.
Qed.

Lemma load_coefficients_code (snorm0 : array1) (g : GeoMag.t)
    (e : R) (name date : string) (rs : list cof_record) :
  fst (load_coefficients snorm0 g
         (Some (mk_file (Some (e, name, date)) rs)))
  = read_code
      (read_records (clear_tables (GeoMag.set_header g e name date)) rs).
Proof.
  unfold load_coefficients; cbn [header records].
  destruct (read_records _ rs); reflexivity.
Qed.

Lemma load_coefficients_read (snorm0 : array1) (g : GeoMag.t)
    (hdr : option (R * string * string)) (rs rs' : list cof_record) :
  (forall g', GeoMag.maxord g' = GeoMag.maxord g ->
              GeoMag.size g' = GeoMag.size g ->
              read_records g' rs = read_records g' rs') ->
  load_coefficients snorm0 g (Some (mk_file hdr rs))
  = load_coefficients snorm0 g (Some (mk_file hdr rs')).
Proof.
  intros H; unfold load_coefficients; cbn [header records].
  destruct hdr as [[[e name] date]|]; [|reflexivity].
  rewrite H; reflexivity.
Qed.

Lemma record_1_0_ingested : ingested standard_blank record_1_0.
Proof.
  unfold ingested, standard_blank, WMM_SIZE_STANDARD; simpl; lia.
Qed.

(** C5, as amended: the reading stops at the first record with
    n = 9999 and at a record whose order m exceeds maxord, in both cases
    as if the stream had ended before that record, whatever follows it,
    and without an error when the records before it were stored; a record
    that is reached with n <> 9999 and m <= maxord and has m > n, m < 0 or
    n >= size aborts the load with the error code. *)
Theorem C5_reading_stops :
  forall (snorm0 : array1) (g : GeoMag.t) (e : R) (name date : string)
         (pre : list cof_record) (r : cof_record) (rest : list cof_record),
    let load rs :=
      load_coefficients snorm0 g
        (Some (mk_file (Some (e, name, date)) rs)) in
    (rec_n r = 9999%Z -> load (pre ++ r :: rest) = load pre)
    /\ ((GeoMag.maxord g < rec_m r)%Z ->
        load (pre ++ r :: rest) = load pre)
    /\ (Forall (ingested g) pre ->
        rec_n r = 9999%Z \/ (GeoMag.maxord g < rec_m r)%Z ->
        fst (load (pre ++ r :: rest)) = 0%Z)
    /\ (Forall (ingested g) pre ->
        rec_n r <> 9999%Z ->
        (rec_m r <= GeoMag.maxord g)%Z ->
        (rec_n r < rec_m r \/ rec_m r < 0 \/ GeoMag.size g <= rec_n r)%Z ->
        fst (load (pre ++ r :: rest)) = (-1)%Z).
Proof.
  intros snorm0 g e name date pre r rest load; subst load; cbv beta.
  split; [|split; [|split]].
  - intros Hn; apply load_coefficients_read; intros g' _ _.
    apply read_records_break; left; exact Hn.
  - intros Hm; apply load_coefficients_read; intros g' Emax _.
    apply read_records_break; right; rewrite Emax; exact Hm.
  - intros Hall Hr; rewrite load_coefficients_code.
    rewrite read_records_break by exact Hr.
    destruct (read_records_all_ingested pre
                (clear_tables (GeoMag.set_header g e name date)) Hall)
      as [g' ->].
    reflexivity.
  - intros Hall Hn Hm Hbad; rewrite load_coefficients_code.
    destruct (read_records_corrupt r rest pre
                (clear_tables (GeoMag.set_header g e name date))
                Hall Hn Hm Hbad) as [g' ->].
    reflexivity.
Qed.

Lemma C5_reading_stops_witness :
  let load rs :=
    load_coefficients (fun _ => 0) standard_blank
      (Some (mk_file wmm_header rs)) in
  load ([record_1_0] ++ end_marker :: [record_3_5]) = load [record_1_0]
  /\ load ([record_1_0] ++ record_5_20 :: [record_3_5]) = load [record_1_0]
  /\ fst (load ([record_1_0] ++ end_marker :: [record_3_5])) = 0%Z
  /\ fst (load ([record_1_0] ++ record_3_5 :: [end_marker])) = (-1)%Z.
Proof.
  assert (Hall : Forall (ingested standard_blank) [record_1_0])
    by (constructor; [exact record_1_0_ingested | constructor]).
  cbv zeta; unfold wmm_header.
  destruct (C5_reading_stops (fun _ => 0) standard_blank 2025
              "WMM-2025" "11/13/2024" [record_1_0] end_marker [record_3_5])
    as (Hend & _ & Hok & _).
  destruct (C5_reading_stops (fun _ => 0) standard_blank 2025
              "WMM-2025" "11/13/2024" [record_1_0] record_5_20
              [record_3_5])
    as (_ & Hcut & _ & _).
  destruct (C5_reading_stops (fun _ => 0) standard_blank 2025
              "WMM-2025" "11/13/2024" [record_1_0] record_3_5 [end_marker])
    as (_ & _ & _ & Hbad).
  split; [|split; [|split]].
  - apply Hend; reflexivity.
  - apply Hcut; unfold standard_blank, WMM_SIZE_STANDARD; simpl; lia.
  - apply Hok; [exact Hall | left; reflexivity].
  - apply Hbad; [exact Hall | | |];
      unfold standard_blank, WMM_SIZE_STANDARD; simpl; lia.
Defined.

(** C5, as stated, fails: in a standard load the record of degree 5 and
    order 20 has m > n, and the load returns 0, not the error. *)
Lemma C5_order_above_degree_accepted :
  (rec_n record_5_20 < rec_m record_5_20)%Z
  /\ fst (geomag_init (fun _ => 0) (Some no_model)
            (Some (Some (mk_file wmm_header [record_5_20]))) false)
     = 0%Z.
Proof.
  split; [simpl; lia|].
  unfold geomag_init.
  fold standard_blank.
  change (fst (let '(rc, g) :=
                 load_coefficients (fun _ => 0) standard_blank
                   (Some (mk_file wmm_header [record_5_20])) in
               (rc, Some g)) = 0%Z).
  pose proof (load_coefficients_code (fun _ => 0) standard_blank 2025
                "WMM-2025" "11/13/2024" [record_5_20]) as Hc.
  fold wmm_header in Hc.
  destruct (load_coefficients _ _ _) as [rc g]; simpl in Hc |- *.
  exact Hc.
Qed.

(** ** The columns of [h] at order 0 *)

Lemma store_record_h_at_order_0 (g : GeoMag.t) (r r' : cof_record) :
  same_but_h_at_order_0 r r' -> store_record g r' = store_record g r.
Proof.
  intros (Hn & Hm & Hg & Hdg & Hh); unfold store_record.
  rewrite Hn, Hm, Hg, Hdg.
  destruct (rec_m r <=? rec_n r)%Z; [|reflexivity].
  destruct (rec_m r =? 0)%Z eqn:E; cbn [negb]; [reflexivity|].
  apply Z.eqb_neq in E; destruct (Hh E) as [-> ->]; reflexivity.
Qed.

Lemma read_records_h_at_order_0 (rs rs' : list cof_record) :
  Forall2 same_but_h_at_order_0 rs rs' ->
  forall g : GeoMag.t, read_records g rs' = read_records g rs.
Proof.
  induction 1 as [|r r' rs rs' Hr Hrs IH]; intros g; [reflexivity|].
  cbn [read_records].
  rewrite (store_record_h_at_order_0 g r r' Hr).
  destruct Hr as (Hn & Hm & _).
  unfold corrupt_record; rewrite Hn, Hm.
  destruct (rec_n r =? 9999)%Z; [reflexivity|].
  destruct (GeoMag.maxord g <? rec_m r)%Z; [reflexivity|].
  destruct (_ || _)%bool; [reflexivity | apply IH].
Qed.

(** C9: two files with the same header whose records agree one by one,
    except in the columns [h] and [hDot] of the records of order 0, load
    into identical models, with the same return code (the structure and
    the local array [snorm] holding the same contents on entry). *)
Theorem C9_h_ignored_at_order_0 :
  forall (snorm0 : array1) (geo_mag : GeoMag.t)
         (hdr : option (R * string * string))
         (rs rs' : list cof_record) (high_resolution : bool),
    Forall2 same_but_h_at_order_0 rs rs' ->
    geomag_init snorm0 (Some geo_mag) (Some (Some (mk_file hdr rs')))
      high_resolution
    = geomag_init snorm0 (Some geo_mag) (Some (Some (mk_file hdr rs)))
        high_resolution.
Proof.
  intros snorm0 geo_mag hdr rs rs' high_resolution Hrs.
  unfold geomag_init.
  erewrite load_coefficients_read; [reflexivity|].
  intros g' _ _; apply read_records_h_at_order_0, Hrs.
Qed.

Lemma C9_h_ignored_at_order_0_witness :
  geomag_init (fun _ => 0) (Some no_model)
    (Some (Some (mk_file wmm_header [record_1_0_h; end_marker]))) false
  = geomag_init (fun _ => 0) (Some no_model)
      (Some (Some (mk_file wmm_header [record_1_0; end_marker]))) false.
Proof.
  apply (C9_h_ignored_at_order_0 (fun _ => 0) no_model wmm_header
           [record_1_0; end_marker] [record_1_0_h; end_marker] false).
  constructor; [|constructor; [|constructor]].
  - unfold same_but_h_at_order_0; simpl.
    do 4 (split; [reflexivity|]).
    intros H; exfalso; apply H; reflexivity.
  - unfold same_but_h_at_order_0; simpl.
    do 4 (split; [reflexivity|]).
    intros _; split; reflexivity.
Defined.

(** ** Coefficients that are zero stay zero in the normalisation *)

Lemma norm_body_zero_at (i j n m : Z) (s : norm_state) :
  zero_at i j (ns_gm s) -> zero_at i j (ns_gm (norm_body n m s)).
Proof.
  intros [Hc Hcd]; unfold norm_body, zero_at.
  destruct s as [g snorm jj]; cbn [ns_gm ns_snorm ns_j] in *.
  destruct (0 <? m)%Z; cbn -[upd upd2];
    split; repeat (apply upd2_scale_zero); assumption.
Qed.

Lemma norm_degree_zero_at (i j n : Z) (s : norm_state) :
  zero_at i j (ns_gm s) -> zero_at i j (ns_gm (norm_degree n s)).
Proof.
  intros H; unfold norm_degree; cbn [ns_gm].
  change (zero_at i j
            (ns_gm (iter_from (Z.to_nat (Z.quot (n - 0 + 1) 1)) 0
                      (norm_body n)
                      (mk_norm (ns_gm s)
                         (upd (ns_snorm s) n
                            (ns_snorm s (n - 1)%Z * IZR (2 * n - 1)
                             / IZR n)) 2)))).
  apply (iter_from_inv (fun s => zero_at i j (ns_gm s))).
  - intros m s'; apply norm_body_zero_at.
  - exact H.
Qed.

Lemma normalize_zero_at (snorm0 : array1) (i j : Z) (g : GeoMag.t) :
  zero_at i j g -> zero_at i j (normalize snorm0 g).
Proof.
  intros H; unfold normalize.
  change (zero_at i j
            (ns_gm (iter_from (Z.to_nat (GeoMag.maxord g)) 1 norm_degree
                      (mk_norm (GeoMag.set_fm g (upd (GeoMag.fm g) 0 0))
                         (upd snorm0 0 1) 2)))).
  apply (iter_from_inv (fun s => zero_at i j (ns_gm s))).
  - intros n s'; apply norm_degree_zero_at.
  - exact H.
Qed.

(** ** The model loaded from the dipole file *)

Lemma geomag_init_dipole :
  geomag_init (fun _ => 0) (Some no_model) (Some (Some dipole_file)) false
  = (0%Z, Some dipole_model).
Proof.
  unfold geomag_init, dipole_model; fold standard_blank.
  pose proof (load_coefficients_code (fun _ => 0) standard_blank 2025
                "WMM-2025" "11/13/2024" [record_1_0; end_marker]) as Hc.
  fold wmm_header in Hc; fold dipole_file in Hc.
  destruct (load_coefficients _ _ _) as [rc g]; simpl in Hc |- *.
  rewrite Hc; reflexivity.
Qed.

Lemma dipole_model_shape :
  GeoMag.maxord dipole_model = 12%Z
  /\ GeoMag.size dipole_model = 13%Z
  /\ GeoMag.epoch dipole_model = 2025.
Proof. lazy -[IZR]; repeat split. Qed.

Lemma dipole_model_date (time : R) (allow : bool) :
  0 <= time - 2025 <= 5 -> date_accepted dipole_model time allow.
Proof.
  intros H; right.
  destruct dipole_model_shape as (_ & _ & ->); exact H.
Qed.

Lemma dipole_model_normalized :
  dipole_model = normalize (fun _ => 0) dipole_read.
Proof.
  unfold dipole_model, load_coefficients, dipole_file, wmm_header.
  cbn [header records].
  rewrite read_records_ingested.
  - reflexivity.
  - unfold ingested, clear_tables, standard_blank, WMM_SIZE_STANDARD;
      simpl; lia.
Qed.

(** Every coefficient of the dipole model but that of degree 1 and
    order 0 is zero, with its secular variation. *)
Lemma dipole_model_zero_at (i j : Z) :
  i <> 0%Z \/ j <> 1%Z -> zero_at i j dipole_model.
Proof.
  intros H; rewrite dipole_model_normalized.
  apply normalize_zero_at.
  unfold zero_at, dipole_read, store_record, clear_tables;
    cbn -[upd2 zeros2].
  split; rewrite upd2_other by exact H;
    unfold upd2, zeros2; destruct (_ && _)%bool; reflexivity.
Qed.

Lemma dipole_model_1_0 :
  GeoMag.c dipole_model 0%Z 1%Z = -293518 / 10
  /\ GeoMag.cd dipole_model 0%Z 1%Z = 12
  /\ GeoMag.fn dipole_model 1%Z = 2
  /\ GeoMag.p dipole_model 0%Z = 1.
Proof. lazy -[IZR Rdiv]; repeat split; field. Qed.

Lemma dipole_p_1 : GeoMag.p dipole_model 1%Z = 1.
Proof. lazy -[IZR Rdiv]; field. Qed.

(** ** The uncertainty tables *)

(** C2, as amended: with both pointers valid, the uncertainty lookup
    returns its error code exactly when the time of the result lies in
    none of the three epoch windows, and that is exactly when the time is
    earlier than 2015.0 or later than 2030.0.  *)
Theorem C2_uncertainty_fails_outside_2015_2030 :
  forall (res : GeoMagResult.t) (u : GeoMagUncertainty.t),
    let rc := fst (geomag_calculate_uncertainty (Some res) (Some u)) in
    let time := GeoMagResult.time res in
    (rc = (-1)%Z <-> ~ in_epoch_window time)
    /\ (rc = (-1)%Z <-> time < 2015 \/ 2030 < time).
Proof.
  intros res u; cbv zeta.
  unfold geomag_calculate_uncertainty, in_epoch_window,
    WMM_MODEL_2025_LOWER, WMM_MODEL_2025_UPPER, WMM_MODEL_2020_LOWER,
    WMM_MODEL_2020_UPPER, WMM_MODEL_2015_LOWER, WMM_MODEL_2015_UPPER.
  decide_comparisons; simpl;
    try destruct (GeoMagResult.is_high_resolution res); simpl;
    (split; split; intros; try discriminate; try lra; try reflexivity).
Qed.

(** C2, as stated, fails: a result dated 2031.0 is refused although its
    time does not predate 2015.0. *)
Lemma C2_fails_after_2030 :
  fst (geomag_calculate_uncertainty
         (Some (result_at 2031 30000 false)) (Some no_uncertainty))
    = (-1)%Z
  /\ ~ GeoMagResult.time (result_at 2031 30000 false) < 2015.
Proof.
  split.
  - unfold geomag_calculate_uncertainty, result_at,
      WMM_MODEL_2025_LOWER, WMM_MODEL_2025_UPPER, WMM_MODEL_2020_LOWER,
      WMM_MODEL_2020_UPPER, WMM_MODEL_2015_LOWER, WMM_MODEL_2015_UPPER.
    simpl GeoMagResult.time.
    decide_comparisons; simpl; try reflexivity; lra.
  - simpl; lra.
Qed.

(** C8: a result whose time lies in the 2025 window, 2025.0 to 2030.0
    inclusive, and whose high-resolution flag is false gets the constants
    137, 89, 141, 133, 138 and 0.20 for X, Y, Z, H, F and I, whatever its
    H, and, when its H is not 0, the declination uncertainty
    sqrt (0.26^2 + (5417 / H)^2). *)
Theorem C8_uncertainty_2025_standard :
  forall (res : GeoMagResult.t) (u : GeoMagUncertainty.t),
    2025 <= GeoMagResult.time res <= 2030 ->
    GeoMagResult.is_high_resolution res = false ->
    exists u' : GeoMagUncertainty.t,
      geomag_calculate_uncertainty (Some res) (Some u) = (0%Z, Some u')
      /\ GeoMagUncertainty.x u' = 137
      /\ GeoMagUncertainty.y u' = 89
      /\ GeoMagUncertainty.z u' = 141
      /\ GeoMagUncertainty.h u' = 133
      /\ GeoMagUncertainty.f u' = 138
      /\ GeoMagUncertainty.i u' = 20 / 100
      /\ (GeoMagResult.h res <> 0 ->
          GeoMagUncertainty.d u'
          = sqrt ((26 / 100) ^ 2 + (5417 / GeoMagResult.h res) ^ 2)).
Proof.
  intros res u Htime Hres.
  unfold geomag_calculate_uncertainty, WMM_MODEL_2025_LOWER,
    WMM_MODEL_2025_UPPER.
  rewrite Hres.
  replace (Rgeb (GeoMagResult.time res) 2025) with true
    by (symmetry; apply Rleb_true; lra).
  replace (Rleb (GeoMagResult.time res) 2030) with true
    by (symmetry; apply Rleb_true; lra).
  cbn [andb].
  eexists; split; [reflexivity|].
  cbn [GeoMagUncertainty.x GeoMagUncertainty.y GeoMagUncertainty.z
       GeoMagUncertainty.h GeoMagUncertainty.f GeoMagUncertainty.i
       GeoMagUncertainty.d].
  do 6 (split; [reflexivity|]).
  intros _; simpl; rewrite !Rmult_1_r; reflexivity.
Qed.

Lemma C8_uncertainty_2025_standard_witness :
  2025 <= GeoMagResult.time (result_at (8101 / 4) 18000 false) <= 2030
  /\ GeoMagResult.is_high_resolution (result_at (8101 / 4) 18000 false)
     = false
  /\ GeoMagResult.h (result_at (8101 / 4) 18000 false) <> 0
  /\ exists u' : GeoMagUncertainty.t,
       geomag_calculate_uncertainty
         (Some (result_at (8101 / 4) 18000 false)) (Some no_uncertainty)
       = (0%Z, Some u')
       /\ GeoMagUncertainty.x u' = 137
       /\ GeoMagUncertainty.y u' = 89
       /\ GeoMagUncertainty.z u' = 141
       /\ GeoMagUncertainty.h u' = 133
       /\ GeoMagUncertainty.f u' = 138
       /\ GeoMagUncertainty.i u' = 20 / 100
       /\ GeoMagUncertainty.d u'
          = sqrt ((26 / 100) ^ 2 + (5417 / 18000) ^ 2).
Proof.
  assert (Ht : 2025 <= GeoMagResult.time (result_at (8101 / 4) 18000 false)
               <= 2030) by (simpl; lra).
  assert (Hr : GeoMagResult.is_high_resolution
                 (result_at (8101 / 4) 18000 false) = false)
    by reflexivity.
  assert (Hh : GeoMagResult.h (result_at (8101 / 4) 18000 false) <> 0)
    by (simpl; lra).
  split; [exact Ht|]; split; [exact Hr|]; split; [exact Hh|].
  destruct (C8_uncertainty_2025_standard
              (result_at (8101 / 4) 18000 false) no_uncertainty Ht Hr)
    as (u' & E & Hx & Hy & Hz & Hhu & Hf & Hi & Hd).
  exists u'; repeat (split; [assumption|]).
  exact (Hd Hh).
Defined.

(** ** The shape of an evaluation *)

Lemma synthesize_eq (stack : working_arrays) (g : GeoMag.t)
    (glat glon alt dt : R) (raise : bool) (res : GeoMagResult.t) :
  exists bx by_ bz : R,
    field_vector stack g glat glon alt dt
    = (fst (field_vector stack g glat glon alt dt), (bx, by_, bz))
    /\ synthesize stack g glat glon alt dt raise res
       = (fst (check_zones raise (derive_result glat glon bx by_ bz res)),
          fst (field_vector stack g glat glon alt dt),
          snd (check_zones raise (derive_result glat glon bx by_ bz res))).
Proof.
  unfold synthesize.
  destruct (field_vector stack g glat glon alt dt) as [g' [[bx by_] bz]].
  exists bx, by_, bz; split; [reflexivity|].
  simpl; destruct (check_zones _ _); reflexivity.
Qed.

Lemma date_accepted_guard (g : GeoMag.t) (time : R) (allow : bool) :
  date_accepted g time allow <->
  (negb allow && outside_lifespan (time - GeoMag.epoch g))%bool = false.
Proof.
  unfold date_accepted; destruct allow; simpl.
  - split; auto.
  - rewrite outside_lifespan_false; split; [intros [H|H]|]; auto;
      discriminate.
Qed.

Lemma geomag_calculate_accepted (stack : working_arrays) (g : GeoMag.t)
    (glat glon alt time : R) (allow raise : bool) (res : GeoMagResult.t) :
  date_accepted g time allow ->
  exists bx by_ bz : R,
    snd (field_vector (init_working stack) g glat glon alt
           (time - GeoMag.epoch g)) = (bx, by_, bz)
    /\ geomag_calculate stack (Some g) glat glon alt time allow raise
         (Some res)
    = let res' := derive_result glat glon bx by_ bz
                    (init_result g glat glon alt time res) in
      (fst (check_zones raise res'),
       Some (fst (field_vector (init_working stack) g glat glon alt
                    (time - GeoMag.epoch g))),
       Some (snd (check_zones raise res'))).
Proof.
  intros Hd; apply date_accepted_guard in Hd.
  unfold geomag_calculate; rewrite Hd.
  destruct (synthesize_eq (init_working stack) g glat glon alt
              (time - GeoMag.epoch g) raise
              (init_result g glat glon alt time res))
    as (bx & by_ & bz & Ev & E).
  exists bx, by_, bz; split; [rewrite Ev; reflexivity|].
  rewrite E; reflexivity.
Qed.

Lemma geomag_calculate_rejected (stack : working_arrays) (g : GeoMag.t)
    (glat glon alt time : R) (raise : bool) (res : GeoMagResult.t) :
  time - GeoMag.epoch g < 0 \/ time - GeoMag.epoch g > 5 ->
  geomag_calculate stack (Some g) glat glon alt time false raise (Some res)
  = ((-1)%Z, Some g, Some (init_result g glat glon alt time res)).
Proof.
  intros Hd; apply outside_lifespan_true in Hd.
  unfold geomag_calculate; rewrite Hd; reflexivity.
Qed.

(** The zone check only writes the two flags. *)
Lemma check_zones_fields (raise : bool) (r : GeoMagResult.t) :
  let r' := snd (check_zones raise r) in
  GeoMagResult.x r' = GeoMagResult.x r
  /\ GeoMagResult.y r' = GeoMagResult.y r
  /\ GeoMagResult.z r' = GeoMagResult.z r
  /\ GeoMagResult.h r' = GeoMagResult.h r
  /\ GeoMagResult.f r' = GeoMagResult.f r
  /\ GeoMagResult.gv r' = GeoMagResult.gv r
  /\ GeoMagResult.d r' = GeoMagResult.d r
  /\ GeoMagResult.i r' = GeoMagResult.i r.
Proof.
  unfold check_zones.
  destruct (Rltb (GeoMagResult.h r) BLACKOUT_ZONE);
    [|destruct (Rltb (GeoMagResult.h r) CAUTION_ZONE)];
    destruct raise; simpl; auto 10.
Qed.

Lemma check_zones_rc (raise : bool) (r : GeoMagResult.t) :
  let rc := fst (check_zones raise r) in
  (rc = 0 \/ rc = -2 \/ rc = -3)%Z /\ (raise = false -> rc = 0%Z).
Proof.
  unfold check_zones.
  destruct (Rltb (GeoMagResult.h r) BLACKOUT_ZONE);
    [|destruct (Rltb (GeoMagResult.h r) CAUTION_ZONE)];
    destruct raise; simpl; intuition congruence.
Qed.

(** ** The date check *)

(** C3: with the override off, the call fails with the date error (code
    -1) exactly when dt = time - epoch is below 0 or above 5; with the
    override on it never returns that code, and when in addition warning
    zones are not raised it returns 0. *)
Theorem C3_date_check :
  forall (stack : working_arrays) (g : GeoMag.t) (glat glon alt time : R)
         (raise : bool) (res : GeoMagResult.t),
    let dt := time - GeoMag.epoch g in
    let rc allow raise :=
      fst (fst (geomag_calculate stack (Some g) glat glon alt time
                  allow raise (Some res))) in
    (rc false raise = (-1)%Z <-> dt < 0 \/ dt > 5)
    /\ rc true raise <> (-1)%Z
    /\ rc true false = 0%Z.
Proof.
  intros stack g glat glon alt time raise res dt rc; subst dt rc.
  assert (Hacc : forall allow raise',
             date_accepted g time allow ->
             let rc := fst (fst (geomag_calculate stack (Some g) glat glon
                                   alt time allow raise' (Some res))) in
             rc <> (-1)%Z /\ (raise' = false -> rc = 0%Z)).
  { intros allow raise' Hd.
    destruct (geomag_calculate_accepted stack g glat glon alt time allow
                raise' res Hd) as (bx & by_ & bz & _ & E).
    rewrite E; cbv zeta; simpl fst.
    destruct (check_zones_rc raise'
                (derive_result glat glon bx by_ bz
                   (init_result g glat glon alt time res))) as [H1 H2].
    split; [lia | exact H2]. }
  split; [|split].
  - split.
    + intros Hrc.
      destruct (Rlt_dec (time - GeoMag.epoch g) 0) as [|Hlo]; [lra|].
      destruct (Rlt_dec 5 (time - GeoMag.epoch g)) as [|Hhi]; [lra|].
      exfalso.
      apply (Hacc false raise); [right; lra | exact Hrc].
    + intros Hd; rewrite (geomag_calculate_rejected _ _ _ _ _ _ _ _ Hd).
      reflexivity.
  - apply (Hacc true raise); left; reflexivity.
  - apply (Hacc true false); [left|]; reflexivity.
Qed.

(** C10: when the date is refused, the call returns -1 and the result
    already holds the echoed time, altitude, latitude and longitude,
    both zone flags cleared and the high-resolution flag of the model;
    its other members are as they were. *)
Theorem C10_result_written_before_date_check :
  forall (stack : working_arrays) (g : GeoMag.t) (glat glon alt time : R)
         (raise : bool) (res : GeoMagResult.t),
    time - GeoMag.epoch g < 0 \/ time - GeoMag.epoch g > 5 ->
    geomag_calculate stack (Some g) glat glon alt time false raise
      (Some res)
    = ((-1)%Z, Some g,
       Some (GeoMagResult.mk time alt glat glon
               (GeoMagResult.x res) (GeoMagResult.y res)
               (GeoMagResult.z res) (GeoMagResult.h res)
               (GeoMagResult.f res) (GeoMagResult.i res)
               (GeoMagResult.d res) (GeoMagResult.gv res)
               false false
               (GeoMag.maxord g =? WMM_SIZE_HIGH_RESOLUTION)%Z)).
Proof.
  intros stack g glat glon alt time raise res Hd.
  rewrite (geomag_calculate_rejected stack g glat glon alt time raise res
             Hd).
  reflexivity.
Qed.

Lemma C10_result_written_before_date_check_witness :
  geomag_calculate no_working (Some dipole_model) 0 0 0 2031 false false
    (Some no_result)
  = ((-1)%Z, Some dipole_model,
     Some (GeoMagResult.mk 2031 0 0 0
             (GeoMagResult.x no_result) (GeoMagResult.y no_result)
             (GeoMagResult.z no_result) (GeoMagResult.h no_result)
             (GeoMagResult.f no_result) (GeoMagResult.i no_result)
             (GeoMagResult.d no_result) (GeoMagResult.gv no_result)
             false false
             (GeoMag.maxord dipole_model =? WMM_SIZE_HIGH_RESOLUTION)%Z)).
Proof.
  apply (C10_result_written_before_date_check no_working dipole_model
           0 0 0 2031 false no_result).
  right; destruct dipole_model_shape as (_ & _ & ->); lra.
Defined.

(** ** Zones *)

(** What the zone check does to a result whose flags are clear. *)
Lemma check_zones_spec (raise : bool) (r : GeoMagResult.t) :
  GeoMagResult.in_blackout_zone r = false ->
  GeoMagResult.in_caution_zone r = false ->
  let rc := fst (check_zones raise r) in
  let res' := snd (check_zones raise r) in
  (GeoMagResult.h res' < 2000 ->
          GeoMagResult.in_blackout_zone res' = true
          /\ GeoMagResult.in_caution_zone res' = false
          /\ rc = if raise then (-2)%Z else 0%Z)
      /\ (2000 <= GeoMagResult.h res' < 6000 ->
          GeoMagResult.in_blackout_zone res' = false
          /\ GeoMagResult.in_caution_zone res' = true
          /\ rc = if raise then (-3)%Z else 0%Z)
      /\ (6000 <= GeoMagResult.h res' ->
          GeoMagResult.in_blackout_zone res' = false
          /\ GeoMagResult.in_caution_zone res' = false
          /\ rc = 0%Z).
Proof.
  intros Hb Hc.
  unfold check_zones, BLACKOUT_ZONE, CAUTION_ZONE.
  decide_comparisons; destruct raise; simpl;
    repeat split; intros; try lra; auto.
Qed.

(** C4: on every call that passes the date check the zone follows the
    computed H of the result.  H < 2000 sets the blackout flag and, when
    warning zones are raised, the return code is -2; 2000 <= H < 6000 sets
    the caution flag and the raised code is -3; otherwise no flag is set
    and the code is 0.  Without raising, the code is 0 and the flags
    report the zone. *)
Theorem C4_zone_classification :
  forall (stack : working_arrays) (g : GeoMag.t) (glat glon alt time : R)
         (allow raise : bool) (res : GeoMagResult.t),
    date_accepted g time allow ->
    exists (rc : Z) (g' : GeoMag.t) (res' : GeoMagResult.t),
      geomag_calculate stack (Some g) glat glon alt time allow raise
        (Some res) = (rc, Some g', Some res')
      /\ (GeoMagResult.h res' < 2000 ->
          GeoMagResult.in_blackout_zone res' = true
          /\ GeoMagResult.in_caution_zone res' = false
          /\ rc = if raise then (-2)%Z else 0%Z)
      /\ (2000 <= GeoMagResult.h res' < 6000 ->
          GeoMagResult.in_blackout_zone res' = false
          /\ GeoMagResult.in_caution_zone res' = true
          /\ rc = if raise then (-3)%Z else 0%Z)
      /\ (6000 <= GeoMagResult.h res' ->
          GeoMagResult.in_blackout_zone res' = false
          /\ GeoMagResult.in_caution_zone res' = false
          /\ rc = 0%Z).
Proof.
  intros stack g glat glon alt time allow raise res Hd.
  destruct (geomag_calculate_accepted stack g glat glon alt time allow
              raise res Hd) as (bx & by_ & bz & _ & E).
  eexists _, _, _; split; [exact E|].
  apply check_zones_spec; reflexivity.
Qed.

Lemma C4_zone_classification_witness :
  exists (rc : Z) (g' : GeoMag.t) (res' : GeoMagResult.t),
    geomag_calculate no_working (Some dipole_model)
      (476205 / 10000) (-1223493 / 10000) 0 (8101 / 4) false true
      (Some no_result) = (rc, Some g', Some res')
    /\ (GeoMagResult.h res' < 2000 ->
        GeoMagResult.in_blackout_zone res' = true
        /\ GeoMagResult.in_caution_zone res' = false
        /\ rc = if true then (-2)%Z else 0%Z)
    /\ (2000 <= GeoMagResult.h res' < 6000 ->
        GeoMagResult.in_blackout_zone res' = false
        /\ GeoMagResult.in_caution_zone res' = true
        /\ rc = if true then (-3)%Z else 0%Z)
    /\ (6000 <= GeoMagResult.h res' ->
        GeoMagResult.in_blackout_zone res' = false
        /\ GeoMagResult.in_caution_zone res' = false
        /\ rc = 0%Z).
Proof.
  apply (C4_zone_classification no_working dipole_model
           (476205 / 10000) (-1223493 / 10000) 0 (8101 / 4) false true
           no_result).
  apply dipole_model_date; lra.
Defined.

(** ** What an evaluation writes in the model *)

Lemma same_but_p_refl (g : GeoMag.t) : same_but_p g g.
Proof. repeat split. Qed.

Lemma same_but_p_trans (g1 g2 g3 : GeoMag.t) :
  same_but_p g1 g2 -> same_but_p g2 g3 -> same_but_p g1 g3.
Proof.
  unfold same_but_p; intros H12 H23.
  decompose [and] H12; decompose [and] H23; repeat split; congruence.
Qed.

Lemma legendre_step_frame (st ct : R) (n m : Z) (g : GeoMag.t)
    (dp : array2) :
  same_but_p g (fst (legendre_step st ct n m g dp)).
Proof.
  unfold legendre_step.
  destruct (n =? m)%Z; [repeat split|].
  destruct ((n =? 1)%Z && (m =? 0)%Z)%bool; [repeat split|].
  destruct (1 <? n)%Z; cbn [andb negb]; [|apply same_but_p_refl].
  destruct (n - 2 <? m)%Z; repeat split.
Qed.

Lemma synth_body_gm (st ct dt : R) (n m : Z) (s : synth_state) :
  ss_gm (synth_body st ct dt n m s)
  = fst (legendre_step st ct n m (ss_gm s) (dp (ss_w s))).
Proof.
  unfold synth_body.
  destruct (legendre_step st ct n m (ss_gm s) (dp (ss_w s))) as [g dp'].
  cbv zeta.
  destruct (m =? 0)%Z; reflexivity.
Qed.

Lemma synth_body_frame (st ct dt : R) (g0 : GeoMag.t) (n m : Z)
    (s : synth_state) :
  same_but_p g0 (ss_gm s) ->
  same_but_p g0 (ss_gm (synth_body st ct dt n m s)).
Proof.
  intros H; rewrite synth_body_gm.
  eapply same_but_p_trans; [exact H | apply legendre_step_frame].
Qed.

Lemma synth_degree_frame (st ct dt aor : R) (g0 : GeoMag.t) (n : Z)
    (s : synth_state) :
  same_but_p g0 (ss_gm s) ->
  same_but_p g0 (ss_gm (synth_degree st ct dt aor n s)).
Proof.
  intros H; unfold synth_degree.
  apply (iter_from_inv (fun s => same_but_p g0 (ss_gm s))).
  - intros m s'; apply synth_body_frame.
  - exact H.
Qed.

Lemma field_vector_frame (stack : working_arrays) (g : GeoMag.t)
    (glat glon alt dt : R) :
  same_but_p g (fst (field_vector stack g glat glon alt dt)).
Proof.
  unfold field_vector; cbv zeta; cbn [fst].
  apply (iter_from_inv (fun s => same_but_p g (ss_gm s))).
  - intros n s; apply synth_degree_frame.
  - apply same_but_p_refl.
Qed.

(** C1, as amended: a call of [geomag_calculate] returns the model with
    every member but the table [p] as it was: the order and size, the
    epoch and the two strings, the coefficients [c] and [cd], the
    recursion factors [k] and the tables [fn] and [fm] are not written. *)
Theorem C1_calculate_writes_only_p :
  forall (stack : working_arrays) (g : GeoMag.t) (glat glon alt time : R)
         (allow raise : bool) (res : GeoMagResult.t),
  exists (rc : Z) (g' : GeoMag.t) (res' : GeoMagResult.t),
    geomag_calculate stack (Some g) glat glon alt time allow raise
      (Some res) = (rc, Some g', Some res')
    /\ same_but_p g g'.
Proof.
  intros stack g glat glon alt time allow raise res.
  unfold geomag_calculate.
  destruct (negb allow && outside_lifespan (time - GeoMag.epoch g))%bool.
  - eexists _, _, _; split; [reflexivity | apply same_but_p_refl].
  - destruct (synthesize_eq (init_working stack) g glat glon alt
                (time - GeoMag.epoch g) raise
                (init_result g glat glon alt time res))
      as (bx & by_ & bz & _ & E).
    rewrite E.
    eexists _, _, _; split; [reflexivity | apply field_vector_frame].
Qed.

Lemma equator_ct (alt : R) : sph_ct (geodetic_to_spherical 0 alt) = 0.
Proof.
  unfold geodetic_to_spherical, DEG2RAD; cbn [sph_ct].
  replace (0 * PI / 180) with 0 by (unfold Rdiv; ring).
  rewrite sin_0; unfold Rdiv; ring.
Qed.

(** The entry of index 1 of [p], degree 1 and order 0, after the main
    loop over the dipole model: the cosine of the colatitude. *)
Lemma dipole_p_1_after (stack : working_arrays) (glat glon alt dt : R) :
  GeoMag.p (fst (field_vector (init_working stack) dipole_model
                   glat glon alt dt)) 1%Z
  = sph_ct (geodetic_to_spherical glat alt) * 1.
Proof.
  lazy -[IZR Rdiv geodetic_to_spherical sph_ct sph_st sin cos sqrt PI
         Reqb].
  reflexivity.
Qed.

(** C1, as stated, fails: the standard model loaded from the dipole file
    has 1 at index 1 of [p]; a call on the equator at the epoch succeeds
    and returns the model with 0 there. *)
Lemma C1_p_overwritten :
  geomag_init (fun _ => 0) (Some no_model) (Some (Some dipole_file)) false
  = (0%Z, Some dipole_model)
  /\ exists (g' : GeoMag.t) (res' : GeoMagResult.t),
       geomag_calculate no_working (Some dipole_model) 0 0 0 2025
         false false (Some no_result) = (0%Z, Some g', Some res')
       /\ GeoMag.p dipole_model 1%Z = 1
       /\ GeoMag.p g' 1%Z = 0
       /\ g' <> dipole_model.
Proof.
  split; [exact geomag_init_dipole|].
  assert (Hd : date_accepted dipole_model 2025 false)
    by (apply dipole_model_date; lra).
  destruct (geomag_calculate_accepted no_working dipole_model 0 0 0 2025
              false false no_result Hd) as (bx & by_ & bz & _ & E).
  cbv zeta in E.
  destruct (check_zones_rc false
              (derive_result 0 0 bx by_ bz
                 (init_result dipole_model 0 0 0 2025 no_result)))
    as [_ Hrc].
  rewrite (Hrc eq_refl) in E.
  eexists _, _; split; [exact E|].
  assert (Hp : GeoMag.p
                 (fst (field_vector (init_working no_working) dipole_model
                         0 0 0 (2025 - GeoMag.epoch dipole_model))) 1%Z
               = 0).
  { rewrite dipole_p_1_after, equator_ct; ring. }
  split; [exact dipole_p_1|].
  split; [exact Hp|].
  intros Heq; rewrite Heq, dipole_p_1 in Hp; lra.
Qed.

(** ** The derived quantities *)

(** What lines 308-338 compute, member by member. *)
Lemma derive_result_members (glat glon bx by_ bz : R)
    (r : GeoMagResult.t) :
  let r' := derive_result glat glon bx by_ bz r in
  let F := sqrt (sqrt (bx * bx + by_ * by_) * sqrt (bx * bx + by_ * by_)
                 + bz * bz) in
  let D := RAD2DEG (atan2 by_ bx) in
  let I := RAD2DEG (atan2 bz (sqrt (bx * bx + by_ * by_))) in
  GeoMagResult.f r' = F
  /\ GeoMagResult.d r' = D
  /\ GeoMagResult.i r' = I
  /\ GeoMagResult.gv r' = grid_variation glat glon D
  /\ GeoMagResult.x r' = F * cos (DEG2RAD D) * cos (DEG2RAD I)
  /\ GeoMagResult.y r' = F * cos (DEG2RAD I) * sin (DEG2RAD D)
  /\ GeoMagResult.z r' = F * sin (DEG2RAD I)
  /\ GeoMagResult.h r' = F * cos (DEG2RAD I).
Proof. repeat split. Qed.

Lemma derive_result_consistent (glat glon bx by_ bz : R)
    (r : GeoMagResult.t) :
  let r' := derive_result glat glon bx by_ bz r in
  GeoMagResult.f r'
  = sqrt (GeoMagResult.x r' ^ 2 + GeoMagResult.y r' ^ 2
          + GeoMagResult.z r' ^ 2)
  /\ GeoMagResult.h r'
     = sqrt (GeoMagResult.x r' ^ 2 + GeoMagResult.y r' ^ 2).
Proof.
  cbv zeta.
  destruct (derive_result_members glat glon bx by_ bz r)
    as (Hf & Hd & Hi & _ & Hx & Hy & Hz & Hh).
  rewrite Hf, Hx, Hy, Hz, Hh.
  rewrite !DEG2RAD_RAD2DEG.
  set (bh := sqrt (bx * bx + by_ * by_)).
  set (F := sqrt (bh * bh + bz * bz)).
  set (D := atan2 by_ bx).
  set (I := atan2 bz bh).
  assert (HF : 0 <= F) by apply sqrt_pos.
  assert (HI : 0 <= cos I) by (apply cos_atan2_nonneg, sqrt_pos).
  pose proof (sin2_cos2 D) as HD2; unfold Rsqr in HD2.
  pose proof (sin2_cos2 I) as HI2; unfold Rsqr in HI2.
  split.
  - replace ((F * cos D * cos I) ^ 2 + (F * cos I * sin D) ^ 2
             + (F * sin I) ^ 2)
      with ((F * F) * ((sin D * sin D + cos D * cos D) * (cos I * cos I)
                       + sin I * sin I)) by ring.
    rewrite HD2, Rmult_1_l, (Rplus_comm (cos I * cos I)), HI2, Rmult_1_r.
    symmetry; apply sqrt_square; exact HF.
  - replace ((F * cos D * cos I) ^ 2 + (F * cos I * sin D) ^ 2)
      with ((F * cos I) * (F * cos I)
            * (sin D * sin D + cos D * cos D)) by ring.
    rewrite HD2, Rmult_1_r.
    symmetry; apply sqrt_square; apply Rmult_le_pos; assumption.
Qed.

(** C7: on every call that passes the date check the members of the
    result are consistent: X, Y, Z and H are the projections of F along
    D and I, so that F = sqrt (X^2 + Y^2 + Z^2) and H = sqrt (X^2 + Y^2),
    exactly in the real-number model of the arithmetic. *)
Theorem C7_components_consistent :
  forall (stack : working_arrays) (g : GeoMag.t) (glat glon alt time : R)
         (allow raise : bool) (res : GeoMagResult.t),
    date_accepted g time allow ->
    exists (rc : Z) (g' : GeoMag.t) (res' : GeoMagResult.t),
      geomag_calculate stack (Some g) glat glon alt time allow raise
        (Some res) = (rc, Some g', Some res')
      /\ GeoMagResult.x res'
         = GeoMagResult.f res' * cos (DEG2RAD (GeoMagResult.d res'))
           * cos (DEG2RAD (GeoMagResult.i res'))
      /\ GeoMagResult.y res'
         = GeoMagResult.f res' * cos (DEG2RAD (GeoMagResult.i res'))
           * sin (DEG2RAD (GeoMagResult.d res'))
      /\ GeoMagResult.z res'
         = GeoMagResult.f res' * sin (DEG2RAD (GeoMagResult.i res'))
      /\ GeoMagResult.h res'
         = GeoMagResult.f res' * cos (DEG2RAD (GeoMagResult.i res'))
      /\ GeoMagResult.f res'
         = sqrt (GeoMagResult.x res' ^ 2 + GeoMagResult.y res' ^ 2
                 + GeoMagResult.z res' ^ 2)
      /\ GeoMagResult.h res'
         = sqrt (GeoMagResult.x res' ^ 2 + GeoMagResult.y res' ^ 2).
Proof.
  intros stack g glat glon alt time allow raise res Hd.
  destruct (geomag_calculate_accepted stack g glat glon alt time allow
              raise res Hd) as (bx & by_ & bz & _ & E).
  cbv zeta in E.
  eexists _, _, _; split; [exact E|].
  destruct (derive_result_members glat glon bx by_ bz
              (init_result g glat glon alt time res))
    as (Mf & Md & Mi & _ & Mx & My & Mz & Mh).
  destruct (derive_result_consistent glat glon bx by_ bz
              (init_result g glat glon alt time res)) as [HF HH].
  remember (derive_result glat glon bx by_ bz
              (init_result g glat glon alt time res)) as r eqn:Er.
  clear Er E.
  destruct (check_zones_fields raise r)
    as (Hx & Hy & Hz & Hh & Hf & _ & Hd' & Hi').
  rewrite Hx, Hy, Hz, Hh, Hf, Hd', Hi'.
  split; [rewrite Mx, Mf, Md, Mi; reflexivity|].
  split; [rewrite My, Mf, Md, Mi; reflexivity|].
  split; [rewrite Mz, Mf, Mi; reflexivity|].
  split; [rewrite Mh, Mf, Mi; reflexivity|].
  split; [exact HF | exact HH].
Qed.

Lemma C7_components_consistent_witness :
  exists (rc : Z) (g' : GeoMag.t) (res' : GeoMagResult.t),
    geomag_calculate no_working (Some dipole_model)
      (476205 / 10000) (-1223493 / 10000) 0 (8101 / 4) false false
      (Some no_result) = (rc, Some g', Some res')
    /\ GeoMagResult.x res'
       = GeoMagResult.f res' * cos (DEG2RAD (GeoMagResult.d res'))
         * cos (DEG2RAD (GeoMagResult.i res'))
    /\ GeoMagResult.y res'
       = GeoMagResult.f res' * cos (DEG2RAD (GeoMagResult.i res'))
         * sin (DEG2RAD (GeoMagResult.d res'))
    /\ GeoMagResult.z res'
       = GeoMagResult.f res' * sin (DEG2RAD (GeoMagResult.i res'))
    /\ GeoMagResult.h res'
       = GeoMagResult.f res' * cos (DEG2RAD (GeoMagResult.i res'))
    /\ GeoMagResult.f res'
       = sqrt (GeoMagResult.x res' ^ 2 + GeoMagResult.y res' ^ 2
               + GeoMagResult.z res' ^ 2)
    /\ GeoMagResult.h res'
       = sqrt (GeoMagResult.x res' ^ 2 + GeoMagResult.y res' ^ 2).
Proof.
  apply (C7_components_consistent no_working dipole_model
           (476205 / 10000) (-1223493 / 10000) 0 (8101 / 4) false false
           no_result).
  apply dipole_model_date; lra.
Defined.

(** ** Grid variation *)

Lemma grid_variation_low_latitude (glat glon d : R) :
  Rabs glat < 55 -> grid_variation glat glon d = -999.
Proof.
  intros H; unfold grid_variation, Rgeb.
  destruct (Rleb 55 (Rabs glat)) eqn:E; [|reflexivity].
  apply Rleb_true in E; lra.
Qed.

Lemma grid_variation_high_latitude (glat glon d : R) :
  55 <= Rabs glat ->
  -180 <= d <= 180 ->
  -180 <= glon <= 180 ->
  -180 <= grid_variation glat glon d <= 180.
Proof.
  intros Hlat Hd Hlon; unfold grid_variation, Rgeb, Rgtb.
  destruct (Rleb 55 (Rabs glat)) eqn:E;
    [clear E | apply Rleb_false in E; lra].
  cbv zeta.
  match goal with
  | |- context [Rltb 180 ?g] => set (gv0 := g)
  end.
  assert (H0 : -360 <= gv0 <= 360).
  { subst gv0.
    assert (Hablon : 0 <= Rabs glon <= 180)
      by (unfold Rabs; destruct (Rcase_abs glon); lra).
    destruct (Rltb 0 glat) eqn:E1; destruct (Rleb 0 glon) eqn:E2;
      destruct (Rltb glon 0) eqn:E3; destruct (Rltb glat 0) eqn:E4;
      cbn [andb]; comparison_facts; try lra;
      (assert (glat = 0) by lra; subst glat;
       rewrite Rabs_R0 in Hlat; lra). }
  clearbody gv0.
  decide_comparisons; lra.
Qed.

(** C6, as amended: on every call that passes the date check, with the
    longitude in its range of -180 to 180 degrees, the grid variation is
    the sentinel -999.0 exactly when |latitude| < 55, and otherwise lies
    between -180 and 180, both bounds included. *)
Theorem C6_grid_variation_range :
  forall (stack : working_arrays) (g : GeoMag.t) (glat glon alt time : R)
         (allow raise : bool) (res : GeoMagResult.t),
    date_accepted g time allow ->
    -180 <= glon <= 180 ->
    exists (rc : Z) (g' : GeoMag.t) (res' : GeoMagResult.t),
      geomag_calculate stack (Some g) glat glon alt time allow raise
        (Some res) = (rc, Some g', Some res')
      /\ (GeoMagResult.gv res' <> -999 <-> 55 <= Rabs glat)
      /\ (55 <= Rabs glat -> -180 <= GeoMagResult.gv res' <= 180)
      /\ (Rabs glat < 55 -> GeoMagResult.gv res' = -999).
Proof.
  intros stack g glat glon alt time allow raise res Hd Hlon.
  destruct (geomag_calculate_accepted stack g glat glon alt time allow
              raise res Hd) as (bx & by_ & bz & _ & E).
  cbv zeta in E.
  eexists _, _, _; split; [exact E|].
  set (r := derive_result glat glon bx by_ bz
              (init_result g glat glon alt time res)).
  destruct (check_zones_fields raise r)
    as (_ & _ & _ & _ & _ & Hgv & _ & _).
  rewrite Hgv.
  assert (Hr : GeoMagResult.gv r
               = grid_variation glat glon (RAD2DEG (atan2 by_ bx)))
    by reflexivity.
  rewrite Hr; clear Hr Hgv.
  pose proof (RAD2DEG_atan2_range by_ bx) as HD.
  assert (Hhigh : 55 <= Rabs glat ->
                  -180 <= grid_variation glat glon
                            (RAD2DEG (atan2 by_ bx)) <= 180).
  { intros Hlat; apply grid_variation_high_latitude; lra. }
  split; [|split].
  - split.
    + intros Hne.
      destruct (Rle_dec 55 (Rabs glat)) as [|Hlow]; [assumption|].
      exfalso; apply Hne, grid_variation_low_latitude; lra.
    + intros Hlat; specialize (Hhigh Hlat); lra.
  - exact Hhigh.
  - apply grid_variation_low_latitude.
Qed.

Lemma C6_grid_variation_range_witness :
  exists (rc : Z) (g' : GeoMag.t) (res' : GeoMagResult.t),
    geomag_calculate no_working (Some dipole_model)
      (476205 / 10000) (-1223493 / 10000) 0 (8101 / 4) false false
      (Some no_result) = (rc, Some g', Some res')
    /\ (GeoMagResult.gv res' <> -999 <-> 55 <= Rabs (476205 / 10000))
    /\ (55 <= Rabs (476205 / 10000) ->
        -180 <= GeoMagResult.gv res' <= 180)
    /\ (Rabs (476205 / 10000) < 55 -> GeoMagResult.gv res' = -999).
Proof.
  apply (C6_grid_variation_range no_working dipole_model
           (476205 / 10000) (-1223493 / 10000) 0 (8101 / 4) false false
           no_result).
  - apply dipole_model_date; lra.
  - lra.
Defined.

(** ** The sums of the main loop over an axial model *)

(** A turn of the main loop whose two time-adjusted coefficients are
    zero leaves the four sums as they were. *)
Lemma synth_body_silent (st ct dt : R) (n m : Z) (s : synth_state) :
  GeoMag.c (ss_gm s) m n + dt * GeoMag.cd (ss_gm s) m n = 0 ->
  GeoMag.c (ss_gm s) n (m - 1)%Z + dt * GeoMag.cd (ss_gm s) n (m - 1)%Z
  = 0 ->
  let s' := synth_body st ct dt n m s in
  ss_br s' = ss_br s /\ ss_bt s' = ss_bt s
  /\ ss_bp s' = ss_bp s /\ ss_bpp s' = ss_bpp s.
Proof.
  intros H1 H2; unfold synth_body.
  pose proof (legendre_step_frame st ct n m (ss_gm s) (dp (ss_w s))) as F.
  destruct (legendre_step st ct n m (ss_gm s) (dp (ss_w s))) as [g dp'].
  cbn [fst] in F.
  destruct F as (_ & _ & _ & _ & _ & Hc & Hcd & _).
  cbv zeta; cbn [ss_br ss_bt ss_bp ss_bpp]; rewrite Hc, Hcd.
  rewrite H1, H2.
  destruct (m =? 0)%Z eqn:Em; cbn [negb].
  - cbn [ss_br ss_bt ss_bp ss_bpp]; rewrite !upd2_same.
    destruct (Reqb st 0 && (m =? 1)%Z)%bool; repeat split; ring.
  - apply Z.eqb_neq in Em.
    cbn [ss_br ss_bt ss_bp ss_bpp]; rewrite !upd2_same.
    rewrite (upd2_other _ n (m - 1) 0 m n) by lia.
    rewrite !upd2_same.
    destruct (Reqb st 0 && (m =? 1)%Z)%bool; repeat split; ring.
Qed.

Section AxialModel.

Variable g : GeoMag.t.
Hypothesis g_axial : axial g.
Variables st ct dt aor : R.

Lemma axial_sums_silent (ar : R) (n m : Z) (s : synth_state) :
  (2 <= n)%Z \/ (n = 1%Z /\ m = 1%Z) ->
  axial_sums g st ct dt ar s ->
  axial_sums g st ct dt ar (synth_body st ct dt n m s).
Proof.
  intros Hn (Hg & Hbr & Hbt & Hbp & Hbpp).
  pose proof Hg as (_ & _ & _ & _ & _ & Hc & Hcd & _).
  destruct (g_axial m n) as [Z1 Z1']; [lia|].
  destruct (g_axial n (m - 1)%Z) as [Z2 Z2']; [lia|].
  destruct (synth_body_silent st ct dt n m s) as (Ebr & Ebt & Ebp & Ebpp).
  - rewrite Hc, Hcd, Z1, Z1'; ring.
  - rewrite Hc, Hcd, Z2, Z2'; ring.
  - split; [apply synth_body_frame; exact Hg|].
    rewrite Ebr, Ebt, Ebp, Ebpp; auto.
Qed.

Lemma axial_sums_degree (ar : R) (n : Z) (s : synth_state) :
  (2 <= n)%Z ->
  axial_sums g st ct dt ar s ->
  axial_sums g st ct dt ar (synth_degree st ct dt aor n s).
Proof.
  intros Hn Hs; unfold synth_degree.
  apply (iter_from_inv (axial_sums g st ct dt ar)).
  - intros m s'; apply axial_sums_silent; left; exact Hn.
  - exact Hs.
Qed.

(** The turn of degree 1 and order 0. *)
Lemma axial_sums_1_0 (ar : R) (w : working_arrays) :
  cp w 0%Z = 1 ->
  sp w 0%Z = 0 ->
  dp w 0%Z 0%Z = 0 ->
  axial_sums g st ct dt ar
    (synth_body st ct dt 1 0 (mk_synth g w ar 0 0 0 0)).
Proof.
  intros Hcp Hsp Hdp.
  split; [apply synth_body_frame, same_but_p_refl|].
  destruct w as [tc0 dp0 sp0 cp0 pp0]; cbn [cp sp dp] in Hcp, Hsp, Hdp.
  clear g_axial.
  destruct g as [mo sz ep nm rd c0 cd0 k0 fn0 fm0 p0].
  lazy -[IZR Rdiv Rminus Reqb].
  rewrite Hcp, Hsp, Hdp.
  destruct (Reqb st 0); repeat split; ring.
Qed.

(** The turn of degree 1 and order 0, then that of order 1, which is
    silent. *)
Lemma axial_sums_degree_1 (ar : R) (w : working_arrays) :
  cp w 0%Z = 1 ->
  sp w 0%Z = 0 ->
  dp w 0%Z 0%Z = 0 ->
  axial_sums g st ct dt (ar * aor)
    (synth_degree st ct dt aor 1 (mk_synth g w ar 0 0 0 0)).
Proof.
  intros Hcp Hsp Hdp; unfold synth_degree.
  change (Z.to_nat (Z.quot (1 + 0 + 1) 1)) with 2%nat.
  cbn [ss_gm ss_w ss_ar ss_br ss_bt ss_bp ss_bpp].
  rewrite !iter_from_S; cbn [iter_from].
  apply axial_sums_silent; [right; lia|].
  apply axial_sums_1_0; assumption.
Qed.

(** The whole main loop, for any positive number of degrees. *)
Lemma axial_sums_loop (ar : R) (w : working_arrays) (turns : nat) :
  cp w 0%Z = 1 ->
  sp w 0%Z = 0 ->
  dp w 0%Z 0%Z = 0 ->
  axial_sums g st ct dt (ar * aor)
    (iter_from (Datatypes.S turns) 1 (synth_degree st ct dt aor)
       (mk_synth g w ar 0 0 0 0)).
Proof.
  intros Hcp Hsp Hdp.
  rewrite iter_from_S.
  apply (iter_from_inv_above 2 (axial_sums g st ct dt (ar * aor))).
  - intros n s Hn; apply axial_sums_degree; assumption.
  - lia.
  - apply axial_sums_degree_1; assumption.
Qed.

End AxialModel.

(** The loop over the multiples of the longitude does not write the
    entries of index 0. *)
Lemma lon_loop_index_0 (turns : nat) (w : working_arrays) :
  cp w 0%Z = 1 -> sp w 0%Z = 0 -> dp w 0%Z 0%Z = 0 ->
  let w' := iter_from turns 2 lon_body w in
  cp w' 0%Z = 1 /\ sp w' 0%Z = 0 /\ dp w' 0%Z 0%Z = 0.
Proof.
  intros Hcp Hsp Hdp.
  apply (iter_from_inv_above 2
           (fun w => cp w 0%Z = 1 /\ sp w 0%Z = 0 /\ dp w 0%Z 0%Z = 0));
    [|lia|auto].
  intros m w0 Hm (H1 & H2 & H3).
  unfold lon_body; cbn [cp sp dp]; unfold upd.
  destruct (Z.eqb_spec 0 m) as [E|_]; [lia|auto].
Qed.

(** The field vector over an axial model: one term in each sum. *)
Lemma axial_field_vector (stack : working_arrays) (g : GeoMag.t)
    (glat glon alt dt : R) :
  axial g ->
  (1 <= GeoMag.maxord g)%Z ->
  let sph := geodetic_to_spherical glat alt in
  let ar := WGS84_RE / sph_r sph * (WGS84_RE / sph_r sph)
            * (WGS84_RE / sph_r sph) in
  let tc10 := GeoMag.c g 0%Z 1%Z + dt * GeoMag.cd g 0%Z 1%Z in
  let br := GeoMag.fn g 1%Z * tc10 * (ar * (sph_ct sph * GeoMag.p g 0%Z)) in
  let bt := ar * tc10 * (sph_st sph * GeoMag.p g 0%Z) in
  snd (field_vector (init_working stack) g glat glon alt dt)
  = (- bt * sph_ca sph - br * sph_sa sph, 0,
     bt * sph_sa sph - br * sph_ca sph).
Proof.
  intros Hax Hmax; cbv zeta; unfold field_vector; cbv zeta; cbn [snd].
  destruct (Z.to_nat (GeoMag.maxord g)) as [|turns] eqn:Et; [lia|].
  match goal with
  | |- context [iter_from (S turns) 1 ?f (mk_synth g ?w ?ar 0 0 0 0)] =>
      destruct (lon_loop_index_0 (Z.to_nat (GeoMag.maxord g - 1))
                  (mk_working (tc (init_working stack))
                     (dp (init_working stack))
                     (upd (sp (init_working stack)) 1
                        (sin (DEG2RAD glon)))
                     (upd (cp (init_working stack)) 1
                        (cos (DEG2RAD glon)))
                     (pp (init_working stack))))
        as (Hcp & Hsp & Hdp); try reflexivity;
      destruct (axial_sums_loop g Hax
                  (sph_st (geodetic_to_spherical glat alt))
                  (sph_ct (geodetic_to_spherical glat alt)) dt
                  (WGS84_RE / sph_r (geodetic_to_spherical glat alt))
                  ar w turns Hcp Hsp Hdp)
        as (_ & Hbr & Hbt & Hbp & Hbpp)
  end.
  rewrite Hbr, Hbt, Hbp, Hbpp.
  replace (if Reqb (sph_st (geodetic_to_spherical glat alt)) 0
           then 0
           else 0 / sph_st (geodetic_to_spherical glat alt))
    with 0 by (destruct (Reqb _ _); unfold Rdiv; ring).
  reflexivity.
Qed.

(** ** The coordinate change in the northern hemisphere *)

Lemma spherical_north (glat alt : R) :
  0 < glat < 90 ->
  0 <= alt ->
  let sph := geodetic_to_spherical glat alt in
  0 < sph_ct sph /\ 0 <= sph_st sph /\ 0 < sph_r sph
  /\ 0 < sph_ca sph /\ 0 < sph_sa sph.
Proof.
  intros Hlat Halt; cbv zeta.
  pose proof PI_RGT_0 as Hpi.
  assert (Hrad : 0 < DEG2RAD glat < PI / 2).
  { unfold DEG2RAD; split.
    - apply Rmult_lt_0_compat; [nra | lra].
    - replace (PI / 2) with (90 * PI / 180) by field.
      unfold Rdiv; apply Rmult_lt_compat_r; [lra | nra]. }
  assert (Hs : 0 < sin (DEG2RAD glat)) by (apply sin_gt_0; lra).
  assert (Hc : 0 < cos (DEG2RAD glat)) by (apply cos_gt_0; lra).
  pose proof (sin2_cos2 (DEG2RAD glat)) as H1; unfold Rsqr in H1.
  unfold geodetic_to_spherical; cbv zeta; cbn [sph_ct sph_st sph_r sph_ca sph_sa].
  set (s := sin (DEG2RAD glat)) in *.
  set (c := cos (DEG2RAD glat)) in *.
  assert (Hab : 0 < WGS84_B < WGS84_A) by (unfold WGS84_A, WGS84_B; lra).
  set (a := WGS84_A) in *; set (b := WGS84_B) in *.
  assert (Hb2 : 0 < b * b) by nra.
  assert (Ha2 : b * b < a * a) by nra.
  assert (Hs2 : 0 < s * s < 1) by nra.
  assert (Hq2 : 0 < a * a - (a * a - b * b) * (s * s)) by nra.
  set (q := sqrt (a * a - (a * a - b * b) * (s * s))).
  assert (Hq : 0 < q) by (apply sqrt_lt_R0; exact Hq2).
  assert (Hq1 : 0 <= alt * q) by (apply Rmult_le_pos; lra).
  set (q1 := alt * q) in *.
  assert (Hrat : 0 < (q1 + a * a) / (q1 + b * b))
    by (apply Rdiv_lt_0_compat; lra).
  set (q2 := (q1 + a * a) / (q1 + b * b) * ((q1 + a * a) / (q1 + b * b))).
  assert (Hq2' : 0 < q2) by (unfold q2; nra).
  assert (Hden : 0 < sqrt (q2 * (c * c) + s * s))
    by (apply sqrt_lt_R0; nra).
  assert (Hct : 0 < s / sqrt (q2 * (c * c) + s * s))
    by (apply Rdiv_lt_0_compat; assumption).
  assert (Hb4 : 0 < a * a * (a * a)
                    - (a * a * (a * a) - b * b * (b * b)) * (s * s)).
  { assert (b * b * (b * b) < a * a * (a * a)) by nra.
    assert (0 < b * b * (b * b)) by nra.
    nra. }
  assert (Hqq : 0 < q * q) by nra.
  assert (Hterm : 0 < (a * a * (a * a)
                       - (a * a * (a * a) - b * b * (b * b)) * (s * s))
                      / (q * q))
    by (apply Rdiv_lt_0_compat; assumption).
  assert (Hr : 0 < sqrt (alt * alt + 2 * q1
                         + (a * a * (a * a)
                            - (a * a * (a * a) - b * b * (b * b))
                              * (s * s)) / (q * q)))
    by (apply sqrt_lt_R0; nra).
  assert (Hd : 0 < sqrt (a * a * (c * c) + b * b * (s * s)))
    by (apply sqrt_lt_R0; nra).
  split; [exact Hct|].
  split; [apply sqrt_pos|].
  split; [exact Hr|].
  split.
  - apply Rdiv_lt_0_compat; lra.
  - apply Rdiv_lt_0_compat.
    + apply Rmult_lt_0_compat; [apply Rmult_lt_0_compat|]; lra.
    + apply Rmult_lt_0_compat; assumption.
Qed.

(** ** A grid variation of -180 *)

Lemma grid_variation_60_180 : grid_variation 60 180 0 = -180.
Proof.
  unfold grid_variation, Rgeb, Rgtb; cbv zeta.
  rewrite (Rabs_pos_eq 60) by lra.
  replace (Rleb 55 60) with true by (symmetry; apply Rleb_true; lra).
  replace (Rltb 0 60) with true by (symmetry; apply Rltb_true; lra).
  replace (Rleb 0 180) with true by (symmetry; apply Rleb_true; lra).
  cbn [andb].
  decide_comparisons; lra.
Qed.

(** Over the dipole model, at 60 degrees north on the meridian of 180
    degrees and at the epoch, the field has no east component and points
    north. *)
Lemma dipole_field_60_180 :
  exists bx bz : R,
    snd (field_vector (init_working no_working) dipole_model 60 180 0
           (2025 - GeoMag.epoch dipole_model)) = (bx, 0, bz)
    /\ 0 < bx.
Proof.
  assert (Hax : axial dipole_model)
    by (intros i j H; apply dipole_model_zero_at; exact H).
  destruct dipole_model_shape as (Hmax & _ & Hepoch).
  eexists _, _; split.
  - apply (axial_field_vector no_working dipole_model 60 180 0
             (2025 - GeoMag.epoch dipole_model) Hax).
    rewrite Hmax; lia.
  - destruct dipole_model_1_0 as (-> & -> & -> & ->).
    rewrite Hepoch.
    destruct (spherical_north 60 0) as (Hct & Hst & Hr & Hca & Hsa);
      [lra | lra |].
    set (sph := geodetic_to_spherical 60 0) in *.
    assert (Haor : 0 < WGS84_RE / sph_r sph)
      by (apply Rdiv_lt_0_compat; [unfold WGS84_RE; lra | exact Hr]).
    set (aor := WGS84_RE / sph_r sph) in *.
    assert (Har : 0 < aor * aor * aor)
      by (apply Rmult_lt_0_compat; [apply Rmult_lt_0_compat|];
          exact Haor).
    set (ar := aor * aor * aor) in *.
    assert (H1 : 0 <= sph_st sph * sph_ca sph)
      by (apply Rmult_le_pos; lra).
    assert (H2 : 0 < sph_ct sph * sph_sa sph)
      by (apply Rmult_lt_0_compat; assumption).
    replace (- (ar * (-293518 / 10 + (2025 - 2025) * 12)
                * (sph_st sph * 1)) * sph_ca sph
             - 2 * (-293518 / 10 + (2025 - 2025) * 12)
               * (ar * (sph_ct sph * 1)) * sph_sa sph)
      with (293518 / 10 * (ar * (sph_st sph * sph_ca sph
                                 + 2 * (sph_ct sph * sph_sa sph))))
      by field.
    apply Rmult_lt_0_compat; [lra|].
    apply Rmult_lt_0_compat; [exact Har | lra].
Qed.

(** C6, as stated, fails at its lower bound: the standard model loaded
    from the dipole file, evaluated at 60 degrees north, 180 degrees
    east, altitude 0 and the epoch, returns 0 with a grid variation of
    -180 exactly, which is not in (-180, 180]. *)
Lemma C6_grid_variation_minus_180 :
  geomag_init (fun _ => 0) (Some no_model) (Some (Some dipole_file)) false
  = (0%Z, Some dipole_model)
  /\ exists (g' : GeoMag.t) (res' : GeoMagResult.t),
       geomag_calculate no_working (Some dipole_model) 60 180 0 2025
         false false (Some no_result) = (0%Z, Some g', Some res')
       /\ 55 <= Rabs 60
       /\ GeoMagResult.gv res' = -180
       /\ ~ (-180 < GeoMagResult.gv res' <= 180).
Proof.
  split; [exact geomag_init_dipole|].
  assert (Hd : date_accepted dipole_model 2025 false)
    by (apply dipole_model_date; lra).
  destruct (geomag_calculate_accepted no_working dipole_model 60 180 0
              2025 false false no_result Hd)
    as (bx & by_ & bz & Ev & E).
  destruct dipole_field_60_180 as (bx' & bz' & Ev' & Hbx).
  rewrite Ev' in Ev; injection Ev as <- <- <-.
  cbv zeta in E.
  destruct (check_zones_rc false
              (derive_result 60 180 bx' 0 bz'
                 (init_result dipole_model 60 180 0 2025 no_result)))
    as [_ Hrc].
  rewrite (Hrc eq_refl) in E.
  eexists _, _; split; [exact E|].
  destruct (check_zones_fields false
              (derive_result 60 180 bx' 0 bz'
                 (init_result dipole_model 60 180 0 2025 no_result)))
    as (_ & _ & _ & _ & _ & Hgv & _ & _).
  destruct (derive_result_members 60 180 bx' 0 bz'
              (init_result dipole_model 60 180 0 2025 no_result))
    as (_ & _ & _ & Mgv & _).
  assert (Hval : GeoMagResult.gv
                   (snd (check_zones false
                           (derive_result 60 180 bx' 0 bz'
                              (init_result dipole_model 60 180 0 2025
                                 no_result)))) = -180).
  { rewrite Hgv, Mgv, (atan2_east bx' Hbx).
    replace (RAD2DEG 0) with 0 by (unfold RAD2DEG; field; apply PI_neq0).
    exact grid_variation_60_180. }
  split; [rewrite Rabs_pos_eq; lra|].
  split; [exact Hval|].
  rewrite Hval; lra.
Qed.

(** * Further properties *)

(** ** What a call leaves in the result *)

Lemma check_zones_inputs (raise : bool) (r : GeoMagResult.t) :
  let r' := snd (check_zones raise r) in
  GeoMagResult.time r' = GeoMagResult.time r
  /\ GeoMagResult.alt r' = GeoMagResult.alt r
  /\ GeoMagResult.glat r' = GeoMagResult.glat r
  /\ GeoMagResult.glon r' = GeoMagResult.glon r
  /\ GeoMagResult.is_high_resolution r'
     = GeoMagResult.is_high_resolution r.
Proof.
  unfold check_zones.
  destruct (Rltb (GeoMagResult.h r) BLACKOUT_ZONE);
    [|destruct (Rltb (GeoMagResult.h r) CAUTION_ZONE)];
    destruct raise; simpl; auto.
Qed.

(** The zone check raises at most one of the two flags. *)
Lemma check_zones_exclusive (raise : bool) (r : GeoMagResult.t) :
  GeoMagResult.in_blackout_zone r = false ->
  GeoMagResult.in_caution_zone r = false ->
  let r' := snd (check_zones raise r) in
  (GeoMagResult.in_blackout_zone r'
   && GeoMagResult.in_caution_zone r')%bool = false.
Proof.
  intros Hb Hc; unfold check_zones.
  destruct (Rltb (GeoMagResult.h r) BLACKOUT_ZONE);
    [|destruct (Rltb (GeoMagResult.h r) CAUTION_ZONE)];
    destruct raise; simpl; rewrite ?Hb, ?Hc; reflexivity.
Qed.

(** Every call with valid pointers, accepted or refused, returns a result
    that echoes the four inputs and carries the resolution of the
    model. *)
Theorem calculate_echoes_inputs :
  forall (stack : working_arrays) (g : GeoMag.t) (glat glon alt time : R)
         (allow raise : bool) (res : GeoMagResult.t),
  exists (rc : Z) (g' : GeoMag.t) (res' : GeoMagResult.t),
    geomag_calculate stack (Some g) glat glon alt time allow raise
      (Some res) = (rc, Some g', Some res')
    /\ GeoMagResult.time res' = time
    /\ GeoMagResult.alt res' = alt
    /\ GeoMagResult.glat res' = glat
    /\ GeoMagResult.glon res' = glon
    /\ GeoMagResult.is_high_resolution res'
       = (GeoMag.maxord g =? WMM_SIZE_HIGH_RESOLUTION)%Z.
Proof.
  intros stack g glat glon alt time allow raise res.
  unfold geomag_calculate.
  destruct (negb allow && outside_lifespan (time - GeoMag.epoch g))%bool.
  - eexists _, _, _; split; [reflexivity|]; repeat split.
  - destruct (synthesize_eq (init_working stack) g glat glon alt
                (time - GeoMag.epoch g) raise
                (init_result g glat glon alt time res))
      as (bx & by_ & bz & _ & E).
    rewrite E.
    eexists _, _, _; split; [reflexivity|].
    destruct (check_zones_inputs raise
                (derive_result glat glon bx by_ bz
                   (init_result g glat glon alt time res)))
      as (-> & -> & -> & -> & ->).
    repeat split.
Qed.

(** ** Ranges of the derived quantities *)

Lemma atan2_right_range (y x : R) :
  0 <= x -> - (PI / 2) <= atan2 y x <= PI / 2.
Proof.
  intros Hx; pose proof PI_RGT_0 as Hpi; unfold atan2.
  destruct (Rlt_dec 0 x) as [Hx'|Hx'].
  - pose proof (atan_bound (y / x)); lra.
  - destruct (Rlt_dec x 0); [lra|].
    destruct (Rlt_dec 0 y); [lra|].
    destruct (Rlt_dec y 0); lra.
Qed.

Lemma RAD2DEG_quarter (a : R) :
  - (PI / 2) <= a <= PI / 2 -> -90 <= RAD2DEG a <= 90.
Proof.
  intros [Hlo Hhi]; pose proof PI_RGT_0 as Hpi.
  set (q := a / PI).
  assert (Ha : a = q * PI) by (unfold q; field; lra).
  assert (Hd : RAD2DEG a = q * 180) by (unfold RAD2DEG, q; field; lra).
  rewrite Hd; rewrite Ha in Hlo, Hhi; split; nra.
Qed.

Lemma Rabs_mult_le (a b : R) : 0 <= a -> -1 <= b <= 1 -> Rabs (a * b) <= a.
Proof.
  intros Ha Hb; apply Rabs_le; split; nra.
Qed.

(** On every call that passes the date check: 0 <= H <= F, the
    declination lies in [-180, 180], the inclination in [-90, 90],
    |X| <= H, |Y| <= H and |Z| <= F, and the two zone flags are never both
    set. *)
Theorem calculate_result_ranges :
  forall (stack : working_arrays) (g : GeoMag.t) (glat glon alt time : R)
         (allow raise : bool) (res : GeoMagResult.t),
    date_accepted g time allow ->
    exists (rc : Z) (g' : GeoMag.t) (res' : GeoMagResult.t),
      geomag_calculate stack (Some g) glat glon alt time allow raise
        (Some res) = (rc, Some g', Some res')
      /\ 0 <= GeoMagResult.h res' <= GeoMagResult.f res'
      /\ -180 <= GeoMagResult.d res' <= 180
      /\ -90 <= GeoMagResult.i res' <= 90
      /\ Rabs (GeoMagResult.x res') <= GeoMagResult.h res'
      /\ Rabs (GeoMagResult.y res') <= GeoMagResult.h res'
      /\ Rabs (GeoMagResult.z res') <= GeoMagResult.f res'
      /\ (GeoMagResult.in_blackout_zone res'
          && GeoMagResult.in_caution_zone res')%bool = false.
Proof.
  intros stack g glat glon alt time allow raise res Hd.
  destruct (geomag_calculate_accepted stack g glat glon alt time allow
              raise res Hd) as (bx & by_ & bz & _ & E).
  cbv zeta in E.
  eexists _, _, _; split; [exact E|].
  destruct (derive_result_members glat glon bx by_ bz
              (init_result g glat glon alt time res))
    as (Mf & Md & Mi & _ & Mx & My & Mz & Mh).
  pose proof (check_zones_exclusive raise
                (derive_result glat glon bx by_ bz
                   (init_result g glat glon alt time res))
                eq_refl eq_refl) as Hex.
  cbv zeta in Hex.
  remember (derive_result glat glon bx by_ bz
              (init_result g glat glon alt time res)) as r eqn:Er.
  clear Er E.
  destruct (check_zones_fields raise r)
    as (Hx & Hy & Hz & Hh & Hf & _ & Hd' & Hi').
  rewrite Hx, Hy, Hz, Hh, Hf, Hd', Hi'.
  rewrite Mx, My, Mz, Mh, Mf, Md, Mi, !DEG2RAD_RAD2DEG.
  set (bh := sqrt (bx * bx + by_ * by_)).
  set (F := sqrt (bh * bh + bz * bz)).
  set (D := atan2 by_ bx).
  set (I := atan2 bz bh).
  assert (HF : 0 <= F) by apply sqrt_pos.
  assert (HcI : 0 <= cos I) by (apply cos_atan2_nonneg, sqrt_pos).
  pose proof (COS_bound I) as [_ HcI1].
  pose proof (COS_bound D) as HcD.
  pose proof (SIN_bound D) as HsD.
  pose proof (SIN_bound I) as HsI.
  assert (HH : 0 <= F * cos I) by (apply Rmult_le_pos; assumption).
  split; [split; [exact HH | nra]|].
  split; [pose proof (RAD2DEG_atan2_range by_ bx) as HD; fold D in HD; lra|].
  split; [apply RAD2DEG_quarter, atan2_right_range, sqrt_pos|].
  split.
  { replace (F * cos D * cos I) with (F * cos I * cos D) by ring.
    apply Rabs_mult_le; assumption. }
  split; [apply Rabs_mult_le; assumption|].
  split; [apply Rabs_mult_le; assumption|].
  exact Hex.
Qed.

Lemma calculate_result_ranges_witness :
  exists (rc : Z) (g' : GeoMag.t) (res' : GeoMagResult.t),
    geomag_calculate no_working (Some dipole_model)
      (476205 / 10000) (-1223493 / 10000) 0 (8101 / 4) false false
      (Some no_result) = (rc, Some g', Some res')
    /\ 0 <= GeoMagResult.h res' <= GeoMagResult.f res'
    /\ -180 <= GeoMagResult.d res' <= 180
    /\ -90 <= GeoMagResult.i res' <= 90
    /\ Rabs (GeoMagResult.x res') <= GeoMagResult.h res'
    /\ Rabs (GeoMagResult.y res') <= GeoMagResult.h res'
    /\ Rabs (GeoMagResult.z res') <= GeoMagResult.f res'
    /\ (GeoMagResult.in_blackout_zone res'
        && GeoMagResult.in_caution_zone res')%bool = false.
Proof.
  apply (calculate_result_ranges no_working dipole_model
           (476205 / 10000) (-1223493 / 10000) 0 (8101 / 4) false false
           no_result).
  apply dipole_model_date; lra.
Defined.

(** ** The two policy flags *)

Lemma check_zones_raise (r : GeoMagResult.t) :
  snd (check_zones true r) = snd (check_zones false r).
Proof.
  unfold check_zones.
  destruct (Rltb (GeoMagResult.h r) BLACKOUT_ZONE);
    [|destruct (Rltb (GeoMagResult.h r) CAUTION_ZONE)]; reflexivity.
Qed.

(** Raising the warning zones changes the return code only: the model
    and the result the call leaves are those of the advisory call, and
    the code differs exactly when a zone flag is set in that result. *)
Theorem raise_changes_only_the_code :
  forall (stack : working_arrays) (g : GeoMag.t) (glat glon alt time : R)
         (allow : bool) (res : GeoMagResult.t),
  exists (rc rc' : Z) (g' : GeoMag.t) (res' : GeoMagResult.t),
    geomag_calculate stack (Some g) glat glon alt time allow false
      (Some res) = (rc, Some g', Some res')
    /\ geomag_calculate stack (Some g) glat glon alt time allow true
         (Some res) = (rc', Some g', Some res')
    /\ ((rc = (-1)%Z /\ rc' = (-1)%Z)
        \/ (rc = 0%Z
            /\ (rc' <> 0%Z <->
                GeoMagResult.in_blackout_zone res' = true
                \/ GeoMagResult.in_caution_zone res' = true))).
Proof.
  intros stack g glat glon alt time allow res.
  unfold geomag_calculate.
  destruct (negb allow && outside_lifespan (time - GeoMag.epoch g))%bool.
  - eexists _, _, _, _; split; [reflexivity|]; split; [reflexivity|].
    left; split; reflexivity.
  - destruct (synthesize_eq (init_working stack) g glat glon alt
                (time - GeoMag.epoch g) false
                (init_result g glat glon alt time res))
      as (bx & by_ & bz & Ev & E).
    destruct (synthesize_eq (init_working stack) g glat glon alt
                (time - GeoMag.epoch g) true
                (init_result g glat glon alt time res))
      as (bx' & by_' & bz' & Ev' & E').
    rewrite Ev' in Ev; injection Ev as <- <- <-.
    rewrite E, E', check_zones_raise.
    eexists _, _, _, _; split; [reflexivity|]; split; [reflexivity|].
    right.
    assert (Hb : GeoMagResult.in_blackout_zone
                   (derive_result glat glon bx' by_' bz'
                      (init_result g glat glon alt time res)) = false)
      by reflexivity.
    assert (Hc : GeoMagResult.in_caution_zone
                   (derive_result glat glon bx' by_' bz'
                      (init_result g glat glon alt time res)) = false)
      by reflexivity.
    revert Hb Hc.
    generalize (derive_result glat glon bx' by_' bz'
                  (init_result g glat glon alt time res)) as r.
    intros r Hb Hc; unfold check_zones.
    destruct (Rltb (GeoMagResult.h r) BLACKOUT_ZONE);
      [|destruct (Rltb (GeoMagResult.h r) CAUTION_ZONE)];
      simpl; rewrite ?Hb, ?Hc; (split; [reflexivity|]); split; intros H;
      try discriminate; try (exfalso; apply H; reflexivity);
      try (destruct H; discriminate); auto.
Qed.

(** ** The grid variation and the declination *)

Lemma grid_variation_congruent (glat glon d : R) :
  55 <= Rabs glat ->
  exists k : Z,
    (k = -1 \/ k = 0 \/ k = 1)%Z
    /\ grid_variation glat glon d
       = (if Rltb 0 glat then d - glon else d + glon) + 360 * IZR k.
Proof.
  intros Hlat; unfold grid_variation, Rgeb, Rgtb.
  destruct (Rleb 55 (Rabs glat)) eqn:E;
    [clear E | apply Rleb_false in E; lra].
  cbv zeta.
  match goal with
  | |- context [Rltb 180 ?g] => set (gv0 := g)
  end.
  assert (H0 : gv0 = if Rltb 0 glat then d - glon else d + glon).
  { subst gv0; revert Hlat; unfold Rabs.
    destruct (Rcase_abs glat); destruct (Rcase_abs glon); intros Hlat;
      destruct (Rltb 0 glat) eqn:E1; destruct (Rleb 0 glon) eqn:E2;
      destruct (Rltb glon 0) eqn:E3; destruct (Rltb glat 0) eqn:E4;
      cbn [andb]; comparison_facts; lra. }
  rewrite <- H0; clearbody gv0; clear H0.
  destruct (Rltb 180 gv0); [exists (-1)%Z; split; [lia | simpl; lra]|].
  destruct (Rltb gv0 (-180)); [exists 1%Z; split; [lia | simpl; lra]|].
  exists 0%Z; split; [lia | simpl; lra].
Qed.

(** At a latitude of 55 degrees or more, north or south, the grid
    variation of a call that passes the date check is the declination
    minus the longitude in the north, plus the longitude in the south,
    brought back by one turn of 360 degrees at most. *)
Theorem grid_variation_from_declination :
  forall (stack : working_arrays) (g : GeoMag.t) (glat glon alt time : R)
         (allow raise : bool) (res : GeoMagResult.t),
    date_accepted g time allow ->
    55 <= Rabs glat ->
    exists (rc : Z) (g' : GeoMag.t) (res' : GeoMagResult.t) (k : Z),
      geomag_calculate stack (Some g) glat glon alt time allow raise
        (Some res) = (rc, Some g', Some res')
      /\ (k = -1 \/ k = 0 \/ k = 1)%Z
      /\ (0 < glat ->
          GeoMagResult.gv res'
          = GeoMagResult.d res' - glon + 360 * IZR k)
      /\ (glat < 0 ->
          GeoMagResult.gv res'
          = GeoMagResult.d res' + glon + 360 * IZR k).
Proof.
  intros stack g glat glon alt time allow raise res Hd Hlat.
  destruct (geomag_calculate_accepted stack g glat glon alt time allow
              raise res Hd) as (bx & by_ & bz & _ & E).
  cbv zeta in E.
  destruct (derive_result_members glat glon bx by_ bz
              (init_result g glat glon alt time res))
    as (_ & Md & _ & Mgv & _).
  destruct (grid_variation_congruent glat glon
              (RAD2DEG (atan2 by_ bx)) Hlat) as (k & Hk & Hgv).
  eexists _, _, _, k; split; [exact E|].
  destruct (check_zones_fields raise
              (derive_result glat glon bx by_ bz
                 (init_result g glat glon alt time res)))
    as (_ & _ & _ & _ & _ & -> & -> & _).
  rewrite Mgv, Md, Hgv.
  split; [exact Hk|].
  split; intros Hs.
  - replace (Rltb 0 glat) with true
      by (symmetry; apply Rltb_true; exact Hs).
    reflexivity.
  - replace (Rltb 0 glat) with false
      by (symmetry; apply Rltb_false; lra).
    reflexivity.
Qed.

Lemma grid_variation_from_declination_witness :
  exists (rc : Z) (g' : GeoMag.t) (res' : GeoMagResult.t) (k : Z),
    geomag_calculate no_working (Some dipole_model) (-70) 100 0 2026
      false false (Some no_result) = (rc, Some g', Some res')
    /\ (k = -1 \/ k = 0 \/ k = 1)%Z
    /\ (0 < -70 ->
        GeoMagResult.gv res' = GeoMagResult.d res' - 100 + 360 * IZR k)
    /\ (-70 < 0 ->
        GeoMagResult.gv res' = GeoMagResult.d res' + 100 + 360 * IZR k).
Proof.
  apply (grid_variation_from_declination no_working dipole_model
           (-70) 100 0 2026 false false no_result).
  - apply dipole_model_date; lra.
  - unfold Rabs; destruct (Rcase_abs (-70)); lra.
Defined.

(** ** The other uncertainty tables *)

(** The lookup by window, besides the standard table of 2025: the
    high-resolution table on 2025.0 to 2030.0, the table of 2020 on
    2020.0 up to but not including 2025.0 (at 2025.0 the table of 2025
    wins), and the table of 2015 on 2015.0 up to but not including
    2020.0.  The six constants are returned whatever the H of the
    result; the uncertainty of the declination is the formula of the
    table when that H is not 0. *)
Theorem uncertainty_tables :
  forall (res : GeoMagResult.t) (u : GeoMagUncertainty.t),
    let time := GeoMagResult.time res in
    let h := GeoMagResult.h res in
    let out := geomag_calculate_uncertainty (Some res) (Some u) in
    (2025 <= time <= 2030 ->
     GeoMagResult.is_high_resolution res = true ->
     exists u' : GeoMagUncertainty.t,
       out = (0%Z, Some u')
       /\ GeoMagUncertainty.x u' = 135
       /\ GeoMagUncertainty.y u' = 85
       /\ GeoMagUncertainty.z u' = 134
       /\ GeoMagUncertainty.h u' = 130
       /\ GeoMagUncertainty.f u' = 134
       /\ GeoMagUncertainty.i u' = 19 / 100
       /\ (h <> 0 ->
           GeoMagUncertainty.d u'
           = sqrt ((25 / 100) ^ 2 + (5205 / h) ^ 2)))
    /\ (2020 <= time < 2025 ->
        exists u' : GeoMagUncertainty.t,
          out = (0%Z, Some u')
          /\ GeoMagUncertainty.x u' = 131
          /\ GeoMagUncertainty.y u' = 94
          /\ GeoMagUncertainty.z u' = 157
          /\ GeoMagUncertainty.h u' = 128
          /\ GeoMagUncertainty.f u' = 148
          /\ GeoMagUncertainty.i u' = 21 / 100
          /\ (h <> 0 ->
              GeoMagUncertainty.d u'
              = sqrt ((26 / 100) ^ 2 + (5625 / h) ^ 2)))
    /\ (2015 <= time < 2020 ->
        exists u' : GeoMagUncertainty.t,
          out = (0%Z, Some u')
          /\ GeoMagUncertainty.x u' = 138
          /\ GeoMagUncertainty.y u' = 89
          /\ GeoMagUncertainty.z u' = 165
          /\ GeoMagUncertainty.h u' = 133
          /\ GeoMagUncertainty.f u' = 152
          /\ GeoMagUncertainty.i u' = 22 / 100
          /\ (h <> 0 ->
              GeoMagUncertainty.d u'
              = sqrt ((23 / 100) ^ 2 + (5430 / h) ^ 2))).
Proof.
  intros res u; cbv zeta.
  unfold geomag_calculate_uncertainty, WMM_MODEL_2025_LOWER,
    WMM_MODEL_2025_UPPER, WMM_MODEL_2020_LOWER, WMM_MODEL_2020_UPPER,
    WMM_MODEL_2015_LOWER, WMM_MODEL_2015_UPPER, Rgeb.
  split; [|split]; intros Ht.
  - intros Hres; rewrite Hres.
    replace (Rleb 2025 (GeoMagResult.time res)) with true
      by (symmetry; apply Rleb_true; lra).
    replace (Rleb (GeoMagResult.time res) 2030) with true
      by (symmetry; apply Rleb_true; lra).
    cbn [andb]; eexists; split; [reflexivity|].
    do 6 (split; [reflexivity|]).
    intros _; simpl; rewrite !Rmult_1_r; reflexivity.
  - replace (Rleb 2025 (GeoMagResult.time res)) with false
      by (symmetry; apply Rleb_false; lra).
    replace (Rleb 2020 (GeoMagResult.time res)) with true
      by (symmetry; apply Rleb_true; lra).
    replace (Rleb (GeoMagResult.time res) 2025) with true
      by (symmetry; apply Rleb_true; lra).
    cbn [andb]; eexists; split; [reflexivity|].
    do 6 (split; [reflexivity|]).
    intros _; simpl; rewrite !Rmult_1_r; reflexivity.
  - replace (Rleb 2025 (GeoMagResult.time res)) with false
      by (symmetry; apply Rleb_false; lra).
    replace (Rleb 2020 (GeoMagResult.time res)) with false
      by (symmetry; apply Rleb_false; lra).
    replace (Rleb 2015 (GeoMagResult.time res)) with true
      by (symmetry; apply Rleb_true; lra).
    replace (Rltb (GeoMagResult.time res) 2020) with true
      by (symmetry; apply Rltb_true; lra).
    cbn [andb]; eexists; split; [reflexivity|].
    do 6 (split; [reflexivity|]).
    intros _; simpl; rewrite !Rmult_1_r; reflexivity.
Qed.

Lemma uncertainty_tables_witness :
  (exists u' : GeoMagUncertainty.t,
    geomag_calculate_uncertainty
      (Some (result_at 2025 18000 true)) (Some no_uncertainty) = (0%Z, Some u')
    /\ GeoMagUncertainty.x u' = 135
    /\ GeoMagUncertainty.y u' = 85
    /\ GeoMagUncertainty.z u' = 134
    /\ GeoMagUncertainty.h u' = 130
    /\ GeoMagUncertainty.f u' = 134
    /\ GeoMagUncertainty.i u' = 19 / 100
    /\ (GeoMagUncertainty.d u'
        = sqrt ((25 / 100) ^ 2 + (5205 / 18000) ^ 2)))
  /\ (exists u' : GeoMagUncertainty.t,
       geomag_calculate_uncertainty
         (Some (result_at 2020 18000 false)) (Some no_uncertainty) = (0%Z, Some u')
       /\ GeoMagUncertainty.x u' = 131
       /\ GeoMagUncertainty.y u' = 94
       /\ GeoMagUncertainty.z u' = 157
       /\ GeoMagUncertainty.h u' = 128
       /\ GeoMagUncertainty.f u' = 148
       /\ GeoMagUncertainty.i u' = 21 / 100
       /\ (GeoMagUncertainty.d u'
           = sqrt ((26 / 100) ^ 2 + (5625 / 18000) ^ 2)))
  /\ (exists u' : GeoMagUncertainty.t,
       geomag_calculate_uncertainty
         (Some (result_at 2015 18000 false)) (Some no_uncertainty) = (0%Z, Some u')
       /\ GeoMagUncertainty.x u' = 138
       /\ GeoMagUncertainty.y u' = 89
       /\ GeoMagUncertainty.z u' = 165
       /\ GeoMagUncertainty.h u' = 133
       /\ GeoMagUncertainty.f u' = 152
       /\ GeoMagUncertainty.i u' = 22 / 100
       /\ (GeoMagUncertainty.d u'
           = sqrt ((23 / 100) ^ 2 + (5430 / 18000) ^ 2))).
Proof.
  destruct (uncertainty_tables (result_at 2025 18000 true) no_uncertainty)
    as (H1 & _ & _).
  destruct (uncertainty_tables (result_at 2020 18000 false) no_uncertainty)
    as (_ & H2 & _).
  destruct (uncertainty_tables (result_at 2015 18000 false) no_uncertainty)
    as (_ & _ & H3).
  cbv zeta in H1, H2, H3.
  split; [|split].
  - destruct H1 as (u' & E & Hx & Hy & Hz & Hh & Hf & Hi & Hd);
      [simpl; lra | reflexivity |].
    exists u'; repeat (split; [assumption|]).
    apply Hd; simpl; lra.
  - destruct H2 as (u' & E & Hx & Hy & Hz & Hh & Hf & Hi & Hd);
      [simpl; lra|].
    exists u'; repeat (split; [assumption|]).
    apply Hd; simpl; lra.
  - destruct H3 as (u' & E & Hx & Hy & Hz & Hh & Hf & Hi & Hd);
      [simpl; lra|].
    exists u'; repeat (split; [assumption|]).
    apply Hd; simpl; lra.
Defined.

(** The declination uncertainty as a function of H in a window. *)
Lemma declination_uncertainty_antitone (a b h1 h2 : R) :
  0 < h1 <= h2 ->
  sqrt (a * a + (b / h2) * (b / h2)) <= sqrt (a * a + (b / h1) * (b / h1)).
Proof.
  intros [H1 H12]; apply sqrt_le_1_alt.
  assert (Hi : 0 < / h2 <= / h1).
  { split; [apply Rinv_0_lt_compat; lra|].
    apply Rinv_le_contravar; assumption. }
  unfold Rdiv.
  assert (/ h2 * / h2 <= / h1 * / h1) by nra.
  assert (0 <= b * b) by nra.
  replace (b * / h2 * (b * / h2)) with (b * b * (/ h2 * / h2)) by ring.
  replace (b * / h1 * (b * / h1)) with (b * b * (/ h1 * / h1)) by ring.
  nra.
Qed.

(** Two results of the same time and resolution: when the lookup
    succeeds, the six fixed uncertainties are the same and positive, and
    the declination uncertainty is positive and not larger for the
    larger of two positive horizontal intensities. *)
Theorem declination_uncertainty_decreases_with_h :
  forall (res1 res2 : GeoMagResult.t) (u : GeoMagUncertainty.t),
    GeoMagResult.time res2 = GeoMagResult.time res1 ->
    GeoMagResult.is_high_resolution res2
    = GeoMagResult.is_high_resolution res1 ->
    2015 <= GeoMagResult.time res1 <= 2030 ->
    0 < GeoMagResult.h res1 <= GeoMagResult.h res2 ->
    exists u1 u2 : GeoMagUncertainty.t,
      geomag_calculate_uncertainty (Some res1) (Some u) = (0%Z, Some u1)
      /\ geomag_calculate_uncertainty (Some res2) (Some u) = (0%Z, Some u2)
      /\ GeoMagUncertainty.x u2 = GeoMagUncertainty.x u1
      /\ GeoMagUncertainty.y u2 = GeoMagUncertainty.y u1
      /\ GeoMagUncertainty.z u2 = GeoMagUncertainty.z u1
      /\ GeoMagUncertainty.h u2 = GeoMagUncertainty.h u1
      /\ GeoMagUncertainty.f u2 = GeoMagUncertainty.f u1
      /\ GeoMagUncertainty.i u2 = GeoMagUncertainty.i u1
      /\ 0 < GeoMagUncertainty.x u1 /\ 0 < GeoMagUncertainty.y u1
      /\ 0 < GeoMagUncertainty.z u1 /\ 0 < GeoMagUncertainty.h u1
      /\ 0 < GeoMagUncertainty.f u1 /\ 0 < GeoMagUncertainty.i u1
      /\ 0 < GeoMagUncertainty.d u2 <= GeoMagUncertainty.d u1.
Proof.
  intros res1 res2 u Ht Hr Hwin Hh.
  unfold geomag_calculate_uncertainty; rewrite Ht, Hr.
  unfold WMM_MODEL_2025_LOWER, WMM_MODEL_2025_UPPER, WMM_MODEL_2020_LOWER,
    WMM_MODEL_2020_UPPER, WMM_MODEL_2015_LOWER, WMM_MODEL_2015_UPPER, Rgeb.
  assert (Hpos : forall a b h : R,
             0 < a -> 0 < sqrt (a * a + (b / h) * (b / h))).
  { intros a b h Ha; apply sqrt_lt_R0.
    assert (0 <= (b / h) * (b / h)) by nra.
    nra. }
  destruct (Rleb 2025 (GeoMagResult.time res1)) eqn:E1;
    destruct (Rleb (GeoMagResult.time res1) 2030) eqn:E2;
    destruct (Rleb 2020 (GeoMagResult.time res1)) eqn:E3;
    destruct (Rleb (GeoMagResult.time res1) 2025) eqn:E4;
    destruct (Rleb 2015 (GeoMagResult.time res1)) eqn:E5;
    destruct (Rltb (GeoMagResult.time res1) 2020) eqn:E6;
    comparison_facts; try lra; cbn [andb];
    try destruct (GeoMagResult.is_high_resolution res1);
    (eexists _, _; split; [reflexivity|]; split; [reflexivity|];
     cbn [GeoMagUncertainty.x GeoMagUncertainty.y GeoMagUncertainty.z
          GeoMagUncertainty.h GeoMagUncertainty.f GeoMagUncertainty.i
          GeoMagUncertainty.d];
     repeat (split; [reflexivity || lra|]);
     split; [apply Hpos; lra
            | apply declination_uncertainty_antitone; exact Hh]).
Qed.

Lemma declination_uncertainty_decreases_with_h_witness :
  exists u1 u2 : GeoMagUncertainty.t,
    geomag_calculate_uncertainty (Some (result_at 2026 2000 false))
      (Some no_uncertainty) = (0%Z, Some u1)
    /\ geomag_calculate_uncertainty (Some (result_at 2026 30000 false))
         (Some no_uncertainty) = (0%Z, Some u2)
    /\ GeoMagUncertainty.x u2 = GeoMagUncertainty.x u1
    /\ GeoMagUncertainty.y u2 = GeoMagUncertainty.y u1
    /\ GeoMagUncertainty.z u2 = GeoMagUncertainty.z u1
    /\ GeoMagUncertainty.h u2 = GeoMagUncertainty.h u1
    /\ GeoMagUncertainty.f u2 = GeoMagUncertainty.f u1
    /\ GeoMagUncertainty.i u2 = GeoMagUncertainty.i u1
    /\ 0 < GeoMagUncertainty.x u1 /\ 0 < GeoMagUncertainty.y u1
    /\ 0 < GeoMagUncertainty.z u1 /\ 0 < GeoMagUncertainty.h u1
    /\ 0 < GeoMagUncertainty.f u1 /\ 0 < GeoMagUncertainty.i u1
    /\ 0 < GeoMagUncertainty.d u2 <= GeoMagUncertainty.d u1.
Proof.
  apply (declination_uncertainty_decreases_with_h
           (result_at 2026 2000 false) (result_at 2026 30000 false)
           no_uncertainty).
  - reflexivity.
  - reflexivity.
  - simpl; lra.
  - simpl; lra.
Defined.

(** ** Loops with an index *)

Lemma upd_same (a : array1) (i : Z) (v : R) : upd a i v i = v.
Proof. unfold upd; rewrite Z.eqb_refl; reflexivity. Qed.

Lemma upd_other (a : array1) (i : Z) (v : R) (j : Z) :
  j <> i -> upd a i v j = a j.
Proof.
  intros H; unfold upd; destruct (Z.eqb_spec j i); [contradiction|].
  reflexivity.
Qed.

(** An invariant that follows the index of the loop, for a body that
    keeps it on the indices from [lo] to [hi - 1]. *)
Lemma iter_from_range {S : Type} (lo hi : Z) (P : Z -> S -> Prop)
    (body : Z -> S -> S) :
  (forall i s, (lo <= i < hi)%Z -> P i s -> P (i + 1)%Z (body i s)) ->
  forall turns i s,
    (lo <= i)%Z -> (i + Z.of_nat turns <= hi)%Z ->
    P i s -> P (i + Z.of_nat turns)%Z (iter_from turns i body s).
Proof.
  intros Hbody turns; induction turns as [|turns IH]; intros i s Hlo Hhi Hs.
  - replace (i + Z.of_nat 0)%Z with i by lia; exact Hs.
  - cbn [iter_from].
    replace (i + Z.of_nat (Datatypes.S turns))%Z
      with (i + 1 + Z.of_nat turns)%Z by lia.
    apply IH; [lia | lia | apply Hbody; [lia | exact Hs]].
Qed.

(** A one-dimensional index of [p] and [snorm] determines its degree and
    order, for degrees below [size]. *)
Lemma flat_index_inj (sz a b a' b' : Z) :
  (0 <= a < sz)%Z -> (0 <= a' < sz)%Z ->
  (a + b * sz = a' + b' * sz)%Z -> a = a' /\ b = b'.
Proof.
  intros Ha Ha' E.
  assert (Hb : b = b') by nia.
  subst b'; split; [lia | reflexivity].
Qed.

(** ** The factors in closed form *)

Lemma schmidtZ_0_0 : schmidtZ 0 0 = 1.
Proof. reflexivity. Qed.

Lemma schmidtZ_zonal (n : Z) :
  (1 <= n)%Z ->
  schmidtZ n 0 = schmidtZ (n - 1) 0 * IZR (2 * n - 1) / IZR n.
Proof.
  intros Hn; unfold schmidtZ; cbn [Z.to_nat schmidt].
  replace (Z.to_nat n) with (S (Z.to_nat (n - 1))) by lia.
  cbn [schmidt_zonal].
  replace (Z.of_nat (S (Z.to_nat (n - 1)))) with n by lia.
  reflexivity.
Qed.

Lemma schmidtZ_step (n m : Z) :
  (0 <= n)%Z -> (1 <= m)%Z ->
  schmidtZ n m
  = schmidtZ n (m - 1)
    * sqrt (IZR ((n - m + 1) * (if (m <=? 1)%Z then 2 else 1)%Z)
            / IZR (n + m)).
Proof.
  intros Hn Hm; unfold schmidtZ.
  replace (Z.to_nat m) with (S (Z.to_nat (m - 1))) by lia.
  cbn [schmidt].
  replace (Z.of_nat (S (Z.to_nat (m - 1)))) with m by lia.
  replace (Z.of_nat (Z.to_nat n)) with n by lia.
  replace (Nat.eqb (S (Z.to_nat (m - 1))) 1) with (m <=? 1)%Z.
  - destruct (m <=? 1)%Z; reflexivity.
  - destruct (Z.leb_spec m 1) as [H|H].
    + replace (Z.to_nat (m - 1)) with 0%nat by lia; reflexivity.
    + destruct (Z.to_nat (m - 1)) eqn:E; [lia | reflexivity].
Qed.

(** ** The tables of the normalisation, turn by turn *)

(** Decide the integer comparisons in the goal. *)
Ltac decide_index a b spec :=
  let H := fresh "Hcmp" in destruct (spec a b) as [H|H].

Ltac decide_indices :=
  repeat (match goal with
          | |- context [(?a <=? ?b)%Z] => decide_index a b Z.leb_spec
          | |- context [(?a <? ?b)%Z] => decide_index a b Z.ltb_spec
          | |- context [(?a =? ?b)%Z] => decide_index a b Z.eqb_spec
          end; cbn [andb orb negb]);
  try lia; try reflexivity.

Lemma scaled_before_cosine (n0 m0 : Z) (c0 : array2) :
  (1 <= n0)%Z -> (0 <= m0 <= n0)%Z ->
  scaled_before n0 m0 c0 m0 n0 = c0 m0 n0
  /\ scaled_before n0 (m0 + 1) c0 m0 n0 = schmidtZ n0 m0 * c0 m0 n0.
Proof.
  intros Hn Hm; unfold scaled_before, turn_before, entry_degree,
    entry_order.
  rewrite (Z.max_r m0 n0) by lia.
  split; decide_indices.
Qed.

Lemma scaled_before_sine (n0 m0 : Z) (c0 : array2) :
  (1 <= m0 <= n0)%Z ->
  scaled_before n0 m0 c0 n0 (m0 - 1)%Z = c0 n0 (m0 - 1)%Z
  /\ scaled_before n0 (m0 + 1) c0 n0 (m0 - 1)%Z
     = schmidtZ n0 m0 * c0 n0 (m0 - 1)%Z.
Proof.
  intros Hm; unfold scaled_before, turn_before, entry_degree, entry_order.
  rewrite (Z.max_l n0 (m0 - 1)) by lia.
  replace (m0 - 1 + 1)%Z with m0 by lia.
  split; decide_indices.
Qed.

Lemma scaled_before_others (n0 m0 : Z) (c0 : array2) (i j : Z) :
  (i <> m0 \/ j <> n0)%Z -> (i <> n0 \/ j <> m0 - 1 \/ m0 <= 0)%Z ->
  scaled_before n0 (m0 + 1) c0 i j = scaled_before n0 m0 c0 i j.
Proof.
  intros H1 H2; unfold scaled_before, turn_before, entry_degree,
    entry_order.
  destruct (Z.max_spec i j) as [[Hlt ->]|[Hge ->]]; decide_indices.
Qed.

(** All the orders of a degree done, the next degree starts. *)
Lemma scaled_before_next (n0 : Z) (c0 : array2) (i j : Z) :
  scaled_before n0 (n0 + 1) c0 i j = scaled_before (n0 + 1) 0 c0 i j.
Proof.
  unfold scaled_before, turn_before, entry_degree, entry_order.
  destruct (Z.max_spec i j) as [[Hlt ->]|[Hge ->]]; decide_indices.
Qed.

Lemma factors_before_turn (n0 m0 : Z) (k0 : array2) (i j : Z) :
  (1 <= n0)%Z -> (0 <= m0 <= n0)%Z ->
  upd2 (factors_before n0 m0 k0) m0 n0 (recursion_factor n0 m0) i j
  = factors_before n0 (m0 + 1) k0 i j.
Proof.
  intros Hn Hm; unfold upd2, factors_before, turn_before.
  destruct (Z.eqb_spec i m0) as [->|Hi];
    destruct (Z.eqb_spec j n0) as [->|Hj]; cbn [andb]; decide_indices.
Qed.

Lemma factors_before_next (n0 : Z) (k0 : array2) (i j : Z) :
  factors_before n0 (n0 + 1) k0 i j = factors_before (n0 + 1) 0 k0 i j.
Proof.
  unfold factors_before, turn_before; decide_indices.
Qed.

Lemma counted_before_next (n0 shift : Z) (f0 : array1) (i : Z) :
  (1 <= n0)%Z ->
  upd (counted_before n0 shift f0) n0 (IZR (n0 + shift)) i
  = counted_before (n0 + 1) shift f0 i.
Proof.
  intros Hn; unfold upd, counted_before.
  destruct (Z.eqb_spec i n0) as [->|Hi]; decide_indices.
Qed.

(** What one turn of the loop over the orders writes. *)
Lemma norm_body_parts (n m : Z) (s : norm_state) :
  let g := ns_gm s in
  let sz := GeoMag.size g in
  let snorm' :=
    if (0 <? m)%Z
    then upd (ns_snorm s) (n + m * sz)
           (ns_snorm s (n + (m - 1) * sz)%Z
            * sqrt (IZR ((n - m + 1) * ns_j s) / IZR (n + m)))
    else ns_snorm s in
  let v := snorm' (n + m * sz)%Z in
  let scale (a : array2) :=
    let a1 := if (0 <? m)%Z
              then upd2 a n (m - 1) (v * a n (m - 1)%Z) else a in
    upd2 a1 m n (v * a1 m n) in
  let s' := norm_body n m s in
  ns_snorm s' = snorm'
  /\ ns_j s' = (if (0 <? m)%Z then 1%Z else ns_j s)
  /\ same_scalars g (ns_gm s')
  /\ GeoMag.fn (ns_gm s') = GeoMag.fn g
  /\ GeoMag.fm (ns_gm s') = GeoMag.fm g
  /\ GeoMag.k (ns_gm s') = upd2 (GeoMag.k g) m n (recursion_factor n m)
  /\ GeoMag.c (ns_gm s') = scale (GeoMag.c g)
  /\ GeoMag.cd (ns_gm s') = scale (GeoMag.cd g).
Proof.
  destruct s as [g snorm j]; unfold norm_body, same_scalars,
    recursion_factor; cbn [ns_gm ns_snorm ns_j].
  destruct (0 <? m)%Z; cbn -[upd upd2]; repeat split.
Qed.

(** The two entries a turn scales, in a table that holds the entries of
    the turns before. *)
Lemma scale_turn (a0 a : array2) (n0 m0 : Z) (v : R) :
  (1 <= n0)%Z -> (0 <= m0 <= n0)%Z ->
  v = schmidtZ n0 m0 ->
  (forall i j, a i j = scaled_before n0 m0 a0 i j) ->
  let a1 := if (0 <? m0)%Z
            then upd2 a n0 (m0 - 1) (v * a n0 (m0 - 1)%Z) else a in
  forall i j,
    upd2 a1 m0 n0 (v * a1 m0 n0) i j = scaled_before n0 (m0 + 1) a0 i j.
Proof.
  intros Hn Hm -> Ha a1 i j.
  destruct (scaled_before_cosine n0 m0 a0) as [C0 C1]; [lia | lia |].
  assert (HA : (i = m0 /\ j = n0) \/ (i <> m0 \/ j <> n0)) by lia.
  destruct HA as [[-> ->]|HA].
  - rewrite upd2_same, C1; subst a1.
    destruct (0 <? m0)%Z; [rewrite upd2_other by lia|];
      rewrite Ha, C0; reflexivity.
  - rewrite upd2_other by exact HA; subst a1.
    destruct (Z.ltb_spec 0 m0) as [Hpos|Hzero].
    + destruct (scaled_before_sine n0 m0 a0) as [S0 S1]; [lia|].
      assert (HB : (i = n0 /\ j = (m0 - 1)%Z)
                   \/ (i <> n0 \/ j <> (m0 - 1)%Z)) by lia.
      destruct HB as [[-> ->]|HB].
      * rewrite upd2_same, S1, Ha, S0; reflexivity.
      * rewrite upd2_other by exact HB.
        rewrite scaled_before_others by (auto; lia); apply Ha.
    + rewrite scaled_before_others by (auto; lia); apply Ha.
Qed.

Lemma norm_body_tables (g0 : GeoMag.t) (n0 m0 : Z) (s : norm_state) :
  (1 <= n0 < GeoMag.size g0)%Z ->
  (0 <= m0 <= n0)%Z ->
  norm_orders_tables g0 n0 m0 s ->
  norm_orders_tables g0 n0 (m0 + 1) (norm_body n0 m0 s).
Proof.
  intros Hn Hm ((Hsc & Hfn & Hfm & Hk & Hc & Hcd & Hs) & Hs0 & Hj).
  destruct (norm_body_parts n0 m0 s)
    as (Es & Ej & Esc & Efn & Efm & Ek & Ec & Ecd).
  pose proof Hsc as (_ & Hsz & _).
  rewrite Hsz in Es, Ec, Ecd.
  set (sz := GeoMag.size g0) in *.
  (* the factor of this turn *)
  set (snorm' := if (0 <? m0)%Z
                 then upd (ns_snorm s) (n0 + m0 * sz)
                        (ns_snorm s (n0 + (m0 - 1) * sz)%Z
                         * sqrt (IZR ((n0 - m0 + 1) * ns_j s)
                                 / IZR (n0 + m0)))
                 else ns_snorm s) in *.
  assert (Hv : snorm' (n0 + m0 * sz)%Z = schmidtZ n0 m0).
  { subst snorm'; destruct (Z.ltb_spec 0 m0) as [Hpos|Hzero].
    - rewrite upd_same, (Hs n0 (m0 - 1)%Z) by lia.
      rewrite Hj, (schmidtZ_step n0 m0) by lia.
      reflexivity.
    - assert (m0 = 0%Z) by lia; subst m0.
      replace (n0 + 0 * sz)%Z with n0 by lia; exact Hs0. }
  assert (Hkeep : forall d o : Z,
             (0 <= d <= n0)%Z -> (d <> n0 \/ o <> m0)%Z ->
             snorm' (d + o * sz)%Z = ns_snorm s (d + o * sz)%Z).
  { intros d o Hd Hne; subst snorm'.
    destruct (0 <? m0)%Z; [|reflexivity].
    apply upd_other; intros E.
    destruct (flat_index_inj sz d o n0 m0) as [E1 E2]; try lia. }
  split; [|split].
  - split; [|split; [|split; [|split; [|split; [|split]]]]].
    + unfold same_scalars in *; intuition congruence.
    + intros i; rewrite Efn; apply Hfn.
    + intros i; rewrite Efm; apply Hfm.
    + intros i j; rewrite Ek.
      rewrite <- factors_before_turn by lia.
      unfold upd2; destruct (_ && _)%bool; [reflexivity | apply Hk].
    + intros i j; rewrite Ec.
      apply (scale_turn (GeoMag.c g0)); assumption || lia.
    + intros i j; rewrite Ecd.
      apply (scale_turn (GeoMag.cd g0)); assumption || lia.
    + intros d o Ho Hturn; rewrite Es.
      destruct (Z.eq_dec d n0) as [->|Hd];
        [destruct (Z.eq_dec o m0) as [->|Ho']|].
      * exact Hv.
      * rewrite Hkeep by lia; apply Hs; lia.
      * rewrite Hkeep by lia; apply Hs; lia.
  - rewrite Es.
    replace n0 with (n0 + 0 * sz)%Z at 1 by lia.
    destruct (Z.eq_dec m0 0) as [->|Hm0].
    + replace (Z.ltb 0 0) with false in * by reflexivity.
      subst snorm'; replace (n0 + 0 * sz)%Z with n0 by lia; exact Hs0.
    + rewrite Hkeep by lia.
      replace (n0 + 0 * sz)%Z with n0 by lia; exact Hs0.
  - rewrite Ej, Hj.
    destruct (Z.ltb_spec 0 m0); destruct (Z.leb_spec m0 1);
      destruct (Z.leb_spec (m0 + 1) 1); try lia; reflexivity.
Qed.

Lemma norm_degree_tables (g0 : GeoMag.t) (n0 : Z) (s : norm_state) :
  (1 <= n0 < GeoMag.size g0)%Z ->
  norm_tables g0 n0 0 s ->
  norm_tables g0 (n0 + 1) 0 (norm_degree n0 s).
Proof.
  intros Hn (Hsc & Hfn & Hfm & Hk & Hc & Hcd & Hs).
  set (sz := GeoMag.size g0) in *.
  (* the state on entry of the loop over the orders *)
  set (s1 := mk_norm (ns_gm s)
               (upd (ns_snorm s) n0
                  (ns_snorm s (n0 - 1)%Z * IZR (2 * n0 - 1) / IZR n0)) 2).
  assert (H1 : norm_orders_tables g0 n0 0 s1).
  { split; [|split].
    - split; [exact Hsc|].
      do 5 (split; [assumption|]).
      intros d o Ho Hturn; cbn [s1 ns_snorm].
      rewrite upd_other; [apply Hs; lia|].
      replace n0 with (n0 + 0 * sz)%Z at 2 by lia.
      intros E.
      destruct (flat_index_inj sz d o n0 0) as [E1 E2]; lia.
    - cbn [s1 ns_snorm]; rewrite upd_same.
      replace (n0 - 1)%Z with (n0 - 1 + 0 * sz)%Z at 1 by lia.
      rewrite (Hs (n0 - 1)%Z 0%Z) by lia.
      symmetry; apply schmidtZ_zonal; lia.
    - reflexivity. }
  (* the loop over the orders *)
  assert (H2 : norm_orders_tables g0 n0 (0 + Z.of_nat (Z.to_nat (n0 + 1)))
                 (iter_from (Z.to_nat (n0 + 1)) 0 (norm_body n0) s1)).
  { apply (iter_from_range 0 (n0 + 1)
             (fun m s => norm_orders_tables g0 n0 m s)).
    - intros m s' Hm; apply norm_body_tables; lia.
    - lia.
    - lia.
    - exact H1. }
  replace (0 + Z.of_nat (Z.to_nat (n0 + 1)))%Z with (n0 + 1)%Z in H2
    by lia.
  unfold norm_degree; cbv zeta.
  replace (Z.quot (n0 - 0 + 1) 1) with (n0 + 1)%Z
    by (rewrite Z.quot_1_r; lia).
  fold s1.
  destruct H2 as ((Hsc2 & Hfn2 & Hfm2 & Hk2 & Hc2 & Hcd2 & Hs2) & _ & _).
  set (s2 := iter_from (Z.to_nat (n0 + 1)) 0 (norm_body n0) s1) in *.
  split; [exact Hsc2|]; cbn [ns_gm ns_snorm].
  split; [|split; [|split; [|split; [|split]]]].
  - intros i; cbn -[upd].
    rewrite <- counted_before_next by lia.
    unfold upd; destruct (i =? n0)%Z; [reflexivity | apply Hfn2].
  - intros i; cbn -[upd].
    rewrite <- counted_before_next by lia.
    replace (n0 + 0)%Z with n0 by lia.
    unfold upd; destruct (i =? n0)%Z; [reflexivity | apply Hfm2].
  - intros i j; cbn; rewrite <- factors_before_next; apply Hk2.
  - intros i j; cbn; rewrite <- scaled_before_next; apply Hc2.
  - intros i j; cbn; rewrite <- scaled_before_next; apply Hcd2.
  - intros d o Ho Hturn; apply Hs2; lia.
Qed.

(** The tables when the loop over the degrees is left. *)
Lemma normalize_tables (snorm0 : array1) (g : GeoMag.t) :
  (0 <= GeoMag.maxord g < GeoMag.size g)%Z ->
  exists s : norm_state,
    norm_tables (GeoMag.set_fm g (upd (GeoMag.fm g) 0 0))
      (GeoMag.maxord g + 1) 0 s
    /\ normalize snorm0 g
       = GeoMag.set_p
           (GeoMag.set_k (ns_gm s) (upd2 (GeoMag.k (ns_gm s)) 1 1 0))
           (ns_snorm s).
Proof.
  intros Hmax.
  set (g1 := GeoMag.set_fm g (upd (GeoMag.fm g) 0 0)).
  set (s1 := mk_norm g1 (upd snorm0 0 1) 2).
  exists (iter_from (Z.to_nat (GeoMag.maxord g)) 1 norm_degree s1).
  split; [|reflexivity].
  assert (H1 : norm_tables g1 1 0 s1).
  { split; [repeat split|].
    split; [intros i; unfold counted_before; decide_indices|].
    split; [intros i; unfold counted_before; decide_indices|].
    split; [intros i j; unfold factors_before, turn_before;
            decide_indices|].
    split; [intros i j; unfold scaled_before, turn_before, entry_degree,
              entry_order;
            destruct (Z.max_spec i j) as [[? ->]|[? ->]];
            decide_indices|].
    split; [intros i j; unfold scaled_before, turn_before, entry_degree,
              entry_order;
            destruct (Z.max_spec i j) as [[? ->]|[? ->]];
            decide_indices|].
    intros d o Ho Hturn.
    assert (d = 0%Z) by lia; assert (o = 0%Z) by lia; subst d o.
    cbn [s1 ns_snorm]; replace (0 + 0 * GeoMag.size g1)%Z with 0%Z by lia.
    rewrite upd_same; reflexivity. }
  replace (GeoMag.maxord g + 1)%Z
    with (1 + Z.of_nat (Z.to_nat (GeoMag.maxord g)))%Z by lia.
  apply (iter_from_range 1 (GeoMag.maxord g + 1)
           (fun n s => norm_tables g1 n 0 s)).
  - intros n s Hn; apply norm_degree_tables.
    change (GeoMag.size g1) with (GeoMag.size g); lia.
  - lia.
  - lia.
  - exact H1.
Qed.

(** ** The outcome of [geomag_init] *)

Lemma geomag_init_sized (snorm0 : array1) (g : GeoMag.t)
    (file : option cof_file) (high_resolution : bool) :
  geomag_init snorm0 (Some g) (Some file) high_resolution
  = (fst (load_coefficients snorm0 (sized g high_resolution) file),
     Some (snd (load_coefficients snorm0 (sized g high_resolution) file))).
Proof.
  unfold geomag_init, sized, init_order.
  destruct high_resolution;
    destruct (load_coefficients _ _ _); reflexivity.
Qed.

(** [geomag_init] returns 0 or -1, and 0 exactly when both pointers are
    valid, the file opens, its header converts and the reading loop ends
    on one of its [break]s; the model is then the normalisation of what
    the reading loop stored.  When the file does not open, only
    [maxord] and [size] are written. *)
Theorem geomag_init_outcome :
  forall (snorm0 : array1) (geo_mag : option GeoMag.t)
         (coefficients_file : option (option cof_file))
         (high_resolution : bool),
    let out := geomag_init snorm0 geo_mag coefficients_file
                 high_resolution in
    (fst out = 0%Z \/ fst out = (-1)%Z)
    /\ (fst out = 0%Z <->
        exists g file e name date gr,
          geo_mag = Some g
          /\ coefficients_file = Some (Some file)
          /\ header file = Some (e, name, date)
          /\ read_records (before_reading g high_resolution e name date)
               (records file) = ReadDone gr
          /\ snd out = Some (normalize snorm0 gr))
    /\ (forall g, geo_mag = Some g ->
        coefficients_file = Some None ->
        out = ((-1)%Z, Some (sized g high_resolution))).
Proof.
  intros snorm0 geo_mag cf hr; cbv zeta.
  destruct geo_mag as [g|].
  2:{ cbn; split; [right; reflexivity|]; split.
      - split; [discriminate|].
        intros (g & file & e & name & date & gr & H & _); discriminate.
      - intros g H; discriminate. }
  destruct cf as [file|].
  2:{ cbn; split; [right; reflexivity|]; split.
      - split; [discriminate|].
        intros (g0 & file & e & name & date & gr & _ & H & _);
          discriminate.
      - intros g0 _ H; discriminate. }
  rewrite geomag_init_sized; cbn [fst snd].
  unfold load_coefficients, before_reading.
  destruct file as [[hdr rs]|]; cbn [header records].
  2:{ split; [right; reflexivity|]; split.
      - split; [discriminate|].
        intros (g0 & file & e & name & date & gr & _ & H & _);
          discriminate.
      - intros g0 Hg _; injection Hg as <-; reflexivity. }
  destruct hdr as [[[e name] date]|].
  2:{ cbn [fst snd]; split; [right; reflexivity|]; split.
      - split; [discriminate|].
        intros (g0 & file & e & name & date & gr & _ & Hf & Hh & _).
        injection Hf as <-; discriminate.
      - intros g0 _ H; discriminate. }
  destruct (read_records _ rs) as [gr|gr] eqn:Er; cbn [fst snd].
  - split; [left; reflexivity|]; split.
    + split; [|reflexivity].
      intros _; exists g, (mk_file (Some (e, name, date)) rs), e, name,
        date, gr.
      repeat split; exact Er.
    + intros g0 _ H; discriminate.
  - split; [right; reflexivity|]; split.
    + split; [discriminate|].
      intros (g0 & file & e' & name' & date' & gr' & Hg & Hf & Hh & Hr & _).
      injection Hg as <-; injection Hf as <-.
      cbn [header records] in Hh, Hr; injection Hh as <- <- <-.
      rewrite Er in Hr; discriminate.
    + intros g0 _ H; discriminate.
Qed.

Lemma geomag_init_outcome_witness :
  geomag_init (fun _ => 0) (Some no_model) (Some None) false
  = ((-1)%Z, Some (sized no_model false)).
Proof.
  destruct (geomag_init_outcome (fun _ => 0) (Some no_model) (Some None)
              false) as (_ & _ & H).
  apply H; reflexivity.
Defined.

Lemma geomag_init_success (snorm0 : array1) (g g' : GeoMag.t)
    (cf : option (option cof_file)) (hr : bool) :
  geomag_init snorm0 (Some g) cf hr = (0%Z, Some g') ->
  exists file e name date gr,
    cf = Some (Some file)
    /\ header file = Some (e, name, date)
    /\ read_records (before_reading g hr e name date) (records file)
       = ReadDone gr
    /\ g' = normalize snorm0 gr.
Proof.
  intros E.
  destruct cf as [file|]; [|discriminate E].
  rewrite geomag_init_sized in E.
  unfold load_coefficients in E.
  destruct file as [[hdr rs]|]; [|discriminate E].
  cbn [header records] in E.
  destruct hdr as [[[e name] date]|]; [|discriminate E].
  destruct (read_records _ rs) as [gr|gr] eqn:Er; cbn [fst snd] in E;
    [|discriminate E].
  injection E as <-.
  exists (mk_file (Some (e, name, date)) rs), e, name, date, gr.
  repeat split; exact Er.
Qed.

(** The reading loop writes the coefficient tables only. *)
Lemma store_record_frame (g : GeoMag.t) (r : cof_record) :
  same_scalars g (store_record g r)
  /\ GeoMag.k (store_record g r) = GeoMag.k g
  /\ GeoMag.fn (store_record g r) = GeoMag.fn g
  /\ GeoMag.fm (store_record g r) = GeoMag.fm g
  /\ GeoMag.p (store_record g r) = GeoMag.p g.
Proof.
  unfold store_record, same_scalars.
  destruct (rec_m r <=? rec_n r)%Z; [|repeat split].
  destruct (negb (rec_m r =? 0)%Z); repeat split.
Qed.

Lemma read_records_frame (rs : list cof_record) :
  forall g gr : GeoMag.t,
    read_records g rs = ReadDone gr ->
    same_scalars g gr
    /\ GeoMag.k gr = GeoMag.k g
    /\ GeoMag.fn gr = GeoMag.fn g
    /\ GeoMag.fm gr = GeoMag.fm g.
Proof.
  induction rs as [|r rs IH]; intros g gr E; cbn [read_records] in E.
  - injection E as <-; repeat split.
  - destruct (rec_n r =? 9999)%Z; [injection E as <-; repeat split|].
    destruct (GeoMag.maxord g <? rec_m r)%Z;
      [injection E as <-; repeat split|].
    destruct (corrupt_record g r); [discriminate|].
    destruct (IH _ _ E) as (Hsc & Hk & Hfn & Hfm).
    destruct (store_record_frame g r) as (Hsc' & Hk' & Hfn' & Hfm' & _).
    unfold same_scalars in *.
    repeat split; intuition congruence.
Qed.

Lemma init_order_bounds (hr : bool) :
  (0 <= init_order hr < init_order hr + 1)%Z.
Proof.
  unfold init_order, WMM_SIZE_HIGH_RESOLUTION, WMM_SIZE_STANDARD;
    destruct hr; lia.
Qed.

(** A successful [geomag_init] leaves the order 12 or 133 asked for,
    [size = maxord + 1], and the epoch, name and release date of the
    header of the file. *)
Theorem geomag_init_header :
  forall (snorm0 : array1) (g g' : GeoMag.t) (file : cof_file)
         (e : R) (name date : string) (high_resolution : bool),
    header file = Some (e, name, date) ->
    geomag_init snorm0 (Some g) (Some (Some file)) high_resolution
    = (0%Z, Some g') ->
    GeoMag.maxord g'
    = (if high_resolution then 133%Z else 12%Z)
    /\ GeoMag.size g' = (GeoMag.maxord g' + 1)%Z
    /\ GeoMag.epoch g' = e
    /\ GeoMag.model g' = name
    /\ GeoMag.release_date g' = date.
Proof.
  intros snorm0 g g' file e name date hr Hh E.
  destruct (geomag_init_success _ _ _ _ _ E)
    as (file' & e' & name' & date' & gr & Hf & Hh' & Hr & ->).
  injection Hf as <-; rewrite Hh in Hh'; injection Hh' as <- <- <-.
  destruct (read_records_frame _ _ _ Hr)
    as ((Hmax & Hsz & Hep & Hnm & Hrd) & _).
  cbn in Hmax, Hsz, Hep, Hnm, Hrd.
  pose proof (init_order_bounds hr) as Hb.
  destruct (normalize_tables snorm0 gr) as (s & (Hsc & _) & ->);
    [rewrite Hmax, Hsz; exact Hb|].
  destruct Hsc as (Hmax' & Hsz' & Hep' & Hnm' & Hrd').
  cbn in Hmax', Hsz', Hep', Hnm', Hrd' |- *.
  rewrite Hmax', Hsz', Hep', Hnm', Hrd', Hmax, Hsz, Hep, Hnm, Hrd.
  unfold init_order, WMM_SIZE_HIGH_RESOLUTION, WMM_SIZE_STANDARD.
  destruct hr; repeat split.
Qed.

Lemma geomag_init_header_witness :
  GeoMag.maxord dipole_model = (if false then 133%Z else 12%Z)
  /\ GeoMag.size dipole_model = (GeoMag.maxord dipole_model + 1)%Z
  /\ GeoMag.epoch dipole_model = 2025
  /\ GeoMag.model dipole_model = "WMM-2025"%string
  /\ GeoMag.release_date dipole_model = "11/13/2024"%string.
Proof.
  apply (geomag_init_header (fun _ => 0) no_model dipole_model dipole_file
           2025 "WMM-2025" "11/13/2024" false).
  - reflexivity.
  - exact geomag_init_dipole.
Defined.

(** What a successful [geomag_init] went through. *)
Lemma geomag_init_tables (snorm0 : array1) (g g' : GeoMag.t)
    (cf : option (option cof_file)) (hr : bool) :
  geomag_init snorm0 (Some g) cf hr = (0%Z, Some g') ->
  exists (gr : GeoMag.t) (s : norm_state),
    GeoMag.maxord gr = init_order hr
    /\ GeoMag.size gr = (init_order hr + 1)%Z
    /\ GeoMag.k gr = zeros2
    /\ (exists file e name date,
          cf = Some (Some file)
          /\ header file = Some (e, name, date)
          /\ read_records (before_reading g hr e name date) (records file)
             = ReadDone gr)
    /\ norm_tables (GeoMag.set_fm gr (upd (GeoMag.fm gr) 0 0))
         (init_order hr + 1) 0 s
    /\ g' = GeoMag.set_p
              (GeoMag.set_k (ns_gm s) (upd2 (GeoMag.k (ns_gm s)) 1 1 0))
              (ns_snorm s).
Proof.
  intros E.
  destruct (geomag_init_success _ _ _ _ _ E)
    as (file & e & name & date & gr & Hf & Hh & Hr & ->).
  destruct (read_records_frame _ _ _ Hr)
    as ((Hmax & Hsz & _) & Hk & _).
  cbn in Hmax, Hsz, Hk.
  pose proof (init_order_bounds hr) as Hb.
  destruct (normalize_tables snorm0 gr) as (s & Ht & En);
    [rewrite Hmax, Hsz; exact Hb|].
  rewrite Hmax in Ht.
  exists gr, s.
  split; [exact Hmax|]; split; [exact Hsz|]; split; [exact Hk|].
  split; [exists file, e, name, date; auto|].
  split; [exact Ht | exact En].
Qed.

(** After a successful [geomag_init], [fm[0] = 0] and, for every degree
    [n] from 1 to [maxord], [fn[n] = n + 1] and [fm[n] = n]. *)
Theorem geomag_init_degree_tables :
  forall (snorm0 : array1) (g g' : GeoMag.t)
         (cf : option (option cof_file)) (high_resolution : bool),
    geomag_init snorm0 (Some g) cf high_resolution = (0%Z, Some g') ->
    GeoMag.fm g' 0%Z = 0
    /\ forall n : Z,
         (1 <= n <= GeoMag.maxord g')%Z ->
         GeoMag.fn g' n = IZR (n + 1) /\ GeoMag.fm g' n = IZR n.
Proof.
  intros snorm0 g g' cf hr E.
  destruct (geomag_init_tables _ _ _ _ _ E)
    as (gr & s & Hmax & Hsz & _ & _ & Ht & ->).
  destruct Ht as ((Hmax' & _) & Hfn & Hfm & _).
  cbn in Hmax' |- *; rewrite Hmax', Hmax.
  split.
  - rewrite Hfm; unfold counted_before; cbn; reflexivity.
  - intros n Hn; rewrite Hfn, Hfm; unfold counted_before.
    replace ((1 <=? n)%Z && (n <? init_order hr + 1)%Z)%bool with true
      by (symmetry; apply andb_true_intro; split;
          [apply Z.leb_le | apply Z.ltb_lt]; lia).
    replace (n + 0)%Z with n by lia; split; reflexivity.
Qed.

Lemma geomag_init_degree_tables_witness :
  GeoMag.fm dipole_model 0%Z = 0
  /\ forall n : Z,
       (1 <= n <= GeoMag.maxord dipole_model)%Z ->
       GeoMag.fn dipole_model n = IZR (n + 1)
       /\ GeoMag.fm dipole_model n = IZR n.
Proof.
  apply (geomag_init_degree_tables (fun _ => 0) no_model dipole_model
           (Some (Some dipole_file)) false).
  exact geomag_init_dipole.
Defined.

(** After a successful [geomag_init], [k[m][n]] holds
    [((n-1)^2 - m^2) / ((2n-1) (2n-3))] for every degree [n] from 1 to
    [maxord] and order [m] from 0 to [n], except [k[1][1]], which is 0. *)
Theorem geomag_init_recursion_factors :
  forall (snorm0 : array1) (g g' : GeoMag.t)
         (cf : option (option cof_file)) (high_resolution : bool),
    geomag_init snorm0 (Some g) cf high_resolution = (0%Z, Some g') ->
    GeoMag.k g' 1%Z 1%Z = 0
    /\ forall n m : Z,
         (1 <= n <= GeoMag.maxord g')%Z -> (0 <= m <= n)%Z ->
         (n <> 1 \/ m <> 1)%Z ->
         GeoMag.k g' m n
         = IZR ((n - 1) * (n - 1) - m * m)
           / IZR ((2 * n - 1) * (2 * n - 3)).
Proof.
  intros snorm0 g g' cf hr E.
  destruct (geomag_init_tables _ _ _ _ _ E)
    as (gr & s & Hmax & Hsz & _ & _ & Ht & ->).
  destruct Ht as ((Hmax' & _) & _ & _ & Hk & _).
  cbn -[upd2] in Hmax' |- *; rewrite Hmax', Hmax.
  split; [apply upd2_same|].
  intros n m Hn Hm Hne.
  rewrite upd2_other by lia.
  rewrite Hk; unfold factors_before, turn_before.
  fold (recursion_factor n m).
  decide_indices.
Qed.

Lemma geomag_init_recursion_factors_witness :
  GeoMag.k dipole_model 1%Z 1%Z = 0
  /\ forall n m : Z,
       (1 <= n <= GeoMag.maxord dipole_model)%Z -> (0 <= m <= n)%Z ->
       (n <> 1 \/ m <> 1)%Z ->
       GeoMag.k dipole_model m n
       = IZR ((n - 1) * (n - 1) - m * m)
         / IZR ((2 * n - 1) * (2 * n - 3)).
Proof.
  apply (geomag_init_recursion_factors (fun _ => 0) no_model dipole_model
           (Some (Some dipole_file)) false).
  exact geomag_init_dipole.
Defined.

(** After a successful [geomag_init], [p[n + m * size]] holds the
    normalisation factor of degree [n] and order [m], for every degree
    from 0 to [maxord] and order from 0 to the degree. *)
Theorem geomag_init_schmidt_table :
  forall (snorm0 : array1) (g g' : GeoMag.t)
         (cf : option (option cof_file)) (high_resolution : bool),
    geomag_init snorm0 (Some g) cf high_resolution = (0%Z, Some g') ->
    forall n m : Z,
      (0 <= m <= n)%Z -> (n <= GeoMag.maxord g')%Z ->
      GeoMag.p g' (n + m * GeoMag.size g')%Z = schmidtZ n m.
Proof.
  intros snorm0 g g' cf hr E n m Hm Hn.
  destruct (geomag_init_tables _ _ _ _ _ E)
    as (gr & s & Hmax & Hsz & _ & _ & Ht & ->).
  destruct Ht as ((Hmax' & Hsz' & _) & _ & _ & _ & _ & _ & Hs).
  cbn in Hmax', Hsz', Hs, Hn |- *.
  rewrite Hsz'; apply Hs; lia.
Qed.

Lemma geomag_init_schmidt_table_witness :
  geomag_init (fun _ => 0) (Some no_model) (Some (Some dipole_file)) false
  = (0%Z, Some dipole_model)
  /\ (0 <= 2 <= 3)%Z
  /\ (3 <= GeoMag.maxord dipole_model)%Z
  /\ GeoMag.p dipole_model (3 + 2 * GeoMag.size dipole_model)%Z
     = schmidtZ 3 2.
Proof.
  assert (Hm : (0 <= 2 <= 3)%Z) by lia.
  assert (Hn : (3 <= GeoMag.maxord dipole_model)%Z)
    by (destruct dipole_model_shape as (-> & _); lia).
  split; [exact geomag_init_dipole|]; split; [exact Hm|];
    split; [exact Hn|].
  exact (geomag_init_schmidt_table (fun _ => 0) no_model dipole_model
           (Some (Some dipole_file)) false geomag_init_dipole 3 2 Hm Hn).
Defined.

(** ** From the records of the file to the tables *)

(** The records before the stop are stored one after the other. *)
Lemma read_records_stored (pre tail : list cof_record) :
  forall g : GeoMag.t,
    Forall (ingested g) pre ->
    stops_reading g tail ->
    read_records g (pre ++ tail) = ReadDone (fold_left store_record pre g).
Proof.
  induction pre as [|r pre IH]; intros g Hall Hstop.
  - cbn [app fold_left]; destruct tail as [|r rest]; [reflexivity|].
    cbn [read_records stops_reading] in *.
    destruct (rec_n r =? 9999)%Z eqn:E1; [reflexivity|].
    destruct (GeoMag.maxord g <? rec_m r)%Z eqn:E2; [reflexivity|].
    apply Z.eqb_neq in E1; apply Z.ltb_ge in E2; lia.
  - inversion Hall as [|? ? Hr Hpre]; subst.
    cbn [app fold_left]; rewrite read_records_ingested by exact Hr.
    apply IH.
    + eapply Forall_impl; [|exact Hpre].
      intros r'; apply ingested_store.
    + destruct tail as [|r' rest]; [exact I|].
      cbn [stops_reading] in *.
      destruct (store_record_bounds g r) as [-> _]; exact Hstop.
Qed.

(** The coefficients of a record, once stored. *)
Lemma store_record_lookup (g : GeoMag.t) (r : cof_record) :
  (rec_m r <= rec_n r)%Z ->
  let g' := store_record g r in
  GeoMag.c g' (rec_m r) (rec_n r) = rec_gnm r
  /\ GeoMag.cd g' (rec_m r) (rec_n r) = rec_dgnm r
  /\ (rec_m r <> 0%Z ->
      GeoMag.c g' (rec_n r) (rec_m r - 1)%Z = rec_hnm r
      /\ GeoMag.cd g' (rec_n r) (rec_m r - 1)%Z = rec_dhnm r).
Proof.
  intros Hmn; cbv zeta; unfold store_record.
  replace (rec_m r <=? rec_n r)%Z with true
    by (symmetry; apply Z.leb_le; exact Hmn).
  destruct (Z.eqb_spec (rec_m r) 0) as [E|E]; cbn -[upd2].
  - rewrite !upd2_same.
    split; [reflexivity|]; split; [reflexivity|].
    intros Hm; contradiction.
  - rewrite !upd2_same.
    rewrite !(upd2_other _ (rec_n r) (rec_m r - 1)) by lia.
    rewrite !upd2_same.
    split; [reflexivity|]; split; [reflexivity|].
    intros _; split; reflexivity.
Qed.

(** Storing a record writes the entries of its degree and order only:
    [m][n], and [n][m - 1] when [m] is not 0. *)
Lemma store_record_elsewhere (g : GeoMag.t) (r : cof_record) (i j : Z) :
  (i <> rec_m r \/ j <> rec_n r)%Z ->
  (i <> rec_n r \/ j <> rec_m r - 1 \/ rec_m r = 0)%Z ->
  GeoMag.c (store_record g r) i j = GeoMag.c g i j
  /\ GeoMag.cd (store_record g r) i j = GeoMag.cd g i j.
Proof.
  intros H1 H2; unfold store_record.
  destruct (rec_m r <=? rec_n r)%Z; [|split; reflexivity].
  destruct (Z.eqb_spec (rec_m r) 0) as [E|E]; cbn -[upd2].
  - rewrite !upd2_other by exact H1; split; reflexivity.
  - rewrite !(upd2_other _ (rec_n r) (rec_m r - 1)) by lia.
    rewrite !upd2_other by exact H1; split; reflexivity.
Qed.

(** The packing of the two triangles: the two entries of a degree and
    order are not those of another degree and order. *)
Lemma store_record_other_key (g : GeoMag.t) (r r' : cof_record) :
  (0 <= rec_m r <= rec_n r)%Z ->
  (0 <= rec_m r' <= rec_n r')%Z ->
  record_key r' <> record_key r ->
  let g' := store_record g r' in
  GeoMag.c g' (rec_m r) (rec_n r) = GeoMag.c g (rec_m r) (rec_n r)
  /\ GeoMag.cd g' (rec_m r) (rec_n r) = GeoMag.cd g (rec_m r) (rec_n r)
  /\ (rec_m r <> 0%Z ->
      GeoMag.c g' (rec_n r) (rec_m r - 1)%Z
      = GeoMag.c g (rec_n r) (rec_m r - 1)%Z
      /\ GeoMag.cd g' (rec_n r) (rec_m r - 1)%Z
         = GeoMag.cd g (rec_n r) (rec_m r - 1)%Z).
Proof.
  intros Hr Hr' Hkey; cbv zeta.
  assert (Hne : rec_n r' <> rec_n r \/ rec_m r' <> rec_m r).
  { destruct (Z.eq_dec (rec_n r') (rec_n r)) as [En|]; [|left; assumption].
    destruct (Z.eq_dec (rec_m r') (rec_m r)) as [Em|];
      [|right; assumption].
    exfalso; apply Hkey; unfold record_key; congruence. }
  destruct (store_record_elsewhere g r' (rec_m r) (rec_n r))
    as [E1 E2]; [lia | lia |].
  split; [exact E1|]; split; [exact E2|].
  intros Hm.
  apply store_record_elsewhere; lia.
Qed.

Lemma fold_store_elsewhere (pre : list cof_record) :
  forall (g : GeoMag.t) (n m : Z),
    (0 <= m <= n)%Z ->
    Forall (fun r => (0 <= rec_m r <= rec_n r)%Z) pre ->
    ~ In (n, m) (map record_key pre) ->
    let g' := fold_left store_record pre g in
    GeoMag.c g' m n = GeoMag.c g m n
    /\ GeoMag.cd g' m n = GeoMag.cd g m n
    /\ (m <> 0%Z ->
        GeoMag.c g' n (m - 1)%Z = GeoMag.c g n (m - 1)%Z
        /\ GeoMag.cd g' n (m - 1)%Z = GeoMag.cd g n (m - 1)%Z).
Proof.
  induction pre as [|r0 pre IH]; intros g n m Hm Hall Hnot; cbv zeta.
  - cbn [fold_left]; repeat split.
  - inversion Hall as [|? ? Hr0 Hpre]; subst.
    cbn [fold_left map In] in *.
    assert (Hne : rec_n r0 <> n \/ rec_m r0 <> m).
    { destruct (Z.eq_dec (rec_n r0) n) as [En|]; [|left; assumption].
      destruct (Z.eq_dec (rec_m r0) m) as [Em|]; [|right; assumption].
      exfalso; apply Hnot; left; unfold record_key; congruence. }
    destruct (IH (store_record g r0) n m Hm Hpre) as (E1 & E2 & E3);
      [intros H; apply Hnot; right; exact H|].
    destruct (store_record_elsewhere g r0 m n) as [S1 S2]; [lia | lia |].
    rewrite E1, E2, S1, S2.
    split; [reflexivity|]; split; [reflexivity|].
    intros Hm0; destruct (E3 Hm0) as [-> ->].
    apply store_record_elsewhere; lia.
Qed.

Lemma fold_store_lookup (pre : list cof_record) :
  forall (g : GeoMag.t) (r : cof_record),
    Forall (fun r => (0 <= rec_m r <= rec_n r)%Z) pre ->
    NoDup (map record_key pre) ->
    In r pre ->
    let g' := fold_left store_record pre g in
    GeoMag.c g' (rec_m r) (rec_n r) = rec_gnm r
    /\ GeoMag.cd g' (rec_m r) (rec_n r) = rec_dgnm r
    /\ (rec_m r <> 0%Z ->
        GeoMag.c g' (rec_n r) (rec_m r - 1)%Z = rec_hnm r
        /\ GeoMag.cd g' (rec_n r) (rec_m r - 1)%Z = rec_dhnm r).
Proof.
  induction pre as [|r0 pre IH]; intros g r Hall Hnd Hin; cbv zeta.
  - contradiction.
  - inversion Hall as [|? ? Hr0 Hpre]; subst.
    cbn [map] in Hnd; inversion Hnd as [|? ? Hnot Hnd']; subst.
    cbn [fold_left].
    destruct Hin as [->|Hin]; [|apply IH; assumption].
    destruct (fold_store_elsewhere pre (store_record g r) (rec_n r)
                (rec_m r) Hr0 Hpre Hnot) as (E1 & E2 & E3).
    destruct (store_record_lookup g r) as (L1 & L2 & L3); [lia|].
    rewrite E1, E2, L1, L2.
    split; [reflexivity|]; split; [reflexivity|].
    intros Hm0; destruct (E3 Hm0) as [-> ->]; apply L3; exact Hm0.
Qed.

Lemma scaled_before_done (M : Z) (c0 : array2) (n m : Z) :
  (0 <= m <= n)%Z -> (n <= M)%Z ->
  scaled_before (M + 1) 0 c0 m n = schmidtZ n m * c0 m n
  /\ (m <> 0%Z ->
      scaled_before (M + 1) 0 c0 n (m - 1)%Z
      = schmidtZ n m * c0 n (m - 1)%Z).
Proof.
  intros Hm Hn; unfold scaled_before, turn_before, entry_degree,
    entry_order.
  split.
  - rewrite (Z.max_r m n) by lia.
    decide_indices.
    assert (n = 0%Z) by lia; assert (m = 0%Z) by lia; subst.
    rewrite schmidtZ_0_0; ring.
  - intros Hm0; rewrite (Z.max_l n (m - 1)) by lia.
    replace (m - 1 + 1)%Z with m by lia.
    decide_indices.
Qed.

(** A file whose header converts and whose records, up to the end of
    the stream or to a record that stops the reading, are valid and of
    distinct degree and order: [geomag_init] succeeds; each record
    [(n, m, g, h, gDot, hDot)] is found in the tables multiplied by the
    factor of its degree and order, [g] at [c[m][n]], [gDot] at
    [cd[m][n]] and, when [m] is not 0, [h] at [c[n][m-1]] and [hDot] at
    [cd[n][m-1]]; a degree and order without a record has zeros
    there. *)
Theorem geomag_init_coefficients :
  forall (snorm0 : array1) (g : GeoMag.t) (high_resolution : bool)
         (e : R) (name date : string) (pre tail : list cof_record),
    Forall (ingested (sized g high_resolution)) pre ->
    NoDup (map record_key pre) ->
    stops_reading (sized g high_resolution) tail ->
    exists g' : GeoMag.t,
      geomag_init snorm0 (Some g)
        (Some (Some (mk_file (Some (e, name, date)) (pre ++ tail))))
        high_resolution = (0%Z, Some g')
      /\ (forall r : cof_record,
            In r pre ->
            let n := rec_n r in
            let m := rec_m r in
            GeoMag.c g' m n = schmidtZ n m * rec_gnm r
            /\ GeoMag.cd g' m n = schmidtZ n m * rec_dgnm r
            /\ (m <> 0%Z ->
                GeoMag.c g' n (m - 1)%Z = schmidtZ n m * rec_hnm r
                /\ GeoMag.cd g' n (m - 1)%Z = schmidtZ n m * rec_dhnm r))
      /\ (forall n m : Z,
            (0 <= m <= n)%Z ->
            ~ In (n, m) (map record_key pre) ->
            GeoMag.c g' m n = 0
            /\ GeoMag.cd g' m n = 0
            /\ (m <> 0%Z ->
                GeoMag.c g' n (m - 1)%Z = 0
                /\ GeoMag.cd g' n (m - 1)%Z = 0)).
Proof.
  intros snorm0 g hr e name date pre tail Hall Hnd Hstop.
  set (g0 := before_reading g hr e name date).
  assert (Hall0 : Forall (ingested g0) pre) by exact Hall.
  assert (Hstop0 : stops_reading g0 tail) by exact Hstop.
  pose proof (read_records_stored pre tail g0 Hall0 Hstop0) as Hread.
  set (gr := fold_left store_record pre g0) in *.
  assert (Hvalid : Forall (fun r => (0 <= rec_m r <= rec_n r)%Z) pre).
  { eapply Forall_impl; [|exact Hall].
    intros r (_ & _ & H & _); exact H. }
  exists (normalize snorm0 gr); split.
  { rewrite geomag_init_sized.
    unfold load_coefficients; cbn [header records].
    fold (before_reading g hr e name date); fold g0.
    rewrite Hread; reflexivity. }
  destruct (read_records_frame _ _ _ Hread) as ((Hmax & Hsz & _) & _).
  cbn in Hmax, Hsz.
  pose proof (init_order_bounds hr) as Hb.
  destruct (normalize_tables snorm0 gr) as (s & Ht & En);
    [rewrite Hmax, Hsz; exact Hb|].
  destruct Ht as (_ & _ & _ & _ & Hc & Hcd & _).
  cbn in Hc, Hcd.
  assert (Ec : forall i j, GeoMag.c (normalize snorm0 gr) i j
                           = scaled_before (GeoMag.maxord gr + 1) 0
                               (GeoMag.c gr) i j).
  { intros i j; rewrite En; cbn; apply Hc. }
  assert (Ecd : forall i j, GeoMag.cd (normalize snorm0 gr) i j
                            = scaled_before (GeoMag.maxord gr + 1) 0
                                (GeoMag.cd gr) i j).
  { intros i j; rewrite En; cbn; apply Hcd. }
  split.
  - intros r Hin; cbv zeta.
    destruct (fold_store_lookup pre g0 r Hvalid Hnd Hin)
      as (L1 & L2 & L3); fold gr in L1, L2, L3.
    assert (Hr : ingested (sized g hr) r)
      by (eapply Forall_forall; [exact Hall | exact Hin]).
    destruct Hr as (_ & _ & Hmn & Hns & _).
    cbn in Hns.
    destruct (scaled_before_done (GeoMag.maxord gr) (GeoMag.c gr)
                (rec_n r) (rec_m r)) as [C1 C2]; [lia | lia |].
    destruct (scaled_before_done (GeoMag.maxord gr) (GeoMag.cd gr)
                (rec_n r) (rec_m r)) as [D1 D2]; [lia | lia |].
    rewrite !Ec, !Ecd, C1, D1, L1, L2.
    split; [reflexivity|]; split; [reflexivity|].
    intros Hm0; destruct (L3 Hm0) as [L4 L5].
    rewrite (C2 Hm0), (D2 Hm0), L4, L5; split; reflexivity.
  - intros n m Hm Hnot.
    destruct (fold_store_elsewhere pre g0 n m Hm Hvalid Hnot)
      as (E1 & E2 & E3); fold gr in E1, E2, E3.
    assert (Z0 : forall i j, zero_at i j g0).
    { intros i j; unfold zero_at, g0, before_reading, clear_tables;
        cbn -[upd2]; unfold upd2, zeros2.
      split; destruct (_ && _)%bool; reflexivity. }
    assert (Z1 : zero_at m n (normalize snorm0 gr)).
    { apply normalize_zero_at; unfold zero_at; rewrite E1, E2.
      apply Z0. }
    destruct Z1 as [Z1 Z1'].
    split; [exact Z1|]; split; [exact Z1'|].
    intros Hm0; destruct (E3 Hm0) as [E4 E5].
    apply normalize_zero_at; unfold zero_at; rewrite E4, E5; apply Z0.
Qed.

Lemma geomag_init_coefficients_witness :
  exists g' : GeoMag.t,
    geomag_init (fun _ => 0) (Some no_model)
      (Some (Some (mk_file (Some (2025, "WMM-2025"%string,
                                  "11/13/2024"%string))
                     ([record_1_0] ++ [end_marker; record_3_5]))))
      false = (0%Z, Some g')
    /\ (forall r : cof_record,
          In r [record_1_0] ->
          let n := rec_n r in
          let m := rec_m r in
          GeoMag.c g' m n = schmidtZ n m * rec_gnm r
          /\ GeoMag.cd g' m n = schmidtZ n m * rec_dgnm r
          /\ (m <> 0%Z ->
              GeoMag.c g' n (m - 1)%Z = schmidtZ n m * rec_hnm r
              /\ GeoMag.cd g' n (m - 1)%Z = schmidtZ n m * rec_dhnm r))
    /\ (forall n m : Z,
          (0 <= m <= n)%Z ->
          ~ In (n, m) (map record_key [record_1_0]) ->
          GeoMag.c g' m n = 0
          /\ GeoMag.cd g' m n = 0
          /\ (m <> 0%Z ->
              GeoMag.c g' n (m - 1)%Z = 0
              /\ GeoMag.cd g' n (m - 1)%Z = 0)).
Proof.
  apply (geomag_init_coefficients (fun _ => 0) no_model false 2025
           "WMM-2025" "11/13/2024" [record_1_0] [end_marker; record_3_5]).
  - constructor; [|constructor].
    unfold ingested, sized, init_order, WMM_SIZE_STANDARD; simpl; lia.
  - constructor; [intros H; exact H | constructor].
  - left; reflexivity.
Defined.

(** ** Two runs of the main loop *)

Lemma iter_from_range2 {S : Type} (lo hi : Z) (P : Z -> S -> S -> Prop)
    (bodyA bodyB : Z -> S -> S) :
  (forall i a b, (lo <= i < hi)%Z -> P i a b ->
                 P (i + 1)%Z (bodyA i a) (bodyB i b)) ->
  forall turns i a b,
    (lo <= i)%Z -> (i + Z.of_nat turns <= hi)%Z ->
    P i a b ->
    P (i + Z.of_nat turns)%Z
      (iter_from turns i bodyA a) (iter_from turns i bodyB b).
Proof.
  intros Hbody turns; induction turns as [|turns IH];
    intros i a b Hlo Hhi Hab.
  - replace (i + Z.of_nat 0)%Z with i by lia; exact Hab.
  - cbn [iter_from].
    replace (i + Z.of_nat (Datatypes.S turns))%Z
      with (i + 1 + Z.of_nat turns)%Z by lia.
    apply IH; [lia | lia | apply Hbody; [lia | exact Hab]].
Qed.

(** The Legendre functions of a turn are computed from those of the
    turns done, and from zeros the turn itself writes. *)
Lemma legendre_step_agree (st ct : R) (sz n0 m0 : Z) (gA gB : GeoMag.t)
    (dpA dpB : array2) :
  (1 <= n0 < sz)%Z -> (0 <= m0 <= n0)%Z ->
  GeoMag.size gA = sz -> GeoMag.size gB = sz ->
  GeoMag.k gB m0 n0 = GeoMag.k gA m0 n0 ->
  legendre_agree sz n0 m0 (GeoMag.p gA) (GeoMag.p gB) dpA dpB ->
  legendre_agree sz n0 (m0 + 1)
    (GeoMag.p (fst (legendre_step st ct n0 m0 gA dpA)))
    (GeoMag.p (fst (legendre_step st ct n0 m0 gB dpB)))
    (snd (legendre_step st ct n0 m0 gA dpA))
    (snd (legendre_step st ct n0 m0 gB dpB)).
Proof.
  intros Hn Hm HszA HszB Hk H.
  assert (Hp : forall d o, done_before n0 m0 d o ->
                           GeoMag.p gA (d + o * sz)%Z
                           = GeoMag.p gB (d + o * sz)%Z)
    by (intros d o Hd; apply H; exact Hd).
  assert (Hdp : forall d o, done_before n0 m0 d o -> dpA o d = dpB o d)
    by (intros d o Hd; apply H; exact Hd).
  (* an entry other than that of this turn *)
  assert (Hother : forall d o,
             done_before n0 (m0 + 1) d o -> (d <> n0 \/ o <> m0)%Z ->
             done_before n0 m0 d o
             /\ (d + o * sz)%Z <> (n0 + m0 * sz)%Z
             /\ ((1 < n0)%Z -> (d + o * sz)%Z <> (n0 - 2 + m0 * sz)%Z
                               \/ (m0 <= n0 - 2)%Z)).
  { intros d o [Ho Hd] Hne; unfold done_before.
    split; [lia|]; split.
    - intros E.
      destruct (flat_index_inj sz d o n0 m0) as [E1 E2]; lia.
    - intros Hn1.
      destruct (Z_le_gt_dec m0 (n0 - 2)) as [|Hgt]; [right; assumption|].
      left; intros E.
      destruct (flat_index_inj sz d o (n0 - 2) m0) as [E1 E2]; lia. }
  unfold legendre_step; rewrite HszA, HszB.
  destruct (Z.eqb_spec n0 m0) as [Enm|Enm].
  - (* the diagonal *)
    cbn [fst snd GeoMag.p GeoMag.set_p].
    assert (Hd1 : done_before n0 m0 (n0 - 1) (m0 - 1))
      by (unfold done_before; lia).
    pose proof (Hp _ _ Hd1) as Ep; pose proof (Hdp _ _ Hd1) as Edp.
    assert (Hidx : (n0 - 1 + (m0 - 1) * sz)%Z <> (n0 + m0 * sz)%Z) by nia.
    intros d o Hdone.
    destruct (Z.eq_dec d n0) as [->|Hd];
      [destruct (Z.eq_dec o m0) as [->|Ho]|].
    + rewrite !upd_same, !upd2_same, !(upd_other _ _ _ _ Hidx).
      rewrite Ep, Edp; split; reflexivity.
    + destruct (Hother n0 o Hdone) as (Hold & Hi & _); [lia|].
      rewrite !(upd_other _ _ _ _ Hi), !upd2_other by lia.
      split; [apply Hp | apply Hdp]; exact Hold.
    + destruct (Hother d o Hdone) as (Hold & Hi & _); [lia|].
      rewrite !(upd_other _ _ _ _ Hi), !upd2_other by lia.
      split; [apply Hp | apply Hdp]; exact Hold.
  - destruct (Z.eqb_spec n0 1) as [En1|En1];
      destruct (Z.eqb_spec m0 0) as [Em0|Em0]; cbn [andb].
    + (* degree 1, order 0 *)
      cbn [fst snd GeoMag.p GeoMag.set_p].
      assert (Hd1 : done_before n0 m0 (n0 - 1) m0)
        by (unfold done_before; lia).
      pose proof (Hp _ _ Hd1) as Ep; pose proof (Hdp _ _ Hd1) as Edp.
      assert (Hidx : (n0 - 1 + m0 * sz)%Z <> (n0 + m0 * sz)%Z) by lia.
      intros d o Hdone.
      destruct (Z.eq_dec d n0) as [->|Hd];
        [destruct (Z.eq_dec o m0) as [->|Ho]|].
      * rewrite !upd_same, !upd2_same, !(upd_other _ _ _ _ Hidx).
        rewrite Ep, Edp; split; reflexivity.
      * destruct (Hother n0 o Hdone) as (Hold & Hi & _); [lia|].
        rewrite !(upd_other _ _ _ _ Hi), !upd2_other by lia.
        split; [apply Hp | apply Hdp]; exact Hold.
      * destruct (Hother d o Hdone) as (Hold & Hi & _); [lia|].
        rewrite !(upd_other _ _ _ _ Hi), !upd2_other by lia.
        split; [apply Hp | apply Hdp]; exact Hold.
    + lia.
    + (* above degree 1, order 0 *)
      destruct (Z.ltb_spec 1 n0) as [Hn1|]; [|lia].
      cbn [andb negb].
      assert (Hd1 : done_before n0 m0 (n0 - 1) m0)
        by (unfold done_before; lia).
      pose proof (Hp _ _ Hd1) as Ep1; pose proof (Hdp _ _ Hd1) as Edp1.
      destruct (Z.ltb_spec (n0 - 2) m0) as [Hz|Hz].
      * cbn [fst snd GeoMag.p GeoMag.set_p GeoMag.k GeoMag.set_k].
        assert (Hi1 : (n0 - 1 + m0 * sz)%Z <> (n0 + m0 * sz)%Z) by lia.
        assert (Hi2 : (n0 - 1 + m0 * sz)%Z <> (n0 - 2 + m0 * sz)%Z) by lia.
        assert (Hi3 : (n0 - 2 + m0 * sz)%Z <> (n0 + m0 * sz)%Z) by lia.
        intros d o Hdone.
        destruct (Z.eq_dec d n0) as [->|Hd];
          [destruct (Z.eq_dec o m0) as [->|Ho]|].
        -- rewrite !upd_same, !upd2_same.
           rewrite !(upd_other _ _ _ _ Hi1), !(upd_other _ _ _ _ Hi2).
           rewrite ?upd_same.
           rewrite !(upd2_other _ m0 (n0 - 2) 0 m0 (n0 - 1)) by lia.
           rewrite ?upd2_same, Ep1, Edp1, Hk; split; reflexivity.
        -- destruct (Hother n0 o Hdone) as (Hold & Hi & Hzi); [lia|].
           destruct (Hzi Hn1) as [Hzi'|]; [|lia].
           rewrite !(upd_other _ _ _ _ Hi), !(upd_other _ _ _ _ Hzi').
           rewrite !(upd2_other _ m0 n0) by lia.
           rewrite !(upd2_other _ m0 (n0 - 2)) by lia.
           split; [apply Hp | apply Hdp]; exact Hold.
        -- destruct (Hother d o Hdone) as (Hold & Hi & Hzi); [lia|].
           destruct (Hzi Hn1) as [Hzi'|]; [|lia].
           rewrite !(upd_other _ _ _ _ Hi), !(upd_other _ _ _ _ Hzi').
           rewrite !(upd2_other _ m0 n0) by lia.
           assert (Hdone' : (0 <= o <= d)%Z) by (destruct Hdone; lia).
           rewrite !(upd2_other _ m0 (n0 - 2)) by lia.
           split; [apply Hp | apply Hdp]; exact Hold.
      * cbn [fst snd GeoMag.p GeoMag.set_p GeoMag.k GeoMag.set_k].
        assert (Hd2 : done_before n0 m0 (n0 - 2) m0)
          by (unfold done_before; lia).
        pose proof (Hp _ _ Hd2) as Ep2; pose proof (Hdp _ _ Hd2) as Edp2.
        assert (Hi1 : (n0 - 1 + m0 * sz)%Z <> (n0 + m0 * sz)%Z) by lia.
        intros d o Hdone.
        destruct (Z.eq_dec d n0) as [->|Hd];
          [destruct (Z.eq_dec o m0) as [->|Ho]|].
        -- rewrite !upd_same, !upd2_same, !(upd_other _ _ _ _ Hi1).
           rewrite Ep1, Edp1, Ep2, Edp2, Hk; split; reflexivity.
        -- destruct (Hother n0 o Hdone) as (Hold & Hi & _); [lia|].
           rewrite !(upd_other _ _ _ _ Hi), !upd2_other by lia.
           split; [apply Hp | apply Hdp]; exact Hold.
        -- destruct (Hother d o Hdone) as (Hold & Hi & _); [lia|].
           rewrite !(upd_other _ _ _ _ Hi), !upd2_other by lia.
           split; [apply Hp | apply Hdp]; exact Hold.
    + (* above degree 1, below the diagonal *)
      destruct (Z.ltb_spec 1 n0) as [Hn1|]; [|lia].
      cbn [andb negb].
      assert (Hd1 : done_before n0 m0 (n0 - 1) m0)
        by (unfold done_before; lia).
      pose proof (Hp _ _ Hd1) as Ep1; pose proof (Hdp _ _ Hd1) as Edp1.
      destruct (Z.ltb_spec (n0 - 2) m0) as [Hz|Hz].
      * cbn [fst snd GeoMag.p GeoMag.set_p GeoMag.k GeoMag.set_k].
        assert (Hi1 : (n0 - 1 + m0 * sz)%Z <> (n0 + m0 * sz)%Z) by lia.
        assert (Hi2 : (n0 - 1 + m0 * sz)%Z <> (n0 - 2 + m0 * sz)%Z) by lia.
        assert (Hi3 : (n0 - 2 + m0 * sz)%Z <> (n0 + m0 * sz)%Z) by lia.
        intros d o Hdone.
        destruct (Z.eq_dec d n0) as [->|Hd];
          [destruct (Z.eq_dec o m0) as [->|Ho]|].
        -- rewrite !upd_same, !upd2_same.
           rewrite !(upd_other _ _ _ _ Hi1), !(upd_other _ _ _ _ Hi2).
           rewrite ?upd_same.
           rewrite !(upd2_other _ m0 (n0 - 2) 0 m0 (n0 - 1)) by lia.
           rewrite ?upd2_same, Ep1, Edp1, Hk; split; reflexivity.
        -- destruct (Hother n0 o Hdone) as (Hold & Hi & Hzi); [lia|].
           destruct (Hzi Hn1) as [Hzi'|]; [|lia].
           rewrite !(upd_other _ _ _ _ Hi), !(upd_other _ _ _ _ Hzi').
           rewrite !(upd2_other _ m0 n0) by lia.
           rewrite !(upd2_other _ m0 (n0 - 2)) by lia.
           split; [apply Hp | apply Hdp]; exact Hold.
        -- destruct (Hother d o Hdone) as (Hold & Hi & Hzi); [lia|].
           destruct (Hzi Hn1) as [Hzi'|]; [|lia].
           rewrite !(upd_other _ _ _ _ Hi), !(upd_other _ _ _ _ Hzi').
           rewrite !(upd2_other _ m0 n0) by lia.
           assert (Hdone' : (0 <= o <= d)%Z) by (destruct Hdone; lia).
           rewrite !(upd2_other _ m0 (n0 - 2)) by lia.
           split; [apply Hp | apply Hdp]; exact Hold.
      * cbn [fst snd GeoMag.p GeoMag.set_p GeoMag.k GeoMag.set_k].
        assert (Hd2 : done_before n0 m0 (n0 - 2) m0)
          by (unfold done_before; lia).
        pose proof (Hp _ _ Hd2) as Ep2; pose proof (Hdp _ _ Hd2) as Edp2.
        assert (Hi1 : (n0 - 1 + m0 * sz)%Z <> (n0 + m0 * sz)%Z) by lia.
        intros d o Hdone.
        destruct (Z.eq_dec d n0) as [->|Hd];
          [destruct (Z.eq_dec o m0) as [->|Ho]|].
        -- rewrite !upd_same, !upd2_same, !(upd_other _ _ _ _ Hi1).
           rewrite Ep1, Edp1, Ep2, Edp2, Hk; split; reflexivity.
        -- destruct (Hother n0 o Hdone) as (Hold & Hi & _); [lia|].
           rewrite !(upd_other _ _ _ _ Hi), !upd2_other by lia.
           split; [apply Hp | apply Hdp]; exact Hold.
        -- destruct (Hother d o Hdone) as (Hold & Hi & _); [lia|].
           rewrite !(upd_other _ _ _ _ Hi), !upd2_other by lia.
           split; [apply Hp | apply Hdp]; exact Hold.
Qed.

(** What a turn of the main loop leaves, member by member. *)
Lemma synth_body_members (st ct dt : R) (n m : Z) (s : synth_state) :
  let s' := synth_body st ct dt n m s in
  let g := ss_gm s' in
  let w := ss_w s in
  let tcmn := GeoMag.c g m n + dt * GeoMag.cd g m n in
  let tcnm := GeoMag.c g n (m - 1)%Z + dt * GeoMag.cd g n (m - 1)%Z in
  let temp1 := if (m =? 0)%Z then tcmn * cp w m
               else tcmn * cp w m + tcnm * sp w m in
  let temp2 := if (m =? 0)%Z then tcmn * sp w m
               else tcmn * sp w m - tcnm * cp w m in
  let par := ss_ar s * GeoMag.p g (n + m * GeoMag.size g)%Z in
  let at_pole := (Reqb st 0 && (m =? 1)%Z)%bool in
  let pp' := if at_pole then
               if (n =? 1)%Z then upd (pp w) n (pp w (n - 1)%Z)
               else upd (pp w) n
                      (ct * pp w (n - 1)%Z
                       - GeoMag.k g m n * pp w (n - 2)%Z)
             else pp w in
  g = fst (legendre_step st ct n m (ss_gm s) (dp w))
  /\ dp (ss_w s') = snd (legendre_step st ct n m (ss_gm s) (dp w))
  /\ sp (ss_w s') = sp w
  /\ cp (ss_w s') = cp w
  /\ pp (ss_w s') = pp'
  /\ ss_ar s' = ss_ar s
  /\ ss_br s' = ss_br s + GeoMag.fn g n * temp1 * par
  /\ ss_bt s' = ss_bt s - ss_ar s * temp1 * dp (ss_w s') m n
  /\ ss_bp s' = ss_bp s + GeoMag.fm g m * temp2 * par
  /\ ss_bpp s' = if at_pole
                 then ss_bpp s + GeoMag.fm g m * temp2 * (ss_ar s * pp' n)
                 else ss_bpp s.
Proof.
  cbv zeta; unfold synth_body.
  destruct (legendre_step st ct n m (ss_gm s) (dp (ss_w s))) as [g dp'].
  cbv zeta; cbn [fst snd].
  destruct (Z.eqb_spec m 0) as [Em|Em]; cbn [negb];
    cbn [ss_gm ss_w ss_ar ss_br ss_bt ss_bp ss_bpp tc dp sp cp pp].
  - rewrite !upd2_same.
    destruct (Reqb st 0 && (m =? 1)%Z)%bool; repeat split; reflexivity.
  - rewrite !upd2_same.
    rewrite !(upd2_other _ n (m - 1) _ m n) by lia.
    rewrite !upd2_same.
    destruct (Reqb st 0 && (m =? 1)%Z)%bool; repeat split; reflexivity.
Qed.

(** A turn of the main loop keeps two runs in agreement. *)
Lemma synth_body_agree (st ct dtA dtB : R) (gA gB : GeoMag.t) (n0 m0 : Z)
    (sA sB : synth_state) :
  same_field_model gA gB dtA dtB ->
  (0 <= GeoMag.maxord gA < GeoMag.size gA)%Z ->
  (1 <= n0 <= GeoMag.maxord gA)%Z -> (0 <= m0 <= n0)%Z ->
  synth_agree gA gB st n0 m0 sA sB ->
  synth_agree gA gB st n0 (m0 + 1)
    (synth_body st ct dtA n0 m0 sA) (synth_body st ct dtB n0 m0 sB).
Proof.
  intros (Mmax & Msz & Mk & Mfn & Mfm & Mp0 & Mc) Hshape Hn Hm
         (FA & FB & Ear & Ebr & Ebt & Ebp & Ebpp & Htrig & Hleg & Hpp).
  pose proof (synth_body_frame st ct dtA gA n0 m0 sA FA) as FA'.
  pose proof (synth_body_frame st ct dtB gB n0 m0 sB FB) as FB'.
  pose proof (synth_body_members st ct dtA n0 m0 sA) as MA.
  pose proof (synth_body_members st ct dtB n0 m0 sB) as MB.
  cbv zeta in MA, MB.
  destruct MA as (AL & Adp & Asp & Acp & App & Aar & Abr & Abt & Abp & Abpp).
  destruct MB as (BL & Bdp & Bsp & Bcp & Bpp & Bar & Bbr & Bbt & Bbp & Bbpp).
  pose proof FA as (_ & FAsz & _ & _ & _ & _ & _ & FAk & _ & _).
  pose proof FB as (_ & FBsz & _ & _ & _ & _ & _ & FBk & _ & _).
  (* the Legendre functions after the turn *)
  assert (HL : legendre_agree (GeoMag.size gA) n0 (m0 + 1)
                 (GeoMag.p (ss_gm (synth_body st ct dtA n0 m0 sA)))
                 (GeoMag.p (ss_gm (synth_body st ct dtB n0 m0 sB)))
                 (dp (ss_w (synth_body st ct dtA n0 m0 sA)))
                 (dp (ss_w (synth_body st ct dtB n0 m0 sB)))).
  { rewrite AL, BL, Adp, Bdp.
    apply legendre_step_agree;
      [lia | lia | exact FAsz | rewrite FBsz; exact Msz
      | rewrite FAk, FBk; apply Mk | exact Hleg]. }
  destruct (HL n0 m0) as [Ep Edp]; [unfold done_before; lia|].
  destruct FA' as (_ & FAsz' & _ & _ & _ & FAc' & FAcd' & FAk' & FAfn' & FAfm').
  destruct FB' as (_ & FBsz' & _ & _ & _ & FBc' & FBcd' & FBk' & FBfn' & FBfm').
  destruct (Htrig m0) as [Esp Ecp]; [lia|].
  (* the members of the second run, in terms of the first *)
  rewrite FBc', FBcd', FBk', FBfn', FBfm', FBsz', Msz, !Mc, Mfn, Mfm, Mk,
          Ear, Esp, Ecp, <- Ep in *.
  rewrite FAc', FAcd', FAk', FAfn', FAfm', FAsz' in *.
  (* the working array of the poles *)
  assert (Hpp' : Reqb st 0 = true ->
                 forall a, (0 <= a)%Z ->
                           (a < n0 \/ (a = n0 /\ 1 < m0 + 1))%Z ->
                           pp (ss_w (synth_body st ct dtB n0 m0 sB)) a
                           = pp (ss_w (synth_body st ct dtA n0 m0 sA)) a).
  { intros Hst a Ha Hdone; rewrite App, Bpp, Hst; cbn [andb].
    specialize (Hpp Hst).
    destruct (Z.eqb_spec m0 1) as [Em|Em].
    - destruct (Z.eqb_spec n0 1) as [En|En].
      + destruct (Z.eq_dec a n0) as [->|Hne].
        * rewrite !upd_same; apply Hpp; lia.
        * rewrite !upd_other by exact Hne; apply Hpp; lia.
      + destruct (Z.eq_dec a n0) as [->|Hne].
        * rewrite !upd_same.
          rewrite (Hpp (n0 - 1)%Z), (Hpp (n0 - 2)%Z) by lia; reflexivity.
        * rewrite !upd_other by exact Hne; apply Hpp; lia.
    - apply Hpp; lia. }
  unfold synth_agree.
  split; [apply synth_body_frame; exact FA|].
  split; [apply synth_body_frame; exact FB|].
  split; [rewrite Aar, Bar; reflexivity|].
  split; [rewrite Abr, Bbr, Ebr; reflexivity|].
  split; [rewrite Abt, Bbt, Ebt, Edp; reflexivity|].
  split; [rewrite Abp, Bbp, Ebp; reflexivity|].
  split.
  { rewrite Abpp, Bbpp, Ebpp.
    destruct (Reqb st 0) eqn:Hst; cbn [andb]; [|reflexivity].
    destruct (Z.eqb_spec m0 1) as [Em|Em]; [|reflexivity].
    specialize (Hpp' eq_refl n0); rewrite App, Bpp in Hpp'.
    cbn [andb] in Hpp'.
    destruct (Z.eqb_spec m0 1) as [_|]; [|contradiction].
    rewrite Hpp' by lia; reflexivity. }
  split; [intros i Hi; rewrite Asp, Acp, Bsp, Bcp; apply Htrig; exact Hi|].
  split; [exact HL | exact Hpp'].
Qed.

(** The turns of a degree, and the step to the next degree. *)
Lemma synth_degree_agree (st ct dtA dtB aor : R) (gA gB : GeoMag.t)
    (n0 : Z) (sA sB : synth_state) :
  same_field_model gA gB dtA dtB ->
  (0 <= GeoMag.maxord gA < GeoMag.size gA)%Z ->
  (1 <= n0 <= GeoMag.maxord gA)%Z ->
  synth_agree gA gB st n0 0 sA sB ->
  synth_agree gA gB st (n0 + 1) 0
    (synth_degree st ct dtA aor n0 sA) (synth_degree st ct dtB aor n0 sB).
Proof.
  intros Hmodel Hshape Hn Hagree.
  unfold synth_degree; cbv zeta.
  replace (Z.quot (n0 + 0 + 1) 1) with (n0 + 1)%Z
    by (rewrite Z.quot_1_r; lia).
  assert (Hend : synth_agree gA gB st n0 (0 + Z.of_nat (Z.to_nat (n0 + 1)))
                   (iter_from (Z.to_nat (n0 + 1)) 0
                      (synth_body st ct dtA n0)
                      (mk_synth (ss_gm sA) (ss_w sA) (ss_ar sA * aor)
                         (ss_br sA) (ss_bt sA) (ss_bp sA) (ss_bpp sA)))
                   (iter_from (Z.to_nat (n0 + 1)) 0
                      (synth_body st ct dtB n0)
                      (mk_synth (ss_gm sB) (ss_w sB) (ss_ar sB * aor)
                         (ss_br sB) (ss_bt sB) (ss_bp sB) (ss_bpp sB)))).
  { apply (iter_from_range2 0 (n0 + 1)
             (fun m a b => synth_agree gA gB st n0 m a b)).
    - intros m a b Hm Hab.
      apply synth_body_agree; [assumption | assumption | lia | lia | exact Hab].
    - lia.
    - lia.
    - destruct Hagree
        as (FA & FB & Ear & Ebr & Ebt & Ebp & Ebpp & Htrig & Hleg & Hpp).
      unfold synth_agree; cbn [ss_gm ss_w ss_ar ss_br ss_bt ss_bp ss_bpp].
      rewrite Ear; auto 12. }
  replace (0 + Z.of_nat (Z.to_nat (n0 + 1)))%Z with (n0 + 1)%Z in Hend
    by lia.
  destruct Hend
    as (FA & FB & Ear & Ebr & Ebt & Ebp & Ebpp & Htrig & Hleg & Hpp).
  unfold synth_agree.
  repeat (split; [assumption|]); split.
  - intros d o Hdone; apply Hleg.
    unfold done_before in *; lia.
  - intros Hst a Ha Hdone; apply Hpp; [exact Hst | exact Ha | lia].
Qed.

(** The sines and cosines of the multiples of the longitude do not
    depend on what the working arrays held. *)
Lemma lon_loop_agree (turns : nat) (wA wB : working_arrays) :
  (forall i, (0 <= i < 2)%Z -> sp wB i = sp wA i /\ cp wB i = cp wA i) ->
  let wA' := iter_from turns 2 lon_body wA in
  let wB' := iter_from turns 2 lon_body wB in
  (forall i, (0 <= i < 2 + Z.of_nat turns)%Z ->
             sp wB' i = sp wA' i /\ cp wB' i = cp wA' i)
  /\ dp wA' = dp wA /\ dp wB' = dp wB
  /\ pp wA' = pp wA /\ pp wB' = pp wB.
Proof.
  intros H0; cbv zeta.
  apply (iter_from_range2 2 (2 + Z.of_nat turns)
           (fun m a b =>
              (forall i, (0 <= i < m)%Z ->
                         sp b i = sp a i /\ cp b i = cp a i)
              /\ dp a = dp wA /\ dp b = dp wB
              /\ pp a = pp wA /\ pp b = pp wB)); [|lia|lia|auto].
  intros m a b Hm (Htrig & Hda & Hdb & Hpa & Hpb).
  unfold lon_body; cbn [sp cp dp pp].
  split; [|auto].
  intros i Hi.
  destruct (Htrig 1%Z) as [Es1 Ec1]; [lia|].
  destruct (Htrig (m - 1)%Z) as [Esm Ecm]; [lia|].
  destruct (Z.eq_dec i m) as [->|Hne].
  - rewrite !upd_same.
    rewrite !(upd_other _ m _ 1%Z), !(upd_other _ m _ (m - 1)%Z) by lia.
    rewrite Es1, Ec1, Esm, Ecm; split; reflexivity.
  - rewrite !(upd_other _ m _ i) by exact Hne.
    apply Htrig; lia.
Qed.

(** The field vector is that of the time-adjusted coefficients: it
    depends neither on what the working arrays held, nor on the
    Legendre functions a previous call left in [p], nor on the
    coefficients and their secular variation taken apart. *)
Lemma field_vector_agree (stackA stackB : working_arrays)
    (gA gB : GeoMag.t) (glat glon alt dtA dtB : R) :
  same_field_model gA gB dtA dtB ->
  (0 <= GeoMag.maxord gA < GeoMag.size gA)%Z ->
  snd (field_vector (init_working stackB) gB glat glon alt dtB)
  = snd (field_vector (init_working stackA) gA glat glon alt dtA).
Proof.
  intros Hmodel Hshape.
  pose proof Hmodel as (Mmax & Msz & Mk & Mfn & Mfm & Mp0 & Mc).
  unfold field_vector; cbv zeta; cbn [snd]; rewrite Mmax.
  match goal with
  | |- context [iter_from ?t 1 (synth_degree ?st ?ct dtA ?aor)
                  (mk_synth gA ?wA ?ar 0 0 0 0)] =>
      match goal with
      | |- context [mk_synth gB ?wB ar 0 0 0 0] =>
          assert (Hend : synth_agree gA gB st (1 + Z.of_nat t) 0
                           (iter_from t 1 (synth_degree st ct dtA aor)
                              (mk_synth gA wA ar 0 0 0 0))
                           (iter_from t 1 (synth_degree st ct dtB aor)
                              (mk_synth gB wB ar 0 0 0 0)))
      end
  end.
  { apply (iter_from_range2 1 (GeoMag.maxord gA + 1)
             (fun n a b => synth_agree gA gB _ n 0 a b)); [|lia|lia|].
    - intros n a b Hn Hab.
      apply synth_degree_agree; [assumption | assumption | lia | exact Hab].
    - match goal with
      | |- synth_agree _ _ _ _ _
             (mk_synth _ (iter_from ?t 2 lon_body ?wA) _ _ _ _ _)
             (mk_synth _ (iter_from _ 2 lon_body ?wB) _ _ _ _ _) =>
          pose proof (lon_loop_agree t wA wB) as Hlon
      end.
      cbv zeta in Hlon; cbn [sp cp dp pp init_working] in Hlon.
      destruct Hlon as (Htrig & HdA & HdB & HpA & HpB).
      { intros i Hi.
        destruct (Z.eq_dec i 1) as [->|Hne].
        - rewrite !upd_same; split; reflexivity.
        - assert (i = 0%Z) as -> by lia.
          rewrite !(upd_other _ 1 _ 0%Z) by lia.
          rewrite !upd_same; split; reflexivity. }
      unfold synth_agree;
        cbn [ss_gm ss_w ss_ar ss_br ss_bt ss_bp ss_bpp
             sp cp dp pp init_working].
      split; [apply same_but_p_refl|].
      split; [apply same_but_p_refl|].
      do 5 (split; [reflexivity|]).
      split; [intros i Hi; apply Htrig; lia|].
      split.
      + intros d o [Ho Hd].
        assert (d = 0%Z) as -> by lia.
        assert (o = 0%Z) as -> by lia.
        rewrite HdA, HdB, !upd2_same.
        replace (0 + 0 * GeoMag.size gA)%Z with 0%Z by lia.
        split; [symmetry; exact Mp0 | reflexivity].
      + intros _ a Ha Hdone.
        assert (a = 0%Z) as -> by lia.
        rewrite HpA, HpB, !upd_same; reflexivity. }
  destruct Hend as (_ & _ & _ & Ebr & Ebt & Ebp & Ebpp & _).
  rewrite Ebr, Ebt, Ebp, Ebpp; reflexivity.
Qed.

(** The main loop never writes [p[0]]. *)
Lemma legendre_step_p_0 (st ct : R) (n m : Z) (g : GeoMag.t)
    (dp : array2) :
  (0 < GeoMag.size g)%Z -> (1 <= n)%Z -> (0 <= m <= n)%Z ->
  GeoMag.p (fst (legendre_step st ct n m g dp)) 0%Z = GeoMag.p g 0%Z.
Proof.
  intros Hsz Hn Hm; unfold legendre_step.
  destruct (Z.eqb_spec n m) as [Enm|Enm].
  - cbn [fst GeoMag.p GeoMag.set_p]; apply upd_other; nia.
  - destruct ((n =? 1)%Z && (m =? 0)%Z)%bool.
    + cbn [fst GeoMag.p GeoMag.set_p]; apply upd_other; nia.
    + destruct (Z.ltb_spec 1 n) as [Hn1|Hn1]; cbn [andb negb];
        [|reflexivity].
      destruct (Z.ltb_spec (n - 2) m) as [Hz|Hz];
        cbn [fst GeoMag.p GeoMag.set_p GeoMag.size].
      * rewrite !upd_other by nia; reflexivity.
      * rewrite upd_other by nia; reflexivity.
Qed.

Lemma synth_degree_p_0 (st ct dt aor : R) (sz n : Z) (v : R)
    (s : synth_state) :
  (0 < sz)%Z -> (1 <= n)%Z ->
  GeoMag.size (ss_gm s) = sz /\ GeoMag.p (ss_gm s) 0%Z = v ->
  GeoMag.size (ss_gm (synth_degree st ct dt aor n s)) = sz
  /\ GeoMag.p (ss_gm (synth_degree st ct dt aor n s)) 0%Z = v.
Proof.
  intros Hsz Hn Hs; unfold synth_degree; cbv zeta.
  replace (Z.quot (n + 0 + 1) 1) with (n + 1)%Z
    by (rewrite Z.quot_1_r; lia).
  apply (iter_from_range 0 (n + 1)
           (fun _ s' => GeoMag.size (ss_gm s') = sz
                        /\ GeoMag.p (ss_gm s') 0%Z = v));
    [|lia|lia|exact Hs].
  intros m s' Hm [Es Ep]; rewrite synth_body_gm.
  pose proof (legendre_step_frame st ct n m (ss_gm s') (dp (ss_w s')))
    as (_ & Fsz & _).
  split; [rewrite Fsz; exact Es|].
  rewrite legendre_step_p_0; [exact Ep | lia | lia | lia].
Qed.

Lemma field_vector_p_0 (stack : working_arrays) (g : GeoMag.t)
    (glat glon alt dt : R) :
  (0 <= GeoMag.maxord g < GeoMag.size g)%Z ->
  GeoMag.p (fst (field_vector stack g glat glon alt dt)) 0%Z
  = GeoMag.p g 0%Z.
Proof.
  intros Hshape; unfold field_vector; cbv zeta; cbn [fst].
  match goal with
  | |- GeoMag.p (ss_gm (iter_from ?t 1 ?body ?s0)) 0%Z = _ =>
      assert (Hend : GeoMag.size (ss_gm (iter_from t 1 body s0))
                     = GeoMag.size g
                     /\ GeoMag.p (ss_gm (iter_from t 1 body s0)) 0%Z
                        = GeoMag.p g 0%Z)
  end; [|exact (proj2 Hend)].
  apply (iter_from_inv_above 1
           (fun s => GeoMag.size (ss_gm s) = GeoMag.size g
                     /\ GeoMag.p (ss_gm s) 0%Z = GeoMag.p g 0%Z));
    [|lia|split; reflexivity].
  intros n s Hn Hs; apply synth_degree_p_0; [lia | lia | exact Hs].
Qed.

Lemma same_field_model_refl (g : GeoMag.t) (dt : R) :
  same_field_model g g dt dt.
Proof. repeat split. Qed.

(** The two initialisations write every member of the result between
    them. *)
Lemma derive_init_result_total (gA gB : GeoMag.t)
    (glat glon alt time bx by_ bz : R) (resA resB : GeoMagResult.t) :
  GeoMag.maxord gB = GeoMag.maxord gA ->
  derive_result glat glon bx by_ bz (init_result gB glat glon alt time resB)
  = derive_result glat glon bx by_ bz
      (init_result gA glat glon alt time resA).
Proof.
  intros E; unfold derive_result, init_result; rewrite E; reflexivity.
Qed.

(** Two calls over models that the main loop cannot tell apart return
    the same code and leave the same result. *)
Lemma geomag_calculate_agree (stackA stackB : working_arrays)
    (gA gB : GeoMag.t) (glat glon alt time : R) (allow raise : bool)
    (resA resB : GeoMagResult.t) :
  same_field_model gA gB (time - GeoMag.epoch gA) (time - GeoMag.epoch gB) ->
  (0 <= GeoMag.maxord gA < GeoMag.size gA)%Z ->
  date_accepted gA time allow -> date_accepted gB time allow ->
  fst (fst (geomag_calculate stackB (Some gB) glat glon alt time allow
              raise (Some resB)))
  = fst (fst (geomag_calculate stackA (Some gA) glat glon alt time allow
                raise (Some resA)))
  /\ snd (geomag_calculate stackB (Some gB) glat glon alt time allow
            raise (Some resB))
     = snd (geomag_calculate stackA (Some gA) glat glon alt time allow
              raise (Some resA)).
Proof.
  intros Hmodel Hshape HdA HdB.
  destruct (geomag_calculate_accepted stackA gA glat glon alt time allow
              raise resA HdA) as (bx & by_ & bz & EvA & EA).
  destruct (geomag_calculate_accepted stackB gB glat glon alt time allow
              raise resB HdB) as (bx' & by_' & bz' & EvB & EB).
  rewrite (field_vector_agree stackA stackB gA gB glat glon alt _ _
             Hmodel Hshape), EvA in EvB.
  injection EvB as <- <- <-.
  rewrite EA, EB; cbv zeta; cbn [fst snd].
  rewrite (derive_init_result_total gA gB glat glon alt time bx by_ bz
             resA resB (proj1 Hmodel)).
  split; reflexivity.
Qed.

(** On an accepted date the code returned and the result left do not
    depend on what the stack held where the working arrays are placed,
    nor on what the result structure held before the call: every array
    entry the main loop reads has been written by the call, and every
    member of the result is assigned. *)
Theorem calculate_ignores_scratch :
  forall (stackA stackB : working_arrays) (g : GeoMag.t)
         (glat glon alt time : R) (allow raise : bool)
         (resA resB : GeoMagResult.t),
    (0 <= GeoMag.maxord g < GeoMag.size g)%Z ->
    date_accepted g time allow ->
    fst (fst (geomag_calculate stackB (Some g) glat glon alt time allow
                raise (Some resB)))
    = fst (fst (geomag_calculate stackA (Some g) glat glon alt time allow
                  raise (Some resA)))
    /\ snd (geomag_calculate stackB (Some g) glat glon alt time allow
              raise (Some resB))
       = snd (geomag_calculate stackA (Some g) glat glon alt time allow
                raise (Some resA)).
Proof.
  intros stackA stackB g glat glon alt time allow raise resA resB Hshape Hd.
  apply geomag_calculate_agree;
    [apply same_field_model_refl | exact Hshape | exact Hd | exact Hd].
Qed.

Lemma calculate_ignores_scratch_witness :
  (0 <= GeoMag.maxord dipole_model < GeoMag.size dipole_model)%Z
  /\ date_accepted dipole_model 2027 false
  /\ fst (fst (geomag_calculate stale_working (Some dipole_model)
                 80 (-120) 10 2027 false true (Some no_result)))
     = fst (fst (geomag_calculate no_working (Some dipole_model)
                   80 (-120) 10 2027 false true
                   (Some (result_at 2020 1 false))))
  /\ snd (geomag_calculate stale_working (Some dipole_model)
            80 (-120) 10 2027 false true (Some no_result))
     = snd (geomag_calculate no_working (Some dipole_model)
              80 (-120) 10 2027 false true
              (Some (result_at 2020 1 false))).
Proof.
  assert (Hshape : (0 <= GeoMag.maxord dipole_model
                    < GeoMag.size dipole_model)%Z)
    by (destruct dipole_model_shape as (-> & -> & _); lia).
  assert (Hd : date_accepted dipole_model 2027 false)
    by (apply dipole_model_date; lra).
  split; [exact Hshape|]; split; [exact Hd|].
  exact (calculate_ignores_scratch no_working stale_working dipole_model
           80 (-120) 10 2027 false true (result_at 2020 1 false) no_result
           Hshape Hd).
Defined.

(** A call on the model as another call left it, whatever the stack and
    the result structure then hold, returns the same code and leaves
    the same result: the Legendre functions the first call stored in
    [p] are not read by the second, which only reads [p[0]] and what it
    has written itself. *)
Theorem calculate_repeatable :
  forall (stack : working_arrays) (g : GeoMag.t) (glat glon alt time : R)
         (allow raise : bool) (res : GeoMagResult.t),
    (0 <= GeoMag.maxord g < GeoMag.size g)%Z ->
    date_accepted g time allow ->
    exists (rc : Z) (g' : GeoMag.t) (res' : GeoMagResult.t),
      geomag_calculate stack (Some g) glat glon alt time allow raise
        (Some res) = (rc, Some g', Some res')
      /\ forall (stack2 : working_arrays) (glat2 glon2 alt2 time2 : R)
                (allow2 raise2 : bool) (res2 : GeoMagResult.t),
           date_accepted g time2 allow2 ->
           fst (fst (geomag_calculate stack2 (Some g') glat2 glon2 alt2
                       time2 allow2 raise2 (Some res2)))
           = fst (fst (geomag_calculate stack2 (Some g) glat2 glon2 alt2
                         time2 allow2 raise2 (Some res2)))
           /\ snd (geomag_calculate stack2 (Some g') glat2 glon2 alt2
                     time2 allow2 raise2 (Some res2))
              = snd (geomag_calculate stack2 (Some g) glat2 glon2 alt2
                       time2 allow2 raise2 (Some res2)).
Proof.
  intros stack g glat glon alt time allow raise res Hshape Hd.
  destruct (geomag_calculate_accepted stack g glat glon alt time allow
              raise res Hd) as (bx & by_ & bz & _ & E).
  cbv zeta in E.
  eexists _, _, _; split; [exact E|].
  intros stack2 glat2 glon2 alt2 time2 allow2 raise2 res2 Hd2.
  pose proof (field_vector_frame (init_working stack) g glat glon alt
                (time - GeoMag.epoch g))
    as (Fmax & Fsz & Fep & _ & _ & Fc & Fcd & Fk & Ffn & Ffm).
  pose proof (field_vector_p_0 (init_working stack) g glat glon alt
                (time - GeoMag.epoch g) Hshape) as Fp.
  apply geomag_calculate_agree.
  - unfold same_field_model.
    rewrite Fmax, Fsz, Fep, Fc, Fcd, Fk, Ffn, Ffm, Fp; repeat split.
  - exact Hshape.
  - exact Hd2.
  - unfold date_accepted in *; rewrite Fep; exact Hd2.
Qed.

Lemma calculate_repeatable_witness :
  (0 <= GeoMag.maxord dipole_model < GeoMag.size dipole_model)%Z
  /\ date_accepted dipole_model 2027 false
  /\ exists (rc : Z) (g' : GeoMag.t) (res' : GeoMagResult.t),
       geomag_calculate no_working (Some dipole_model) 80 (-120) 10 2027
         false true (Some no_result) = (rc, Some g', Some res')
       /\ forall (stack2 : working_arrays) (glat2 glon2 alt2 time2 : R)
                 (allow2 raise2 : bool) (res2 : GeoMagResult.t),
            date_accepted dipole_model time2 allow2 ->
            fst (fst (geomag_calculate stack2 (Some g') glat2 glon2 alt2
                        time2 allow2 raise2 (Some res2)))
            = fst (fst (geomag_calculate stack2 (Some dipole_model) glat2
                          glon2 alt2 time2 allow2 raise2 (Some res2)))
            /\ snd (geomag_calculate stack2 (Some g') glat2 glon2 alt2
                      time2 allow2 raise2 (Some res2))
               = snd (geomag_calculate stack2 (Some dipole_model) glat2
                        glon2 alt2 time2 allow2 raise2 (Some res2)).
Proof.
  assert (Hshape : (0 <= GeoMag.maxord dipole_model
                    < GeoMag.size dipole_model)%Z)
    by (destruct dipole_model_shape as (-> & -> & _); lia).
  assert (Hd : date_accepted dipole_model 2027 false)
    by (apply dipole_model_date; lra).
  split; [exact Hshape|]; split; [exact Hd|].
  exact (calculate_repeatable no_working dipole_model 80 (-120) 10 2027
           false true no_result Hshape Hd).
Defined.

(** Once the date check is passed, the coefficients and their secular
    variation enter the result only through the time-adjusted
    coefficients [c + dt * cd], with [dt = time - epoch]: two models of
    the same order and size, with the same tables [k], [fn] and [fm]
    and the same [p[0]], whose time-adjusted coefficients are equal at
    [time], give the same code and the same result there, provided the
    date check lets both calls through (the override is on, or [time]
    is within the five years that follow the epoch of each model). *)
Theorem calculate_time_adjusted_coefficients :
  forall (stackA stackB : working_arrays) (gA gB : GeoMag.t)
         (glat glon alt time : R) (allow raise : bool)
         (resA resB : GeoMagResult.t),
    same_field_model gA gB (time - GeoMag.epoch gA)
      (time - GeoMag.epoch gB) ->
    (0 <= GeoMag.maxord gA < GeoMag.size gA)%Z ->
    date_accepted gA time allow -> date_accepted gB time allow ->
    fst (fst (geomag_calculate stackB (Some gB) glat glon alt time allow
                raise (Some resB)))
    = fst (fst (geomag_calculate stackA (Some gA) glat glon alt time allow
                  raise (Some resA)))
    /\ snd (geomag_calculate stackB (Some gB) glat glon alt time allow
              raise (Some resB))
       = snd (geomag_calculate stackA (Some gA) glat glon alt time allow
                raise (Some resA)).
Proof.
  intros stackA stackB gA gB glat glon alt time allow raise resA resB.
  apply geomag_calculate_agree.
Qed.

(** A model moved to another epoch has the same time-adjusted
    coefficients at every time. *)
Lemma moved_to_epoch_same_field (g : GeoMag.t) (e time : R) :
  same_field_model g (moved_to_epoch g e)
    (time - GeoMag.epoch g) (time - GeoMag.epoch (moved_to_epoch g e)).
Proof.
  unfold same_field_model, moved_to_epoch.
  cbn [GeoMag.maxord GeoMag.size GeoMag.epoch GeoMag.c GeoMag.cd
       GeoMag.k GeoMag.fn GeoMag.fm GeoMag.p GeoMag.set_c
       GeoMag.set_header].
  repeat split; intros i j; ring.
Qed.

Lemma moved_to_epoch_date (g : GeoMag.t) (e time : R) (allow : bool) :
  0 <= time - e <= 5 -> date_accepted (moved_to_epoch g e) time allow.
Proof. intros H; right; exact H. Qed.

(** The dipole model moved to the epoch 2026. *)
Lemma calculate_time_adjusted_coefficients_witness :
  same_field_model dipole_model (moved_to_epoch dipole_model 2026)
    (2027 - GeoMag.epoch dipole_model)
    (2027 - GeoMag.epoch (moved_to_epoch dipole_model 2026))
  /\ (0 <= GeoMag.maxord dipole_model < GeoMag.size dipole_model)%Z
  /\ date_accepted dipole_model 2027 false
  /\ date_accepted (moved_to_epoch dipole_model 2026) 2027 false
  /\ fst (fst (geomag_calculate no_working
                 (Some (moved_to_epoch dipole_model 2026)) 80 (-120) 10
                 2027 false true (Some no_result)))
     = fst (fst (geomag_calculate no_working (Some dipole_model) 80 (-120)
                   10 2027 false true (Some no_result)))
  /\ snd (geomag_calculate no_working
            (Some (moved_to_epoch dipole_model 2026)) 80 (-120) 10 2027
            false true (Some no_result))
     = snd (geomag_calculate no_working (Some dipole_model) 80 (-120)
              10 2027 false true (Some no_result)).
Proof.
  assert (Hshape : (0 <= GeoMag.maxord dipole_model
                    < GeoMag.size dipole_model)%Z)
    by (destruct dipole_model_shape as (-> & -> & _); lia).
  assert (Hd : date_accepted dipole_model 2027 false)
    by (apply dipole_model_date; lra).
  assert (Hd26 : date_accepted (moved_to_epoch dipole_model 2026) 2027
                   false)
    by (apply moved_to_epoch_date; lra).
  pose proof (moved_to_epoch_same_field dipole_model 2026 2027) as Hmodel.
  split; [exact Hmodel|]; split; [exact Hshape|];
    split; [exact Hd|]; split; [exact Hd26|].
  exact (calculate_time_adjusted_coefficients no_working no_working
           dipole_model (moved_to_epoch dipole_model 2026) 80 (-120) 10
           2027 false true no_result no_result Hmodel Hshape Hd Hd26).
Defined.

(** ** The callers *)

(** A call that does not raise the warning zones, on an accepted date,
    returns 0. *)
Lemma geomag_calculate_advisory (stack : working_arrays) (g : GeoMag.t)
    (glat glon alt time : R) (allow : bool) (res : GeoMagResult.t) :
  date_accepted g time allow ->
  exists (g' : GeoMag.t) (res' : GeoMagResult.t),
    geomag_calculate stack (Some g) glat glon alt time allow false
      (Some res) = (0%Z, Some g', Some res')
    /\ same_but_p g g'
    /\ GeoMagResult.time res' = time
    /\ GeoMagResult.is_high_resolution res'
       = (GeoMag.maxord g =? WMM_SIZE_HIGH_RESOLUTION)%Z.
Proof.
  intros Hd.
  destruct (geomag_calculate_accepted stack g glat glon alt time allow
              false res Hd) as (bx & by_ & bz & _ & E).
  cbv zeta in E; rewrite E.
  destruct (check_zones_rc false
              (derive_result glat glon bx by_ bz
                 (init_result g glat glon alt time res))) as [_ Hrc].
  cbv zeta in Hrc; rewrite (Hrc eq_refl).
  eexists _, _; split; [reflexivity|].
  split; [apply field_vector_frame|].
  destruct (check_zones_inputs false
              (derive_result glat glon bx by_ bz
                 (init_result g glat glon alt time res)))
    as (-> & _ & _ & _ & ->).
  split; reflexivity.
Qed.

Lemma benchmark_loop_completes (stacks : Z -> working_arrays)
    (turns : nat) :
  forall (i : Z) (g : GeoMag.t) (res : GeoMagResult.t),
  exists g' : GeoMag.t,
    benchmark_loop turns i stacks (Some g) (Some res)
    = (BenchDone, Some g')
    /\ same_but_p g g'.
Proof.
  induction turns as [|turns IH]; intros i g res.
  - exists g; split; [reflexivity | apply same_but_p_refl].
  - cbn [benchmark_loop].
    destruct (nth (Z.to_nat (Z.rem i num_test_locations)) test_data
                (0, 0, 0, 0)) as [[[lat lon] alt] time].
    destruct (geomag_calculate_advisory (stacks i) g lat lon alt time
                true res) as (g1 & res1 & E & F & _);
      [left; reflexivity|].
    rewrite E; cbn [Z.eqb negb andb].
    destruct (IH (i + 1)%Z g1 res1) as (g' & E' & F').
    exists g'; split; [exact E'|].
    eapply same_but_p_trans; [exact F | exact F'].
Qed.


(** Test 7 as a function of the coefficient file: when the load fails
    only [test_failed] is incremented; when it succeeds two tests are
    counted, the check of the override always passes, and the check of
    the rejection passes exactly when 2031 is outside the five years
    that follow the epoch of the file. *)
Theorem test_boundary_conditions_outcome :
  forall (snorm0 : array1) (stack1 stack2 : working_arrays)
         (geo_mag : GeoMag.t) (result : GeoMagResult.t)
         (wmm_cof : option cof_file) (t : counters),
  exists (rc : Z) (g : GeoMag.t),
    geomag_init snorm0 (Some geo_mag) (Some wmm_cof) false = (rc, Some g)
    /\ test_boundary_conditions snorm0 stack1 stack2 geo_mag result
         wmm_cof t
       = if (rc =? 0)%Z then
           if outside_lifespan (2031 - GeoMag.epoch g)
           then mk_counters (test_count t + 2) (test_passed t + 2)
                  (test_failed t)
           else mk_counters (test_count t + 2) (test_passed t + 1)
                  (test_failed t + 1)
         else mk_counters (test_count t) (test_passed t)
                (test_failed t + 1).
Proof.
  intros snorm0 stack1 stack2 geo_mag result wmm_cof t.
  unfold test_boundary_conditions; rewrite geomag_init_sized.
  eexists _, _; split; [reflexivity|].
  cbv beta iota zeta.
  destruct (fst (load_coefficients snorm0 (sized geo_mag false) wmm_cof)
            =? 0)%Z; cbn [negb]; [|reflexivity].
  set (g := snd (load_coefficients snorm0 (sized geo_mag false) wmm_cof)).
  destruct (outside_lifespan (2031 - GeoMag.epoch g)) eqn:Hout.
  - apply outside_lifespan_true in Hout.
    rewrite (geomag_calculate_rejected stack1 g 0 0 0 2031 false result
               Hout).
    cbv beta iota zeta.
    destruct (geomag_calculate_advisory stack2 g 0 0 0 2031 true
                (init_result g 0 0 0 2031 result))
      as (g2 & res2 & -> & _); [left; reflexivity|].
    cbn [Z.eqb negb]; unfold count_test, count_passed, count_failed;
      cbn [test_count test_passed test_failed]; f_equal; lia.
  - apply outside_lifespan_false in Hout.
    destruct (geomag_calculate_advisory stack1 g 0 0 0 2031 false result)
      as (g1 & res1 & -> & F1 & _); [right; exact Hout|].
    cbv beta iota zeta.
    destruct (geomag_calculate_advisory stack2 g1 0 0 0 2031 true res1)
      as (g2 & res2 & -> & _); [left; reflexivity|].
    cbn [Z.eqb negb]; unfold count_test, count_passed, count_failed;
      cbn [test_count test_passed test_failed]; f_equal; lia.
Qed.

(** The order and the size of a loaded model. *)
Lemma geomag_init_loaded_order (snorm0 : array1) (g g' : GeoMag.t)
    (cf : option (option cof_file)) (hr : bool) :
  geomag_init snorm0 (Some g) cf hr = (0%Z, Some g') ->
  GeoMag.maxord g' = init_order hr
  /\ GeoMag.size g' = (init_order hr + 1)%Z.
Proof.
  intros E.
  destruct (geomag_init_success _ _ _ _ _ E)
    as (file & e & name & date & gr & _ & _ & Hr & ->).
  destruct (read_records_frame _ _ _ Hr) as ((Hmax & Hsz & _) & _).
  cbn in Hmax, Hsz.
  pose proof (init_order_bounds hr) as Hb.
  destruct (normalize_tables snorm0 gr) as (s & (Hsc & _) & ->);
    [rewrite Hmax, Hsz; exact Hb|].
  destruct Hsc as (Hmax' & Hsz' & _).
  cbn in Hmax', Hsz' |- *.
  rewrite Hmax', Hsz', Hmax, Hsz; split; reflexivity.
Qed.

(** What the lookup computes for a standard-resolution result dated
    2025 to 2030; for [h = 0] the last member stands for nothing in
    the code. *)
Lemma uncertainty_2025_standard (res : GeoMagResult.t)
    (u : GeoMagUncertainty.t) :
  2025 <= GeoMagResult.time res <= 2030 ->
  GeoMagResult.is_high_resolution res = false ->
  geomag_calculate_uncertainty (Some res) (Some u)
  = (0%Z,
     Some (GeoMagUncertainty.mk 137 89 141 133 138 (20 / 100)
             (sqrt (26 / 100 * (26 / 100)
                    + 5417 / GeoMagResult.h res
                      * (5417 / GeoMagResult.h res))))).
Proof.
  intros Ht Hres.
  unfold geomag_calculate_uncertainty, WMM_MODEL_2025_LOWER,
    WMM_MODEL_2025_UPPER, Rgeb.
  rewrite Hres.
  replace (Rleb 2025 (GeoMagResult.time res)) with true
    by (symmetry; apply Rleb_true; lra).
  replace (Rleb (GeoMagResult.time res) 2030) with true
    by (symmetry; apply Rleb_true; lra).
  reflexivity.
Qed.

(** Test 5 as a function of the coefficient file: when the load fails,
    or when 2025.25 is outside the five years that follow the epoch of
    the file, only [test_failed] is incremented.  Otherwise, when the
    horizontal intensity [H] of the result is not 0, one test is
    counted, and of the six comparisons of lines 188-190 only the last
    can fail: the test passes exactly when the uncertainty of the
    declination computed from [H] is below one degree. *)
Theorem test_uncertainty_outcome :
  forall (snorm0 : array1) (stack : working_arrays) (geo_mag : GeoMag.t)
         (result : GeoMagResult.t) (uncertainty : GeoMagUncertainty.t)
         (wmm_cof : option cof_file) (t : counters),
  exists (rc : Z) (g : GeoMag.t),
    geomag_init snorm0 (Some geo_mag) (Some wmm_cof) false = (rc, Some g)
    /\ let t' := test_uncertainty snorm0 stack geo_mag result uncertainty
                   wmm_cof t in
       let H :=
         match snd (geomag_calculate stack (Some g) (476205 / 10000)
                      (-1223493 / 10000) 0 (202525 / 100) false
                      false (Some result)) with
         | Some r => GeoMagResult.h r
         | None => 0
         end in
       (rc <> 0%Z -> t' = count_failed t)
       /\ (rc = 0%Z ->
           outside_lifespan (202525 / 100 - GeoMag.epoch g) = true ->
           t' = count_failed t)
       /\ (rc = 0%Z ->
           outside_lifespan (202525 / 100 - GeoMag.epoch g) = false ->
           H <> 0 ->
           t' = if Rltb (sqrt (26 / 100 * (26 / 100)
                               + 5417 / H * (5417 / H))) 1
                then mk_counters (test_count t + 1) (test_passed t + 1)
                       (test_failed t)
                else mk_counters (test_count t + 1) (test_passed t)
                       (test_failed t + 1)).
Proof.
  intros snorm0 stack geo_mag result uncertainty wmm_cof t.
  pose proof (geomag_init_sized snorm0 geo_mag wmm_cof false) as Einit.
  unfold test_uncertainty; rewrite Einit.
  eexists _, _; split; [reflexivity|].
  cbv beta iota zeta.
  set (g := snd (load_coefficients snorm0 (sized geo_mag false) wmm_cof))
    in *.
  destruct (Z.eqb_spec
              (fst (load_coefficients snorm0 (sized geo_mag false)
                      wmm_cof)) 0) as [Erc|Erc];
    cbn [negb];
    [|split; [reflexivity | split; intros; contradiction]].
  split; [intros; contradiction|].
  rewrite Erc in Einit.
  destruct (geomag_init_loaded_order _ _ _ _ _ Einit) as [Hmax _].
  split.
  - intros _ Hout; apply outside_lifespan_true in Hout.
    rewrite (geomag_calculate_rejected stack g _ _ _ _ false result Hout).
    reflexivity.
  - intros _ Hout; apply outside_lifespan_false in Hout.
    destruct (geomag_calculate_advisory stack g (476205 / 10000)
                (-1223493 / 10000) 0 (202525 / 100) false result)
      as (g1 & res1 & -> & _ & Htime & Hres); [right; exact Hout|].
    cbv beta iota zeta; cbn [Z.eqb negb snd].
    intros _.
    rewrite Hmax in Hres; cbn in Hres.
    rewrite (uncertainty_2025_standard res1 uncertainty);
      [|rewrite Htime; lra | exact Hres].
    cbv beta iota zeta; cbn [Z.eqb negb GeoMagUncertainty.x
                               GeoMagUncertainty.y GeoMagUncertainty.d].
    set (q := 5417 / GeoMagResult.h res1).
    assert (Hd : 0 < sqrt (26 / 100 * (26 / 100) + q * q))
      by (apply sqrt_lt_R0; nra).
    unfold Rgtb.
    replace (Rltb 0 137) with true by (symmetry; apply Rltb_true; lra).
    replace (Rltb 137 200) with true by (symmetry; apply Rltb_true; lra).
    replace (Rltb 0 89) with true by (symmetry; apply Rltb_true; lra).
    replace (Rltb 89 200) with true by (symmetry; apply Rltb_true; lra).
    replace (Rltb 0 (sqrt (26 / 100 * (26 / 100) + q * q))) with true
      by (symmetry; apply Rltb_true; exact Hd).
    cbn [andb].
    destruct (Rltb (sqrt (26 / 100 * (26 / 100) + q * q)) 1);
      unfold count_test, count_passed, count_failed;
      cbn [test_count test_passed test_failed]; reflexivity.
Qed.

(** Over the dipole model, in the northern hemisphere and within the
    lifespan, the field has no east component and points north. *)
Lemma dipole_field_north (stack : working_arrays) (glat glon alt dt : R) :
  0 < glat < 90 -> 0 <= alt -> 0 <= dt <= 5 ->
  exists bx bz : R,
    snd (field_vector (init_working stack) dipole_model glat glon alt dt)
    = (bx, 0, bz)
    /\ 0 < bx.
Proof.
  intros Hlat Halt Hdt.
  assert (Hax : axial dipole_model)
    by (intros i j H; apply dipole_model_zero_at; exact H).
  destruct dipole_model_shape as (Hmax & _ & _).
  eexists _, _; split.
  - apply (axial_field_vector stack dipole_model glat glon alt dt Hax).
    rewrite Hmax; lia.
  - destruct dipole_model_1_0 as (-> & -> & -> & ->).
    destruct (spherical_north glat alt) as (Hct & Hst & Hr & Hca & Hsa);
      [exact Hlat | exact Halt |].
    set (sph := geodetic_to_spherical glat alt) in *.
    assert (Haor : 0 < WGS84_RE / sph_r sph)
      by (apply Rdiv_lt_0_compat; [unfold WGS84_RE; lra | exact Hr]).
    set (aor := WGS84_RE / sph_r sph) in *.
    assert (Har : 0 < aor * aor * aor)
      by (apply Rmult_lt_0_compat; [apply Rmult_lt_0_compat|];
          exact Haor).
    set (ar := aor * aor * aor) in *.
    assert (H1 : 0 <= sph_st sph * sph_ca sph)
      by (apply Rmult_le_pos; lra).
    assert (H2 : 0 < sph_ct sph * sph_sa sph)
      by (apply Rmult_lt_0_compat; assumption).
    replace (- (ar * (-293518 / 10 + dt * 12) * (sph_st sph * 1))
             * sph_ca sph
             - 2 * (-293518 / 10 + dt * 12) * (ar * (sph_ct sph * 1))
               * sph_sa sph)
      with ((293518 / 10 - dt * 12)
            * (ar * (sph_st sph * sph_ca sph
                     + 2 * (sph_ct sph * sph_sa sph))))
      by field.
    apply Rmult_lt_0_compat; [lra|].
    apply Rmult_lt_0_compat; [exact Har | lra].
Qed.

(** There the horizontal intensity of the result is positive. *)
Lemma dipole_intensity_north (stack : working_arrays)
    (glat glon alt time : R) (res : GeoMagResult.t) :
  0 < glat < 90 -> 0 <= alt -> 0 <= time - 2025 <= 5 ->
  exists (g' : GeoMag.t) (r : GeoMagResult.t),
    geomag_calculate stack (Some dipole_model) glat glon alt time false
      false (Some res) = (0%Z, Some g', Some r)
    /\ 0 < GeoMagResult.h r.
Proof.
  intros Hlat Halt Hdt.
  assert (Hd : date_accepted dipole_model time false)
    by (apply dipole_model_date; exact Hdt).
  destruct (geomag_calculate_accepted stack dipole_model glat glon alt
              time false false res Hd) as (bx & by_ & bz & Ev & E).
  destruct dipole_model_shape as (_ & _ & Hepoch).
  rewrite Hepoch in Ev.
  destruct (dipole_field_north stack glat glon alt (time - 2025))
    as (bx' & bz' & Ev' & Hbx); [exact Hlat | exact Halt | exact Hdt |].
  rewrite Ev' in Ev; injection Ev as <- <- <-.
  cbv zeta in E; rewrite E.
  destruct (check_zones_rc false
              (derive_result glat glon bx' 0 bz'
                 (init_result dipole_model glat glon alt time res)))
    as [_ Hrc].
  cbv zeta in Hrc; rewrite (Hrc eq_refl).
  eexists _, _; split; [reflexivity|].
  destruct (check_zones_fields false
              (derive_result glat glon bx' 0 bz'
                 (init_result dipole_model glat glon alt time res)))
    as (_ & _ & _ & -> & _).
  destruct (derive_result_members glat glon bx' 0 bz'
              (init_result dipole_model glat glon alt time res))
    as (_ & _ & _ & _ & _ & _ & _ & ->).
  rewrite DEG2RAD_RAD2DEG.
  replace (bx' * bx' + 0 * 0) with (bx' * bx') by ring.
  rewrite sqrt_square by lra.
  assert (HF : 0 < sqrt (bx' * bx' + bz' * bz'))
    by (apply sqrt_lt_R0; nra).
  apply Rmult_lt_0_compat; [exact HF|].
  unfold atan2; destruct (Rlt_dec 0 bx') as [_|Hn]; [|contradiction].
  apply cos_gt_0; pose proof (atan_bound (bz' / bx')); lra.
Qed.

Lemma test_uncertainty_outcome_witness :
  exists (rc : Z) (g : GeoMag.t),
    geomag_init (fun _ => 0) (Some no_model) (Some (Some dipole_file))
      false = (rc, Some g)
    /\ let t' := test_uncertainty (fun _ => 0) no_working no_model
                   no_result no_uncertainty (Some dipole_file)
                   (mk_counters 4 4 0) in
       let H :=
         match snd (geomag_calculate no_working (Some g) (476205 / 10000)
                      (-1223493 / 10000) 0 (202525 / 100) false
                      false (Some no_result)) with
         | Some r => GeoMagResult.h r
         | None => 0
         end in
       rc = 0%Z
       /\ outside_lifespan (202525 / 100 - GeoMag.epoch g) = false
       /\ H <> 0
       /\ t' = if Rltb (sqrt (26 / 100 * (26 / 100)
                              + 5417 / H * (5417 / H))) 1
               then mk_counters (4 + 1) (4 + 1) 0
               else mk_counters (4 + 1) 4 (0 + 1).
Proof.
  destruct (test_uncertainty_outcome (fun _ => 0) no_working no_model
              no_result no_uncertainty (Some dipole_file)
              (mk_counters 4 4 0)) as (rc & g & E & _ & _ & Hcase).
  exists rc, g; split; [exact E|].
  rewrite geomag_init_dipole in E.
  injection E as <- <-.
  assert (Hout : outside_lifespan (202525 / 100 - GeoMag.epoch dipole_model)
                 = false).
  { apply outside_lifespan_false.
    destruct dipole_model_shape as (_ & _ & ->); lra. }
  assert (HH : match snd (geomag_calculate no_working (Some dipole_model)
                            (476205 / 10000) (-1223493 / 10000) 0
                            (202525 / 100) false false (Some no_result))
               with
               | Some r => GeoMagResult.h r
               | None => 0
               end <> 0).
  { destruct (dipole_intensity_north no_working (476205 / 10000)
                (-1223493 / 10000) 0 (202525 / 100) no_result)
      as (g' & r & -> & Hpos); [lra | lra | lra |].
    cbn [snd]; lra. }
  split; [reflexivity|]; split; [exact Hout|]; split; [exact HH|].
  exact (Hcase eq_refl Hout HH).
Defined.

(** ** A model without coefficients *)

(** A turn of the main loop over a model without coefficients adds
    nothing to the sums. *)
Lemma synth_body_zero (st ct dt : R) (g : GeoMag.t) (n m : Z)
    (s : synth_state) :
  (forall i j, zero_at i j g) ->
  same_but_p g (ss_gm s)
  /\ ss_br s = 0 /\ ss_bt s = 0 /\ ss_bp s = 0 /\ ss_bpp s = 0 ->
  same_but_p g (ss_gm (synth_body st ct dt n m s))
  /\ ss_br (synth_body st ct dt n m s) = 0
  /\ ss_bt (synth_body st ct dt n m s) = 0
  /\ ss_bp (synth_body st ct dt n m s) = 0
  /\ ss_bpp (synth_body st ct dt n m s) = 0.
Proof.
  intros Hz (F & Hbr & Hbt & Hbp & Hbpp).
  split; [apply synth_body_frame; exact F|].
  pose proof F as (_ & _ & _ & _ & _ & Hc & Hcd & _).
  destruct (synth_body_silent st ct dt n m s) as (-> & -> & -> & ->);
    [| |auto].
  - rewrite Hc, Hcd; destruct (Hz m n) as [-> ->]; ring.
  - rewrite Hc, Hcd; destruct (Hz n (m - 1)%Z) as [-> ->]; ring.
Qed.

Lemma field_vector_zero (stack : working_arrays) (g : GeoMag.t)
    (glat glon alt dt : R) :
  (forall i j, zero_at i j g) ->
  snd (field_vector stack g glat glon alt dt) = (0, 0, 0).
Proof.
  intros Hz; unfold field_vector; cbv zeta; cbn [snd].
  match goal with
  | |- context [iter_from ?t 1 ?body ?s0] =>
      assert (Hend : same_but_p g (ss_gm (iter_from t 1 body s0))
                     /\ ss_br (iter_from t 1 body s0) = 0
                     /\ ss_bt (iter_from t 1 body s0) = 0
                     /\ ss_bp (iter_from t 1 body s0) = 0
                     /\ ss_bpp (iter_from t 1 body s0) = 0)
  end.
  { apply (iter_from_inv
             (fun s => same_but_p g (ss_gm s)
                       /\ ss_br s = 0 /\ ss_bt s = 0
                       /\ ss_bp s = 0 /\ ss_bpp s = 0)).
    - intros n s Hs; unfold synth_degree; cbv zeta.
      apply (iter_from_inv
               (fun s => same_but_p g (ss_gm s)
                         /\ ss_br s = 0 /\ ss_bt s = 0
                         /\ ss_bp s = 0 /\ ss_bpp s = 0)).
      + intros m s'; apply synth_body_zero; exact Hz.
      + exact Hs.
    - cbn [ss_gm ss_br ss_bt ss_bp ss_bpp].
      split; [apply same_but_p_refl | auto]. }
  destruct Hend as (_ & -> & -> & -> & ->).
  destruct (Reqb _ 0); f_equal; [f_equal| |f_equal|];
    try reflexivity; try ring; unfold Rdiv; ring.
Qed.

(** Over a model without coefficients every calculation on an accepted
    date succeeds with a zero field: X, Y, Z, H and F are 0, the
    blackout flag is set, and the code is -2 when the warning zones are
    raised and 0 otherwise. *)
Theorem calculate_without_coefficients :
  forall (stack : working_arrays) (g : GeoMag.t) (glat glon alt time : R)
         (allow raise : bool) (res : GeoMagResult.t),
    (forall i j, zero_at i j g) ->
    date_accepted g time allow ->
    exists (g' : GeoMag.t) (res' : GeoMagResult.t),
      geomag_calculate stack (Some g) glat glon alt time allow raise
        (Some res)
      = ((if raise then (-2)%Z else 0%Z), Some g', Some res')
      /\ GeoMagResult.x res' = 0
      /\ GeoMagResult.y res' = 0
      /\ GeoMagResult.z res' = 0
      /\ GeoMagResult.h res' = 0
      /\ GeoMagResult.f res' = 0
      /\ GeoMagResult.in_blackout_zone res' = true
      /\ GeoMagResult.in_caution_zone res' = false.
Proof.
  intros stack g glat glon alt time allow raise res Hz Hd.
  destruct (geomag_calculate_accepted stack g glat glon alt time allow
              raise res Hd) as (bx & by_ & bz & Ev & E).
  rewrite field_vector_zero in Ev by exact Hz.
  injection Ev as <- <- <-.
  cbv zeta in E; rewrite E.
  set (r := derive_result glat glon 0 0 0
              (init_result g glat glon alt time res)).
  destruct (derive_result_members glat glon 0 0 0
              (init_result g glat glon alt time res))
    as (Hf & _ & _ & _ & Hx & Hy & Hz' & Hh).
  fold r in Hf, Hx, Hy, Hz', Hh.
  assert (HF : GeoMagResult.f r = 0).
  { rewrite Hf.
    replace (0 * 0 + 0 * 0) with 0 by ring.
    rewrite sqrt_0.
    replace (0 * 0 + 0 * 0) with 0 by ring.
    apply sqrt_0. }
  rewrite <- Hf, HF in Hx, Hy, Hz', Hh.
  rewrite !Rmult_0_l in Hx, Hy, Hz', Hh.
  destruct (check_zones_fields raise r)
    as (Ex & Ey & Ez & Eh & Ef & _).
  destruct (check_zones_spec raise r) as (Hblack & _);
    [reflexivity | reflexivity |].
  destruct Hblack as (Hb & Hc & Hrc); [rewrite Eh, Hh; lra|].
  rewrite Hrc.
  eexists _, _; split; [reflexivity|].
  rewrite Ex, Ey, Ez, Eh, Ef, Hx, Hy, Hz', Hh, HF.
  repeat split; try assumption; ring.
Qed.

Lemma blank_model_zero_at (i j : Z) : zero_at i j blank_model.
Proof.
  unfold blank_model, load_coefficients, header_only_file, wmm_header.
  cbn [header records read_records rec_n end_marker Z.eqb Pos.eqb snd].
  apply normalize_zero_at.
  unfold zero_at, clear_tables; cbn -[upd2 zeros2].
  unfold upd2, zeros2; split; destruct (_ && _)%bool; reflexivity.
Qed.

Lemma calculate_without_coefficients_witness :
  (forall i j, zero_at i j blank_model)
  /\ date_accepted blank_model 2027 true
  /\ exists (g' : GeoMag.t) (res' : GeoMagResult.t),
       geomag_calculate no_working (Some blank_model) 80 (-120) 10 2027
         true true (Some no_result)
       = ((if true then (-2)%Z else 0%Z), Some g', Some res')
       /\ GeoMagResult.x res' = 0
       /\ GeoMagResult.y res' = 0
       /\ GeoMagResult.z res' = 0
       /\ GeoMagResult.h res' = 0
       /\ GeoMagResult.f res' = 0
       /\ GeoMagResult.in_blackout_zone res' = true
       /\ GeoMagResult.in_caution_zone res' = false.
Proof.
  assert (Hd : date_accepted blank_model 2027 true)
    by (left; reflexivity).
  split; [exact blank_model_zero_at|]; split; [exact Hd|].
  exact (calculate_without_coefficients no_working blank_model 80 (-120)
           10 2027 true true no_result blank_model_zero_at Hd).
Defined.

(** ** The load that fails *)

(** The records before a corrupt one are stored when the loop gives
    up. *)
Lemma read_records_corrupt_stored (r : cof_record)
    (rest pre : list cof_record) :
  forall g : GeoMag.t,
    Forall (ingested g) pre ->
    rec_n r <> 9999%Z -> (rec_m r <= GeoMag.maxord g)%Z ->
    (rec_n r < rec_m r \/ rec_m r < 0 \/ GeoMag.size g <= rec_n r)%Z ->
    read_records g (pre ++ r :: rest)
    = ReadCorrupt (fold_left store_record pre g).
Proof.
  induction pre as [|r0 pre IH]; intros g Hall Hn Hm Hbad.
  - cbn [app fold_left read_records].
    destruct (Z.eqb_spec (rec_n r) 9999) as [|_]; [contradiction|].
    destruct (Z.ltb_spec (GeoMag.maxord g) (rec_m r)) as [|_]; [lia|].
    replace (corrupt_record g r) with true; [reflexivity|].
    symmetry; apply corrupt_record_true; lia.
  - inversion Hall as [|? ? Hr Hpre]; subst.
    cbn [app fold_left]; rewrite read_records_ingested by exact Hr.
    destruct (store_record_bounds g r0) as [Emax Esz].
    apply IH.
    + eapply Forall_impl; [|exact Hpre].
      intros r'; apply ingested_store.
    + exact Hn.
    + rewrite Emax; exact Hm.
    + rewrite Esz; exact Hbad.
Qed.

Lemma fold_store_frame (pre : list cof_record) :
  forall g : GeoMag.t,
    same_scalars g (fold_left store_record pre g)
    /\ GeoMag.k (fold_left store_record pre g) = GeoMag.k g
    /\ GeoMag.fn (fold_left store_record pre g) = GeoMag.fn g
    /\ GeoMag.fm (fold_left store_record pre g) = GeoMag.fm g
    /\ GeoMag.p (fold_left store_record pre g) = GeoMag.p g.
Proof.
  induction pre as [|r pre IH]; intros g; cbn [fold_left].
  - repeat split.
  - destruct (IH (store_record g r)) as (Hsc & Hk & Hfn & Hfm & Hp).
    destruct (store_record_frame g r) as (Hsc' & Hk' & Hfn' & Hfm' & Hp').
    rewrite Hk, Hfn, Hfm, Hp, Hk', Hfn', Hfm', Hp'.
    split; [|auto].
    unfold same_scalars in *.
    decompose [and] Hsc; decompose [and] Hsc'; repeat split; congruence.
Qed.

(** A record that is not the end marker, whose order does not exceed
    [maxord] and whose indices fail the validation of line 71, makes
    [geomag_init] return -1 after the records before it have been
    stored: the caller's structure is left with the header of the file
    and with these records in [c] and [cd], not normalised; [k] is
    cleared, and [fn], [fm] and [p] are as they were. *)
Theorem geomag_init_corrupt_record :
  forall (snorm0 : array1) (g : GeoMag.t) (high_resolution : bool)
         (e : R) (name date : string) (pre rest : list cof_record)
         (r : cof_record),
    Forall (ingested (sized g high_resolution)) pre ->
    rec_n r <> 9999%Z ->
    (rec_m r <= init_order high_resolution)%Z ->
    (rec_n r < rec_m r \/ rec_m r < 0
     \/ init_order high_resolution + 1 <= rec_n r)%Z ->
    exists g' : GeoMag.t,
      geomag_init snorm0 (Some g)
        (Some (Some (mk_file (Some (e, name, date)) (pre ++ r :: rest))))
        high_resolution = ((-1)%Z, Some g')
      /\ g' = fold_left store_record pre
                (before_reading g high_resolution e name date)
      /\ GeoMag.maxord g' = init_order high_resolution
      /\ GeoMag.size g' = (init_order high_resolution + 1)%Z
      /\ GeoMag.epoch g' = e
      /\ GeoMag.model g' = name
      /\ GeoMag.release_date g' = date
      /\ GeoMag.k g' = zeros2
      /\ GeoMag.fn g' = GeoMag.fn g
      /\ GeoMag.fm g' = GeoMag.fm g
      /\ GeoMag.p g' = GeoMag.p g.
Proof.
  intros snorm0 g hr e name date pre rest r Hall Hn Hm Hbad.
  rewrite geomag_init_sized.
  unfold load_coefficients; cbn [header records].
  fold (before_reading g hr e name date).
  rewrite (read_records_corrupt_stored r rest pre
             (before_reading g hr e name date));
    [|exact Hall | exact Hn | exact Hm | exact Hbad].
  cbn [fst snd].
  eexists; split; [reflexivity|]; split; [reflexivity|].
  destruct (fold_store_frame pre (before_reading g hr e name date))
    as ((-> & -> & -> & -> & ->) & -> & -> & -> & ->).
  repeat split.
Qed.

Lemma geomag_init_corrupt_record_witness :
  Forall (ingested (sized no_model false)) [record_1_0]
  /\ rec_n record_3_5 <> 9999%Z
  /\ (rec_m record_3_5 <= init_order false)%Z
  /\ (rec_n record_3_5 < rec_m record_3_5 \/ rec_m record_3_5 < 0
      \/ init_order false + 1 <= rec_n record_3_5)%Z
  /\ exists g' : GeoMag.t,
       geomag_init (fun _ => 0) (Some no_model)
         (Some (Some (mk_file (Some (2025, "WMM-2025"%string,
                                     "11/13/2024"%string))
                        ([record_1_0] ++ record_3_5 :: [end_marker]))))
         false = ((-1)%Z, Some g')
       /\ g' = fold_left store_record [record_1_0]
                 (before_reading no_model false 2025 "WMM-2025"
                    "11/13/2024")
       /\ GeoMag.maxord g' = init_order false
       /\ GeoMag.size g' = (init_order false + 1)%Z
       /\ GeoMag.epoch g' = 2025
       /\ GeoMag.model g' = "WMM-2025"%string
       /\ GeoMag.release_date g' = "11/13/2024"%string
       /\ GeoMag.k g' = zeros2
       /\ GeoMag.fn g' = GeoMag.fn no_model
       /\ GeoMag.fm g' = GeoMag.fm no_model
       /\ GeoMag.p g' = GeoMag.p no_model.
Proof.
  assert (Hall : Forall (ingested (sized no_model false)) [record_1_0])
    by (constructor; [exact record_1_0_ingested | constructor]).
  assert (Hn : rec_n record_3_5 <> 9999%Z) by (cbn; lia).
  assert (Hm : (rec_m record_3_5 <= init_order false)%Z)
    by (cbn; unfold WMM_SIZE_STANDARD; lia).
  assert (Hbad : (rec_n record_3_5 < rec_m record_3_5
                  \/ rec_m record_3_5 < 0
                  \/ init_order false + 1 <= rec_n record_3_5)%Z)
    by (left; cbn; lia).
  split; [exact Hall|]; split; [exact Hn|]; split; [exact Hm|];
    split; [exact Hbad|].
  exact (geomag_init_corrupt_record (fun _ => 0) no_model false 2025
           "WMM-2025" "11/13/2024" [record_1_0] [end_marker] record_3_5
           Hall Hn Hm Hbad).
Defined.

(** Test 6 as a function of the coefficient file: when the load fails
    the test is skipped and no counter moves; when 2025.0 is outside
    the five years that follow the epoch of the file only
    [test_failed] is incremented.  Otherwise two tests are counted, and
    the check of the resolution flag always passes: the comparison of
    the declination alone decides. *)
Theorem test_high_resolution_outcome :
  forall (snorm0 : array1) (stack : working_arrays) (geo_mag : GeoMag.t)
         (result : GeoMagResult.t) (wmmhr_cof : option cof_file)
         (t : counters),
  exists (rc : Z) (g : GeoMag.t),
    geomag_init snorm0 (Some geo_mag) (Some wmmhr_cof) true = (rc, Some g)
    /\ test_high_resolution snorm0 stack geo_mag result wmmhr_cof t
       = if (rc =? 0)%Z then
           if outside_lifespan (2025 - GeoMag.epoch g)
           then count_failed t
           else
             let D :=
               match snd (geomag_calculate stack (Some g) (476205 / 10000)
                            (-1223493 / 10000) 0 2025 false false
                            (Some result)) with
               | Some r => GeoMagResult.d r
               | None => 0
               end in
             if Rleb (Rabs (15017316 / 1000000 - D)) (1 / 100)
             then mk_counters (test_count t + 2) (test_passed t + 2)
                    (test_failed t)
             else mk_counters (test_count t + 2) (test_passed t + 1)
                    (test_failed t + 1)
         else t.
Proof.
  intros snorm0 stack geo_mag result wmmhr_cof t.
  pose proof (geomag_init_sized snorm0 geo_mag wmmhr_cof true) as Einit.
  unfold test_high_resolution; rewrite Einit.
  eexists _, _; split; [reflexivity|].
  cbv beta iota zeta.
  set (g := snd (load_coefficients snorm0 (sized geo_mag true) wmmhr_cof))
    in *.
  destruct (Z.eqb_spec
              (fst (load_coefficients snorm0 (sized geo_mag true)
                      wmmhr_cof)) 0) as [Erc|Erc];
    cbn [negb]; [|reflexivity].
  rewrite Erc in Einit.
  destruct (geomag_init_loaded_order _ _ _ _ _ Einit) as [Hmax _].
  destruct (outside_lifespan (2025 - GeoMag.epoch g)) eqn:Hout.
  - apply outside_lifespan_true in Hout.
    rewrite (geomag_calculate_rejected stack g _ _ _ _ false result Hout).
    reflexivity.
  - apply outside_lifespan_false in Hout.
    destruct (geomag_calculate_advisory stack g (476205 / 10000)
                (-1223493 / 10000) 0 2025 false result)
      as (g1 & res1 & -> & _ & _ & Hres); [right; exact Hout|].
    cbv beta iota zeta; cbn [Z.eqb negb snd].
    rewrite Hmax in Hres; cbn in Hres; rewrite Hres.
    unfold assert_near.
    destruct (Rleb (Rabs (15017316 / 1000000 - GeoMagResult.d res1))
                (1 / 100));
      unfold count_test, count_passed, count_failed;
      cbn [test_count test_passed test_failed]; f_equal; lia.
Qed.

(** ** The coordinates of the point *)



(** The loop of lines 222-225 leaves in [sp[m]] and [cp[m]] the sine
    and the cosine of [m] times the longitude, for every [m] from 0 to
    the last one it computes. *)
Theorem longitude_multiples :
  forall (stack : working_arrays) (rlon : R) (turns : nat) (m : Z),
    (0 <= m < 2 + Z.of_nat turns)%Z ->
    let w0 := init_working stack in
    let w := iter_from turns 2 lon_body
               (mk_working (tc w0) (dp w0) (upd (sp w0) 1 (sin rlon))
                  (upd (cp w0) 1 (cos rlon)) (pp w0)) in
    sp w m = sin (IZR m * rlon) /\ cp w m = cos (IZR m * rlon).
Proof.
  intros stack rlon turns m Hm; cbv zeta.
  revert m Hm.
  apply (iter_from_range 2 (2 + Z.of_nat turns)
           (fun i w => forall j, (0 <= j < i)%Z ->
                                 sp w j = sin (IZR j * rlon)
                                 /\ cp w j = cos (IZR j * rlon)));
    [|lia|lia|].
  - intros i w Hi Hw j Hj.
    destruct (Hw 1%Z) as [Es1 Ec1]; [lia|].
    destruct (Hw (i - 1)%Z) as [Esi Eci]; [lia|].
    rewrite Rmult_1_l in Es1, Ec1.
    unfold lon_body; cbn [sp cp].
    destruct (Z.eq_dec j i) as [->|Hne].
    + rewrite !upd_same.
      rewrite !(upd_other _ i _ 1%Z), !(upd_other _ i _ (i - 1)%Z) by lia.
      rewrite Es1, Ec1, Esi, Eci.
      replace (IZR i * rlon) with (rlon + IZR (i - 1) * rlon)
        by (rewrite minus_IZR; ring).
      rewrite sin_plus, cos_plus; split; reflexivity.
    + rewrite !(upd_other _ i _ j) by exact Hne.
      apply Hw; lia.
  - intros j Hj; cbn [sp cp init_working].
    destruct (Z.eq_dec j 1) as [->|Hne].
    + rewrite !upd_same, Rmult_1_l; split; reflexivity.
    + assert (j = 0%Z) as -> by lia.
      rewrite !(upd_other _ 1 _ 0%Z) by lia.
      rewrite !upd_same, Rmult_0_l, sin_0, cos_0; split; reflexivity.
Qed.

Lemma longitude_multiples_witness :
  (0 <= 3 < 2 + Z.of_nat 11)%Z
  /\ let w0 := init_working stale_working in
     let w := iter_from 11 2 lon_body
                (mk_working (tc w0) (dp w0) (upd (sp w0) 1 (sin (PI / 6)))
                   (upd (cp w0) 1 (cos (PI / 6))) (pp w0)) in
     sp w 3%Z = sin (IZR 3 * (PI / 6)) /\ cp w 3%Z = cos (IZR 3 * (PI / 6)).
Proof.
  assert (H : (0 <= 3 < 2 + Z.of_nat 11)%Z) by lia.
  split; [exact H|].
  exact (longitude_multiples stale_working (PI / 6) 11 3 H).
Defined.
